(** * Network economic state engine of the Filecoin agent twin

    A shallow embedding of [agentfil/filecoin_model.py] (class
    [FilecoinModel]) and of the constants of [agentfil/constants.py].

    Conventions of the embedding.

    - Python floats are idealised as exact rationals ([Q]), except in the
      share of the rewards ([_get_agent_power_proportion]), whose promise is
      about rounding: there every operation rounds to float64 and a zero
      divisor gives an infinity or NaN, as in numpy.  A cell holding NaN (a
      column created by a partial assignment) is an absent cell.
    - A pandas [DataFrame] with its default integer index is a finite map
      from (column name, row label) to a value, together with its number of
      rows.  The [date] column of [filecoin_df] is the day offset from
      [NETWORK_DATA_START], so a date is a [nat] and looking it up yields
      itself when it is inside the frame.
    - A Python exception ([KeyError], [IndexError]) and an arithmetic result
      that is not a rational (division by zero) is [None]. *)

From Stdlib Require Import QArith Qminmax Lqa Qround Qabs Qpower.
From stdpp Require Import gmap strings list fin_maps.

Local Open Scope string_scope.

(** ** constants.py *)

Definition EIB : Q := inject_Z (2 ^ 60).
Definition PIB : Q := inject_Z (2 ^ 50).
Definition TIB : Q := inject_Z (2 ^ 40).
Definition GIB : Q := inject_Z (2 ^ 30).
Definition SECTOR_SIZE : Q := (32 * GIB)%Q.
Definition MIN_VALUE : Q := (1 # 1000000)%Q.

(** ** Python and numpy numeric builtins *)

(** [max(a, b)]: the first argument unless the second is strictly larger. *)
Definition py_max (a b : Q) : Q := if Qlt_le_dec a b then b else a.

(** [min(a, b)]: the first argument unless the second is strictly smaller. *)
Definition py_min (a b : Q) : Q := if Qlt_le_dec b a then b else a.

(** [np.clip(x, lo, hi)] is [minimum(maximum(x, lo), hi)]. *)
Definition np_clip (x lo hi : Q) : Q := py_min (py_max x lo) hi.

(** [x / y] on floats; a zero divisor leaves the rationals. *)
Definition fdiv (x y : Q) : option Q :=
  if Qeq_bool y 0 then None else Some (x / y)%Q.

(** ** float64 arithmetic, where a property depends on the rounding

    The share of the rewards is computed on [np.float64] values, and what it
    promises is a matter of rounding and of the values that are not numbers.
    A float64 is modelled as a rational, an infinity or NaN; the result of
    an operation on finite values is the exact result rounded to the nearest
    number of 53 significant bits, ties to even.  The range of the exponent
    is not bounded (no overflow, no subnormal numbers) and a zero carries no
    sign: a zero divisor counts as [+0.0]. *)

Definition pow2 (e : Z) : Q := (2 ^ e)%Q.

(** The nearest integer, ties to the even one. *)
Definition rne (x : Q) : Z :=
  let f := Qfloor x in
  match (x - inject_Z f ?= 1 # 2)%Q with
  | Lt => f
  | Gt => (f + 1)%Z
  | Eq => if Z.even f then f else (f + 1)%Z
  end.

(** [floor(log2 x)] of a positive rational. *)
Definition ilog2 (x : Q) : Z :=
  let k := (Z.log2 (Qnum x) - Z.log2 (Zpos (Qden x)))%Z in
  if Qle_bool (pow2 k) x then k else (k - 1)%Z.

(** The float64 nearest to a positive rational: an integer of 53 bits times
    a power of two. *)
Definition round_pos (x : Q) : Q :=
  let e := (ilog2 x - 52)%Z in
  (inject_Z (rne (x / pow2 e)) * pow2 e)%Q.

(** The float64 nearest to a rational. *)
Definition fl (x : Q) : Q :=
  match (x ?= 0)%Q with
  | Eq => 0%Q
  | Gt => round_pos x
  | Lt => (- round_pos (- x))%Q
  end.

(** The unit roundoff of float64. *)
Definition unit_roundoff : Q := 1 # 2 ^ 53.

Inductive float64 :=
  | Finite (q : Q)
  | PosInf
  | NegInf
  | NaN.

(** [x / y] of numpy: a zero divisor gives an infinity or NaN, with a
    warning and no exception. *)
Definition np_divide (x y : float64) : float64 :=
  match x, y with
  | NaN, _ | _, NaN => NaN
  | Finite a, Finite b =>
      if Qeq_bool b 0 then
        match (a ?= 0)%Q with Eq => NaN | Gt => PosInf | Lt => NegInf end
      else Finite (fl (a / b))
  | Finite _, (PosInf | NegInf) => Finite 0
  | PosInf, Finite b => if Qle_bool 0 b then PosInf else NegInf
  | NegInf, Finite b => if Qle_bool 0 b then NegInf else PosInf
  | (PosInf | NegInf), (PosInf | NegInf) => NaN
  end.

(** [x + y] on float64. *)
Definition np_add (x y : float64) : float64 :=
  match x, y with
  | NaN, _ | _, NaN => NaN
  | Finite a, Finite b => Finite (fl (a + b))
  | PosInf, NegInf | NegInf, PosInf => NaN
  | PosInf, _ | _, PosInf => PosInf
  | NegInf, _ | _, NegInf => NegInf
  end.

(** [min(x, 1.0)]: the first argument unless [1.0] is strictly smaller;
    no comparison with NaN holds. *)
Definition min_one (x : float64) : float64 :=
  match x with
  | Finite q => Finite (if Qlt_le_dec 1 q then 1 else q)
  | PosInf => Finite 1
  | NegInf => NegInf
  | NaN => NaN
  end.

(** Python's builtin [sum] on float64 values: a left fold from [0]. *)
Definition np_sum (l : list float64) : float64 := fold_left np_add l (Finite 0).

(** The value of a float64 that is a number. *)
Definition finite (x : float64) : option Q :=
  match x with Finite q => Some q | _ => None end.

(** ** pandas frames *)

Record DataFrame := mkDataFrame {
  nrows : nat;
  cells : gmap (string * nat) Q
}.

(** [df.loc[i, c]] read. *)
Definition loc (df : DataFrame) (i : nat) (c : string) : option Q :=
  cells df !! (c, i).

(** [df.loc[i - 1, c]] read: label [-1] is not in the index. *)
Definition loc_prev (df : DataFrame) (i : nat) (c : string) : option Q :=
  match i with
  | O => None
  | S p => loc df p c
  end.

(** [df.iloc[i - 1][c]] read: position [-1] is the last row. *)
Definition iloc_prev (df : DataFrame) (i : nat) (c : string) : option Q :=
  match i with
  | O => guard (0 < nrows df)%nat;; loc df (nrows df - 1) c
  | S p => guard (p < nrows df)%nat;; loc df p c
  end.

(** [df.iloc[i][c]] read. *)
Definition iloc (df : DataFrame) (i : nat) (c : string) : option Q :=
  guard (i < nrows df)%nat;; loc df i c.

(** [df.loc[i, c] = v] on an existing row (enlargement by a new label is
    outside the embedding). *)
Definition set_loc (df : DataFrame) (i : nat) (c : string) (v : Q)
  : option DataFrame :=
  guard (i < nrows df)%nat;;
  Some (mkDataFrame (nrows df) (<[(c, i) := v]> (cells df))).

(** [df.loc[i, c] += v]: reads the cell first. *)
Definition add_loc (df : DataFrame) (i : nat) (c : string) (v : Q)
  : option DataFrame :=
  old ← loc df i c;
  set_loc df i c (old + v)%Q.

(** [df[df['date'] == date_in].index[0]]. *)
Definition index_of_date (df : DataFrame) (date_in : nat) : option nat :=
  guard (date_in < nrows df)%nat;; Some date_in.

(** [df.iloc[i]['date']]: the date of a row is its day offset. *)
Definition iloc_date (df : DataFrame) (i : nat) : option nat :=
  guard (i < nrows df)%nat;; Some i.


(** Build a frame from its columns, for concrete examples. *)
Definition column_cells (c : string) (vs : list Q) : list ((string * nat) * Q) :=
  imap (λ i v, ((c, i), v)) vs.

Definition frame_of (n : nat) (cols : list (string * list Q)) : DataFrame :=
  mkDataFrame n (list_to_map (concat (map (λ cv, column_cells cv.1 cv.2) cols))).

(** ** Agents

    Modelled from the spec: the agent class ([agents/sp_agent.py]) is not
    among the sources.  An agent is represented by what the model reads from
    it: its power ledger ([get_power_at_date], whose quality-adjusted entries
    are also the second components of [onboarded_power], [renewed_power] and
    [scheduled_expire_power]), its live quality-adjusted power
    ([get_active_qa_power_at_date]) and its accounting table, which shares
    the date index of the network frame. *)

Record PowerStats := mkPowerStats {
  day_onboarded_rb_power_pib : Q;
  day_onboarded_qa_power_pib : Q;
  extended_rb_pib : Q;
  extended_qa_pib : Q;
  sched_expire_rb_pib : Q;
  sched_expire_qa_pib : Q;
  terminated_rb_pib : Q;
  terminated_qa_pib : Q;
  day_onboarded_qa_duration : nat;
  extended_qa_duration : nat
}.

Record Agent := mkAgent {
  unique_id : nat;
  get_power_at_date : nat → PowerStats;
  get_active_qa_power_at_date : nat → Q;
  accounting_df : DataFrame
}.

Definition with_accounting (a : Agent) (acc : DataFrame) : Agent :=
  mkAgent (unique_id a) (get_power_at_date a) (get_active_qa_power_at_date a) acc.

(** ** [_compute_macro] *)

Record MacroInfo := mkMacroInfo {
  macro_date : nat;
  day_onboarded_rbp_pib : Q;
  day_onboarded_qap_pib : Q;
  day_renewed_rbp_pib : Q;
  day_renewed_qap_pib : Q;
  day_sched_expire_rbp_pib : Q;
  day_sched_expire_qap_pib : Q;
  day_terminated_rbp_pib : Q;
  day_terminated_qap_pib : Q;
  day_network_rbp_pib : Q;
  day_network_qap_pib : Q
}.

(** One accumulator of the loop over [self.agents]: starts at [0] and is
    incremented by the agent's entry. *)
Definition accumulate (f : PowerStats → Q) (agents : list Agent) (date_in : nat) : Q :=
  fold_left (λ acc a, (acc + f (get_power_at_date a date_in))%Q) agents 0%Q.

Definition _compute_macro (agents : list Agent) (date_in : nat) : MacroInfo :=
  let total_onboarded_rb_delta := accumulate day_onboarded_rb_power_pib agents date_in in
  let total_onboarded_qa_delta := accumulate day_onboarded_qa_power_pib agents date_in in
  let total_renewed_rb_delta := accumulate extended_rb_pib agents date_in in
  let total_renewed_qa_delta := accumulate extended_qa_pib agents date_in in
  let total_se_rb_delta := accumulate sched_expire_rb_pib agents date_in in
  let total_se_qa_delta := accumulate sched_expire_qa_pib agents date_in in
  let total_terminated_rb_delta := accumulate terminated_rb_pib agents date_in in
  let total_terminated_qa_delta := accumulate terminated_qa_pib agents date_in in
  let total_rb_delta :=
    (0 + (total_onboarded_rb_delta + total_renewed_rb_delta
          - total_se_rb_delta - total_terminated_rb_delta))%Q in
  let total_qa_delta :=
    (0 + (total_onboarded_qa_delta + total_renewed_qa_delta
          - total_se_qa_delta - total_terminated_qa_delta))%Q in
  mkMacroInfo date_in
    total_onboarded_rb_delta total_onboarded_qa_delta
    total_renewed_rb_delta total_renewed_qa_delta
    total_se_rb_delta total_se_qa_delta
    total_terminated_rb_delta total_terminated_qa_delta
    total_rb_delta total_qa_delta.

(** ** [_update_power_metrics] *)

Definition _update_power_metrics (df : DataFrame) (day_macro_info : MacroInfo)
    (day_idx : nat) : option DataFrame :=
  df ← set_loc df day_idx "day_onboarded_rbp_pib" (day_onboarded_rbp_pib day_macro_info);
  df ← set_loc df day_idx "day_onboarded_qap_pib"
         (py_max (day_onboarded_qap_pib day_macro_info) MIN_VALUE);
  df ← set_loc df day_idx "day_renewed_rbp_pib" (day_renewed_rbp_pib day_macro_info);
  df ← set_loc df day_idx "day_renewed_qap_pib" (day_renewed_qap_pib day_macro_info);
  df ← set_loc df day_idx "day_sched_expire_rbp_pib" (day_sched_expire_rbp_pib day_macro_info);
  df ← set_loc df day_idx "day_sched_expire_qap_pib" (day_sched_expire_qap_pib day_macro_info);
  df ← set_loc df day_idx "day_terminated_rbp_pib" (day_terminated_rbp_pib day_macro_info);
  df ← set_loc df day_idx "day_terminated_qap_pib" (day_terminated_qap_pib day_macro_info);
  df ← set_loc df day_idx "day_network_rbp_pib" (day_network_rbp_pib day_macro_info);
  df ← set_loc df day_idx "day_network_qap_pib" (day_network_qap_pib day_macro_info);
  day_rbp ← loc df day_idx "day_network_rbp_pib";
  prev_rbp ← loc_prev df day_idx "total_raw_power_eib";
  df ← set_loc df day_idx "total_raw_power_eib"
         (py_max (day_rbp / 1024 + prev_rbp) MIN_VALUE);
  day_qap ← loc df day_idx "day_network_qap_pib";
  prev_qap ← loc_prev df day_idx "total_qa_power_eib";
  set_loc df day_idx "total_qa_power_eib"
         (py_max (day_qap / 1024 + prev_qap) MIN_VALUE).

(** ** Renewal ratio

    The branch shared by [_update_sched_expire_pledge] and
    [_update_circulating_supply], before [np.clip]. *)

Definition Qltb (x y : Q) : bool := negb (Qle_bool y x).

Definition raw_renewal_ratio (renewed_qap se_qap : Q) : option Q :=
  if Qeq_bool se_qap 0 && Qltb 0 renewed_qap then Some 1%Q
  else if Qltb se_qap 0 || Qeq_bool renewed_qap 0 then Some 0%Q
  else fdiv renewed_qap se_qap.

Definition agent_renewal_ratio (renewed_qap se_qap : Q) : option Q :=
  agent_rr ← raw_renewal_ratio renewed_qap se_qap;
  Some (np_clip agent_rr 0 1).

(** A row of a frame handed to a callable, [df.iloc[i - 1]]. *)
Definition row_prev (df : DataFrame) (i : nat) : string → option Q :=
  λ c, iloc_prev df i c.

(** ** Collaborators

    The functions of [agentfil/locking.py] and the user-supplied hooks are
    outside the sources; the model is parametric in them.  [lock_target] is
    the attribute [self.lock_target]. *)

Class Environment := {
  OnboardRatio : Type;
  Kwargs : Type;
  compute_new_pledge_for_added_power :
    Q → Q → Q → Q → Q → Q → OnboardRatio → Kwargs → Q;
  compute_day_delta_pledge :
    Q → Q → Q → Q → Q → Q → Q → Q → Q → OnboardRatio → Kwargs → Q;
  compute_day_locked_rewards : Q → Q;
  compute_day_reward_release : Q → Q;
  pledge_onboard_ratio_callable : OnboardRatio;
  pledge_onboard_ratio_callable_kwargs_fn : nat → (string → option Q) → Q → Kwargs;
  lock_target : Q
}.

Section Model.

Context `{!Environment}.

(** *** [_update_sched_expire_pledge] *)

(** The guarded block that registers a deferred release, written once for
    onboarding and once for renewal in the source:
    [if day_idx + duration < len(self.filecoin_df): if update_filecoin_df: ...].
    [agent_column] is [onboard_scheduled_pledge_release_FIL] or
    [renew_scheduled_pledge_release_FIL]. *)
Definition schedule_release (update_filecoin_df : bool) (df acc : DataFrame)
    (release_idx : nat) (agent_column : string) (locked : Q)
  : option (DataFrame * DataFrame) :=
  if decide (release_idx < nrows df)%nat then
    if update_filecoin_df then
      df ← add_loc df release_idx "scheduled_pledge_release" locked;
      acc ← add_loc acc release_idx agent_column locked;
      acc ← add_loc acc release_idx "scheduled_pledge_release" locked;
      Some (df, acc)
    else Some (df, acc)
  else Some (df, acc).

(** The body of the loop over agents. *)
Definition sched_expire_agent (date_in day_idx : nat) (update_filecoin_df : bool)
    (total_qa baseline_power day_network_reward prev_circ_supply : Q)
    (df : DataFrame) (agent : Agent) (aggregate_rr : Q)
  : option (DataFrame * Agent * Q) :=
  let agent_day_power_stats := get_power_at_date agent date_in in
  let day_onboarded_qap := (day_onboarded_qa_power_pib agent_day_power_stats * PIB)%Q in
  let day_renewed_qap := (extended_qa_pib agent_day_power_stats * PIB)%Q in
  let pledge_onboard_ratio_callable_kwargs :=
    pledge_onboard_ratio_callable_kwargs_fn date_in (row_prev df day_idx) lock_target in
  let onboards_locked :=
    compute_new_pledge_for_added_power day_network_reward prev_circ_supply
      day_onboarded_qap total_qa baseline_power lock_target
      pledge_onboard_ratio_callable pledge_onboard_ratio_callable_kwargs in
  let renews_locked :=
    compute_new_pledge_for_added_power day_network_reward prev_circ_supply
      day_renewed_qap total_qa baseline_power lock_target
      pledge_onboard_ratio_callable pledge_onboard_ratio_callable_kwargs in
  let acc := accounting_df agent in
  original_pledge ← loc acc day_idx "scheduled_pledge_release";
  let agent_day_renewed_qap := (extended_qa_pib agent_day_power_stats * PIB)%Q in
  let agent_day_se_qap := (sched_expire_qa_pib agent_day_power_stats * PIB)%Q in
  agent_rr ← agent_renewal_ratio agent_day_renewed_qap agent_day_se_qap;
  let aggregate_rr := (aggregate_rr * agent_rr)%Q in
  let original_pledge_for_renew := (original_pledge * agent_rr)%Q in
  let renews_locked := py_max original_pledge_for_renew renews_locked in
  let onboarded_qa_duration := day_onboarded_qa_duration agent_day_power_stats in
  let renewed_qa_duration := extended_qa_duration agent_day_power_stats in
  acc ← add_loc acc day_idx "onboard_pledge_FIL" onboards_locked;
  '(df, acc) ← schedule_release update_filecoin_df df acc
                 (day_idx + onboarded_qa_duration)
                 "onboard_scheduled_pledge_release_FIL" onboards_locked;
  acc ← add_loc acc day_idx "renew_pledge_FIL" renews_locked;
  '(df, acc) ← schedule_release update_filecoin_df df acc
                 (day_idx + renewed_qa_duration)
                 "renew_scheduled_pledge_release_FIL" renews_locked;
  df ← add_loc df day_idx "original_pledge" original_pledge_for_renew;
  Some (df, with_accounting agent acc, aggregate_rr).

Fixpoint sched_expire_loop (date_in day_idx : nat) (update_filecoin_df : bool)
    (total_qa baseline_power day_network_reward prev_circ_supply : Q)
    (df : DataFrame) (agents : list Agent) (aggregate_rr : Q)
  : option (DataFrame * list Agent * Q) :=
  match agents with
  | [] => Some (df, [], aggregate_rr)
  | agent :: rest =>
      '(df, agent, aggregate_rr) ←
        sched_expire_agent date_in day_idx update_filecoin_df
          total_qa baseline_power day_network_reward prev_circ_supply
          df agent aggregate_rr;
      '(df, rest, aggregate_rr) ←
        sched_expire_loop date_in day_idx update_filecoin_df
          total_qa baseline_power day_network_reward prev_circ_supply
          df rest aggregate_rr;
      Some (df, agent :: rest, aggregate_rr)
  end.

Definition _update_sched_expire_pledge (df : DataFrame) (agents : list Agent)
    (date_in : nat) (update_filecoin_df : bool)
  : option (DataFrame * list Agent) :=
  day_idx ← index_of_date df date_in;
  total_qa_eib ← loc df day_idx "total_qa_power_eib";
  let total_qa := (total_qa_eib * EIB)%Q in
  baseline_power ← loc df day_idx "network_baseline";
  day_network_reward ← loc df day_idx "day_network_reward";
  prev_circ_supply ← loc_prev df day_idx "circ_supply";
  '(df, agents, aggregate_rr) ←
    sched_expire_loop date_in day_idx update_filecoin_df
      total_qa baseline_power day_network_reward prev_circ_supply
      df agents 1%Q;
  df ← set_loc df day_idx "renewal_rate" aggregate_rr;
  Some (df, agents).

(** *** [_update_circulating_supply] *)

(** The three accumulators of the loop over agents:
    [(pledge_delta, day_locked_pledge, day_renewed_pledge)]. *)
Definition circ_supply_agent (day_idx current_date : nat)
    (row_before : string → option Q)
    (day_network_reward prev_circ_supply network_QAP network_baseline : Q)
    (agent : Agent) (accs : Q * Q * Q) : option (Q * Q * Q) :=
  let '(pledge_delta, day_locked_pledge, day_renewed_pledge) := accs in
  let acc := accounting_df agent in
  onboard_pledge ← iloc acc day_idx "onboard_pledge_FIL";
  renew_pledge ← iloc acc day_idx "renew_pledge_FIL";
  let day_locked_pledge := (day_locked_pledge + (onboard_pledge + renew_pledge))%Q in
  renew_pledge ← iloc acc day_idx "renew_pledge_FIL";
  let day_renewed_pledge := (day_renewed_pledge + renew_pledge)%Q in
  let stats := get_power_at_date agent current_date in
  let agent_onboarded_qap := (day_onboarded_qa_power_pib stats * PIB)%Q in
  let agent_renewed_qap := (extended_qa_pib stats * PIB)%Q in
  let agent_se_qap := (sched_expire_qa_pib stats * PIB)%Q in
  agent_rr ← agent_renewal_ratio agent_renewed_qap agent_se_qap;
  agent_accounting_df_idx ← index_of_date acc current_date;
  agent_scheduled_pledge_release ←
    iloc acc agent_accounting_df_idx "scheduled_pledge_release";
  let pledge_onboard_ratio_callable_kwargs :=
    pledge_onboard_ratio_callable_kwargs_fn current_date row_before lock_target in
  let agent_pledge_delta :=
    compute_day_delta_pledge day_network_reward prev_circ_supply
      agent_onboarded_qap agent_renewed_qap network_QAP network_baseline
      agent_rr agent_scheduled_pledge_release lock_target
      pledge_onboard_ratio_callable pledge_onboard_ratio_callable_kwargs in
  Some ((pledge_delta + agent_pledge_delta)%Q, day_locked_pledge, day_renewed_pledge).

Fixpoint circ_supply_loop (day_idx current_date : nat)
    (row_before : string → option Q)
    (day_network_reward prev_circ_supply network_QAP network_baseline : Q)
    (agents : list Agent) (accs : Q * Q * Q) : option (Q * Q * Q) :=
  match agents with
  | [] => Some accs
  | agent :: rest =>
      accs ← circ_supply_agent day_idx current_date row_before
               day_network_reward prev_circ_supply network_QAP network_baseline
               agent accs;
      circ_supply_loop day_idx current_date row_before
        day_network_reward prev_circ_supply network_QAP network_baseline
        rest accs
  end.

Definition _update_circulating_supply (daily_burnt_fil : Q)
    (df : DataFrame) (agents : list Agent) (day_idx : nat) : option DataFrame :=
  current_date ← iloc_date df day_idx;
  total_qa_power_eib ← iloc df day_idx "total_qa_power_eib";
  let network_QAP := (total_qa_power_eib * EIB)%Q in
  network_baseline ← iloc df day_idx "network_baseline";
  day_network_reward ← iloc df day_idx "day_network_reward";
  prev_network_locked_reward ← iloc_prev df day_idx "network_locked_reward";
  prev_network_locked_pledge ← iloc_prev df day_idx "network_locked_pledge";
  prev_network_locked ← iloc_prev df day_idx "network_locked";
  prev_circ_supply ← iloc_prev df day_idx "circ_supply";
  '(pledge_delta, day_locked_pledge, day_renewed_pledge) ←
    circ_supply_loop day_idx current_date (row_prev df day_idx)
      day_network_reward prev_circ_supply network_QAP network_baseline
      agents (0%Q, 0%Q, 0%Q);
  let day_locked_rewards := compute_day_locked_rewards day_network_reward in
  let day_reward_release := compute_day_reward_release prev_network_locked_reward in
  let reward_delta := (day_locked_rewards - day_reward_release)%Q in
  df ← set_loc df day_idx "pledge_delta" pledge_delta;
  df ← set_loc df day_idx "reward_delta" reward_delta;
  df ← set_loc df day_idx "day_locked_pledge" day_locked_pledge;
  df ← set_loc df day_idx "day_renewed_pledge" day_renewed_pledge;
  df ← set_loc df day_idx "network_locked_pledge"
         (prev_network_locked_pledge + pledge_delta);
  df ← set_loc df day_idx "network_locked_reward"
         (prev_network_locked_reward + reward_delta);
  df ← set_loc df day_idx "network_locked"
         (prev_network_locked + pledge_delta + reward_delta);
  gas ← loc df day_idx "network_gas_burn";
  df ← (if Qeq_bool gas 0 then
          prev_gas ← iloc_prev df day_idx "network_gas_burn";
          set_loc df day_idx "network_gas_burn" (prev_gas + daily_burnt_fil)
        else Some df);
  disbursed_reserve ← iloc df day_idx "disbursed_reserve";
  cum_network_reward ← iloc df day_idx "cum_network_reward";
  total_vest ← iloc df day_idx "total_vest";
  network_locked ← iloc df day_idx "network_locked";
  network_gas_burn ← iloc df day_idx "network_gas_burn";
  burn_from_terminations ← iloc df day_idx "burn_from_terminations";
  let circ_supply :=
    (disbursed_reserve + cum_network_reward + total_vest
     - network_locked - network_gas_burn - burn_from_terminations)%Q in
  set_loc df day_idx "circ_supply" (py_max circ_supply 0).

(** *** [_update_generated_quantities] *)

Definition _update_generated_quantities (df : DataFrame) (day_idx : nat)
  : option DataFrame :=
  guard (day_idx < nrows df)%nat;;
  day_locked_pledge ← loc df day_idx "day_locked_pledge";
  day_renewed_pledge ← loc df day_idx "day_renewed_pledge";
  day_onboarded_qap_pib ← loc df day_idx "day_onboarded_qap_pib";
  let day_onboarded_power_QAP := py_max (day_onboarded_qap_pib * PIB) MIN_VALUE in
  df ← set_loc df day_idx "day_pledge_per_QAP"
         (SECTOR_SIZE * (day_locked_pledge - day_renewed_pledge) / day_onboarded_power_QAP);
  day_network_reward ← iloc df day_idx "day_network_reward";
  total_qa_power_eib ← iloc df day_idx "total_qa_power_eib";
  let network_QAP := py_max (total_qa_power_eib * EIB) MIN_VALUE in
  set_loc df day_idx "day_rewards_per_sector"
    (SECTOR_SIZE * day_network_reward / network_QAP).

(** *** [_get_agent_power_proportion] *)

(** Python's builtin [sum]: a left fold from [0]. *)
Definition py_sum (l : list Q) : Q := fold_left Qplus l 0%Q.

(** The body of the loop: [min(total_agent_qap/total_network_qap, 1.0)] on
    float64 values. *)
Definition agent_power_proportion (date_in : nat) (total_network_qap : float64)
    (agent : Agent) : float64 :=
  let total_agent_qap :=
    Finite (fl (get_active_qa_power_at_date agent date_in * PIB)) in
  min_one (np_divide total_agent_qap total_network_qap).

(** Neither division raises: with a zero network total or with no power at
    all the shares are infinities or NaN. *)
Definition _get_agent_power_proportion (df : DataFrame) (agents : list Agent)
    (day_idx : nat) : option (list float64 * gmap nat float64) :=
  date_in ← iloc_date df day_idx;
  total_qa_power_eib ← iloc df day_idx "total_qa_power_eib";
  let total_network_qap := Finite (fl (total_qa_power_eib * EIB)) in
  let agent_power_proportion_vec :=
    agent_power_proportion date_in total_network_qap <$> agents in
  let total := np_sum agent_power_proportion_vec in
  let agent_power_proportion_vec :=
    (λ p, np_divide p total) <$> agent_power_proportion_vec in
  let agentid2power_proportion :=
    fold_left (λ (m : gmap nat float64) iv, <[iv.1 := iv.2]> m)
      (zip (unique_id <$> agents) agent_power_proportion_vec) ∅ in
  Some (agent_power_proportion_vec, agentid2power_proportion).

(** *** [_update_agents] *)

(** [df.loc[a:b, c] += v]: a label slice includes both ends and is cut at
    the last row of the frame without an error. *)
Definition add_slice (df : DataFrame) (a b : nat) (c : string) (v : Q) : DataFrame :=
  mkDataFrame (nrows df)
    (foldr (λ i m, alter (λ old, (old + v)%Q) (c, i) m) (cells df)
       (seq a (Nat.min (S b) (nrows df) - a))).

(** The body of the loop over agents.  [agent.post_global_step()] is [pass]
    in the agent classes of the sources. *)
Definition update_agent (date_in : nat) (total_day_rewards : Q)
    (agent : Agent) (agent_reward_ratio : Q) : option Agent :=
  let agent_reward := (total_day_rewards * agent_reward_ratio)%Q in
  let agent_accounting_df := accounting_df agent in
  accounting_df_idx ← index_of_date agent_accounting_df date_in;
  acc ← add_loc agent_accounting_df accounting_df_idx "reward_FIL" (agent_reward * 0.25);
  let acc := add_slice acc (accounting_df_idx + 1) (accounting_df_idx + 180)
               "reward_FIL" ((agent_reward * 0.75) / 180) in
  acc ← add_loc acc accounting_df_idx "full_reward_for_power_FIL" agent_reward;
  Some (with_accounting agent acc).

(** A share that is not a number would make the agent's rewards NaN or
    infinite; the cells of a frame hold rationals, so such a day has no
    result here. *)
Definition _update_agents (df : DataFrame) (agents : list Agent) (day_idx : nat)
  : option (list Agent) :=
  date_in ← iloc_date df day_idx;
  total_day_rewards ← iloc df day_idx "day_network_reward";
  '(agent_reward_ratio_vec, _) ← _get_agent_power_proportion df agents day_idx;
  mapM (λ av, agent_reward_ratio ← finite av.2;
              update_agent date_in total_day_rewards av.1 agent_reward_ratio)
    (zip agents agent_reward_ratio_vec).

(** *** [_zero_agent_rewards] *)

(** [df[c] = v]: every row of the column, created if need be. *)
Definition set_column (df : DataFrame) (c : string) (v : Q) : DataFrame :=
  mkDataFrame (nrows df)
    (foldr (λ i m, <[(c, i) := v]> m) (cells df) (seq 0 (nrows df))).

Definition _zero_agent_rewards (agents : list Agent) : list Agent :=
  (λ agent, with_accounting agent (set_column (accounting_df agent) "reward_FIL" 0.0))
    <$> agents.

(** *** [estimate_pledge_for_qa_power] *)

Definition estimate_pledge_for_qa_power (df : DataFrame) (date_in : nat)
    (qa_power_pib : Q) : option Q :=
  filecoin_df_idx ← index_of_date df date_in;
  prev_circ_supply ← loc_prev df filecoin_df_idx "circ_supply";
  prev_total_qa_power_eib ← loc_prev df filecoin_df_idx "total_qa_power_eib";
  let prev_total_qa_power_pib := (prev_total_qa_power_eib * 1024.0)%Q in
  prev_network_baseline ← loc_prev df filecoin_df_idx "network_baseline";
  let prev_baseline_power_pib := (prev_network_baseline / PIB)%Q in
  prev_day_network_reward ← loc_prev df filecoin_df_idx "day_network_reward";
  if Qeq_bool qa_power_pib 0 then
    prev_rate ← loc_prev df filecoin_df_idx "day_pledge_per_QAP";
    Some (prev_rate * (qa_power_pib / SECTOR_SIZE))%Q
  else
    let pledge_onboard_ratio_callable_kwargs :=
      pledge_onboard_ratio_callable_kwargs_fn date_in
        (row_prev df filecoin_df_idx) lock_target in
    Some (compute_new_pledge_for_added_power
            prev_day_network_reward prev_circ_supply
            (qa_power_pib * PIB) (prev_total_qa_power_pib * PIB)
            (prev_baseline_power_pib * PIB) lock_target
            pledge_onboard_ratio_callable pledge_onboard_ratio_callable_kwargs).

(** *** [_fast_forward_to_simulation_start]: initialising the circulating supply

    The part of the method after the historical power has been merged into
    [filecoin_df].  [supply_df] is the table returned by
    [data.query_supply_stats], one row per date. *)

Record SupplyStats := mkSupplyStats {
  supply_date : list nat;
  locked_fil : list Q;
  circulating_fil : list Q;
  burnt_fil : list Q
}.

(** [series.diff()] without its leading NaN, and [series.mean()]. *)
Fixpoint diff (l : list Q) : list Q :=
  match l with
  | x :: (y :: _) as t => (y - x)%Q :: diff t
  | _ => []
  end.

Definition mean (l : list Q) : option Q :=
  fdiv (py_sum l) (inject_Z (Z.of_nat (length l))).

(** [df.loc[a:b, c] = values]: the slice and the values must agree in
    length. *)
Definition set_slice_values (df : DataFrame) (a b : nat) (c : string)
    (values : list Q) : option DataFrame :=
  let rows := seq a (Nat.min (S b) (nrows df) - a) in
  guard (length rows = length values);;
  Some (mkDataFrame (nrows df)
          (foldr (λ iv m, <[(c, iv.1) := iv.2]> m) (cells df) (zip rows values))).

(** [df.loc[a:b, c] = expr] for a row-wise expression over columns of
    [df]; a row where the expression is NaN holds no value. *)
Definition set_slice_with (df : DataFrame) (a b : nat) (c : string)
    (expr : nat → option Q) : DataFrame :=
  mkDataFrame (nrows df)
    (foldr (λ i m, match expr i with
                   | Some v => <[(c, i) := v]> m
                   | None => delete (c, i) m
                   end)
       (cells df) (seq a (Nat.min (S b) (nrows df) - a))).

Definition bootstrap_day (daily_burnt_fil : Q) (st : DataFrame * list Agent)
    (day_idx : nat) : option (DataFrame * list Agent) :=
  let '(df, agents) := st in
  date_in ← iloc_date df day_idx;
  '(df, agents) ← _update_sched_expire_pledge df agents date_in false;
  df ← _update_circulating_supply daily_burnt_fil df agents day_idx;
  df ← _update_generated_quantities df day_idx;
  agents ← _update_agents df agents day_idx;
  Some (df, agents).

(** [for day_idx in range(...)] over the bootstrap days. *)
Fixpoint bootstrap_loop (daily_burnt_fil : Q) (st : DataFrame * list Agent)
    (days : list nat) : option (DataFrame * list Agent) :=
  match days with
  | [] => Some st
  | day_idx :: rest =>
      st ← bootstrap_day daily_burnt_fil st day_idx;
      bootstrap_loop daily_burnt_fil st rest
  end.

Definition disbursed_reserve_value : Q :=
  (inject_Z 17066618961773411890063046 * (1 # 10 ^ 18))%Q.

Definition _fast_forward_supply (compute_cs_from_networkdatastart use_historical_gas : bool)
    (supply_df : SupplyStats) (final_historical_data_idx : nat)
    (df : DataFrame) (agents : list Agent)
  : option (DataFrame * list Agent * Q) :=
  first_date ← head (supply_date supply_df);
  last_date ← last (supply_date supply_df);
  start_idx ← index_of_date df first_date;
  end_idx ← index_of_date df last_date;
  let df := set_column df "disbursed_reserve" disbursed_reserve_value in
  let df := set_column df "network_gas_burn" 0 in
  let df := set_column df "day_locked_pledge" 0 in
  let df := set_column df "day_renewed_pledge" 0 in
  let df := set_column df "network_locked_pledge" 0 in
  let df := set_column df "network_locked_reward" 0 in
  let df := set_column df "original_pledge" 0 in
  let df := set_column df "renewal_rate" 0 in
  daily_burnt_fil ← mean (diff (burnt_fil supply_df));
  if compute_cs_from_networkdatastart then
    df ← (if use_historical_gas
          then set_slice_values df start_idx end_idx "network_gas_burn" (burnt_fil supply_df)
          else Some df);
    locked_fil_zero ← locked_fil supply_df !! start_idx;
    df ← set_loc df start_idx "network_locked_pledge" (locked_fil_zero / 2.0);
    df ← set_loc df start_idx "network_locked_reward" (locked_fil_zero / 2.0);
    df ← set_loc df start_idx "network_locked" locked_fil_zero;
    circulating_fil_zero ← circulating_fil supply_df !! start_idx;
    df ← set_loc df start_idx "circ_supply" circulating_fil_zero;
    guard (start_idx + 1 < nrows df)%nat;;
    '(df, agents) ← bootstrap_loop daily_burnt_fil (df, agents)
                      (seq (start_idx + 1) (end_idx - (start_idx + 1)));
    guard (1 ≤ end_idx)%nat;;
    Some (df, agents, daily_burnt_fil)
  else
    df ← set_slice_values df start_idx end_idx "network_locked" (locked_fil supply_df);
    df ← set_slice_values df start_idx end_idx "network_gas_burn" (burnt_fil supply_df);
    let df := set_slice_with df start_idx end_idx "circ_supply" (λ i,
                disbursed_reserve ← loc df i "disbursed_reserve";
                cum_network_reward ← loc df i "cum_network_reward";
                total_vest ← loc df i "total_vest";
                network_locked ← loc df i "network_locked";
                network_gas_burn ← loc df i "network_gas_burn";
                Some (disbursed_reserve + cum_network_reward + total_vest
                      - network_locked - network_gas_burn)%Q) in
    locked_fil_zero ← loc df final_historical_data_idx "network_locked";
    df ← set_loc df (final_historical_data_idx + 1) "network_locked_pledge" (locked_fil_zero / 2.0);
    df ← set_loc df (final_historical_data_idx + 1) "network_locked_reward" (locked_fil_zero / 2.0);
    df ← set_loc df (final_historical_data_idx + 1) "network_locked" locked_fil_zero;
    Some (df, agents, daily_burnt_fil).

(** *** [__init__]: from the bootstrap to the zeroing of rewards

    [self._fast_forward_to_simulation_start()] followed by
    [self._zero_agent_rewards()], on agents already seeded. *)
Definition init_bootstrap (compute_cs_from_networkdatastart use_historical_gas : bool)
    (supply_df : SupplyStats) (final_historical_data_idx : nat)
    (df : DataFrame) (agents : list Agent)
  : option (DataFrame * list Agent * Q) :=
  '(df, agents, daily_burnt_fil) ←
    _fast_forward_supply compute_cs_from_networkdatastart use_historical_gas
      supply_df final_historical_data_idx df agents;
  Some (df, _zero_agent_rewards agents, daily_burnt_fil).

End Model.

(** ** Vocabulary of the statements *)

(** Every cell outside [K] holds in [df'] what it holds in [df], and the
    frame has kept its rows. *)
Definition unchanged_outside (K : list (string * nat)) (df df' : DataFrame) : Prop :=
  nrows df' = nrows df ∧ ∀ c i, (c, i) ∉ K → loc df' i c = loc df i c.

(** The cells of an accounting table that a deferred release may write. *)
Definition release_cells (update_filecoin_df : bool) (n release_idx : nat)
    (agent_column : string) : list (string * nat) :=
  if decide (release_idx < n)%nat then
    if update_filecoin_df
    then [(agent_column, release_idx); ("scheduled_pledge_release", release_idx)]
    else []
  else [].

(** The cell of the network frame that a deferred release may write. *)
Definition network_release_cells (update_filecoin_df : bool) (n release_idx : nat)
  : list (string * nat) :=
  if decide (release_idx < n)%nat then
    if update_filecoin_df then [("scheduled_pledge_release", release_idx)] else []
  else [].

(** The renewal ratio of an agent on a date. *)
Definition agent_rr_at (date_in : nat) (agent : Agent) : option Q :=
  agent_renewal_ratio
    (extended_qa_pib (get_power_at_date agent date_in) * PIB)
    (sched_expire_qa_pib (get_power_at_date agent date_in) * PIB).

(** [agent'] is [agent] after one turn of the loop of
    [_update_sched_expire_pledge] against some network frame of [n] rows. *)
Definition sched_expire_turn `{!Environment} (n date_in day_idx : nat)
    (update_filecoin_df : bool) (agent agent' : Agent) : Prop :=
  ∃ total_qa baseline_power day_network_reward prev_circ_supply df df' rr rr',
    nrows df = n ∧
    sched_expire_agent date_in day_idx update_filecoin_df
      total_qa baseline_power day_network_reward prev_circ_supply df agent rr
    = Some (df', agent', rr').

(** The cells of the network frame that the loop over [agents] may write. *)
Definition network_cells_written (update_filecoin_df : bool) (n date_in day_idx : nat)
    (agents : list Agent) : list (string * nat) :=
  flat_map (λ agent,
    let stats := get_power_at_date agent date_in in
    (network_release_cells update_filecoin_df n (day_idx + day_onboarded_qa_duration stats)
     ++ network_release_cells update_filecoin_df n (day_idx + extended_qa_duration stats)
     ++ [("original_pledge", day_idx)])%list) agents.

(** The three rules of the renewal ratio, for a ratio [r] computed from
    renewed and scheduled-to-expire quality-adjusted power. *)
Definition renewal_ratio_rules (renewed se r : Q) : Prop :=
  ((0 <= r)%Q ∧ (r <= 1)%Q) ∧
  ((se == 0)%Q → (0 < renewed)%Q → r = 1%Q) ∧
  ((se < 0)%Q ∨ (renewed == 0)%Q → r = 0%Q) ∧
  ((0 < se)%Q → ¬ (renewed == 0)%Q → (r == np_clip (renewed / se) 0 1)%Q).

(** The onboarding (resp. renewal) of [agent] on [date_in] would be released
    on a day that is not a row of a frame of [n] rows. *)
Definition onboard_release_beyond (n date_in day_idx : nat) (agent : Agent) : Prop :=
  (n ≤ day_idx + day_onboarded_qa_duration (get_power_at_date agent date_in))%nat.

Definition renew_release_beyond (n date_in day_idx : nat) (agent : Agent) : Prop :=
  (n ≤ day_idx + extended_qa_duration (get_power_at_date agent date_in))%nat.

(** The previous total (EiB) plus the day's onboarded and renewed power less
    the scheduled expirations and terminations (PiB). *)
Definition power_balance (prev onboarded renewed sched_expire terminated : Q) : Q :=
  (prev + (onboarded + renewed - sched_expire - terminated) / 1024)%Q.

(** A run returned a result. *)
Definition succeeded {A} (o : option A) : bool :=
  match o with Some _ => true | None => false end.

(** Crediting the reward [R] on day [d] turned the accounting table [acc]
    into [acc']: a quarter of [R] is added to [reward_FIL] on day [d], a
    180th of the other three quarters on each row of the table among the 180
    days that follow, and the column is otherwise as it was; the table keeps
    its rows. *)
Definition vesting_credited (d : nat) (R : Q) (acc acc' : DataFrame) : Prop :=
  (d < nrows acc)%nat ∧
  nrows acc' = nrows acc ∧
  (∃ old, loc acc d "reward_FIL" = Some old ∧
          loc acc' d "reward_FIL" = Some (old + R * 0.25)%Q) ∧
  (∀ i, (d < i ≤ d + 180)%nat → (i < nrows acc)%nat →
        loc acc' i "reward_FIL"
        = (λ old, (old + (R * 0.75) / 180)%Q) <$> loc acc i "reward_FIL") ∧
  (∀ i, (i < d ∨ d + 180 < i ∨ nrows acc ≤ i)%nat →
        loc acc' i "reward_FIL" = loc acc i "reward_FIL").

(** The sum of the agents' live quality-adjusted power on a date. *)
Definition active_qa_total (date_in : nat) (agents : list Agent) : Q :=
  py_sum (map (λ agent, get_active_qa_power_at_date agent date_in) agents).

(** [x] is [y] up to a factor between [lo] and [hi]. *)
Definition within (lo hi x y : Q) : Prop := (lo * y <= x)%Q ∧ (x <= hi * y)%Q.

(** [np_sum] on numbers: every addition rounds. *)
Definition float_sum (l : list Q) : Q := fold_left (λ a b, fl (a + b)%Q) l 0%Q.

(** The capped proportion of an agent, as a number, for a network total
    [t] that is not zero. *)
Definition capped_proportion (date_in : nat) (t : Q) (agent : Agent) : Q :=
  let x := fl (fl (get_active_qa_power_at_date agent date_in * PIB) / t) in
  if Qlt_le_dec 1 x then 1%Q else x.

(** The tolerance of the normalisation, [1e-9]. *)
Definition share_tolerance : Q := 1 # 10 ^ 9.

(** [agent'] is [agent] with another content of its ledger: the same
    identity and the same rows. *)
Definition same_ledger_rows (agent agent' : Agent) : Prop :=
  unique_id agent' = unique_id agent ∧
  nrows (accounting_df agent') = nrows (accounting_df agent).

(** * The rest of the daily update *)

(** ** Minting

    [minting.network_time] and [minting.cum_baseline_reward] belong to the
    [mechafil] library; the model is parametric in them. *)

Class MintingCurves := {
  network_time : Q → Q;
  cum_baseline_reward : Q → Q
}.

Section Step.

Context `{!Environment} `{!MintingCurves}.

(** *** [_update_minting] *)

Definition _update_minting (df : DataFrame) (day_idx : nat) : option DataFrame :=
  baseline_pwr ← loc df day_idx "network_baseline";
  total_raw_power_eib ← loc df day_idx "total_raw_power_eib";
  let capped_power := py_min (EIB * total_raw_power_eib) baseline_pwr in
  prev_cum_capped_power ← loc_prev df day_idx "cum_capped_power";
  let cum_capped_power := (capped_power + prev_cum_capped_power)%Q in
  df ← set_loc df day_idx "capped_power" capped_power;
  df ← set_loc df day_idx "cum_capped_power" cum_capped_power;
  let network_time := network_time cum_capped_power in
  df ← set_loc df day_idx "network_time" network_time;
  let cum_baseline_reward := cum_baseline_reward network_time in
  df ← set_loc df day_idx "cum_baseline_reward" cum_baseline_reward;
  cum_simple_reward ← loc df day_idx "cum_simple_reward";
  let cum_network_reward := (cum_baseline_reward + cum_simple_reward)%Q in
  df ← set_loc df day_idx "cum_network_reward" cum_network_reward;
  prev_cum_network_reward ← loc_prev df day_idx "cum_network_reward";
  df ← set_loc df day_idx "day_network_reward"
         (cum_network_reward - prev_cum_network_reward);
  cum_simple_reward ← loc df day_idx "cum_simple_reward";
  prev_cum_simple_reward ← loc_prev df day_idx "cum_simple_reward";
  set_loc df day_idx "day_simple_reward" (cum_simple_reward - prev_cum_simple_reward).

(** *** [_aggregate_terminations] *)

Fixpoint aggregate_terminations_loop (date_in day_idx : nat) (df : DataFrame)
    (agents : list Agent) : option DataFrame :=
  match agents with
  | [] => Some df
  | agent :: rest =>
      agent_df_idx ← index_of_date (accounting_df agent) date_in;
      burned ← loc (accounting_df agent) agent_df_idx "termination_burned_FIL";
      df ← add_loc df day_idx "burn_from_terminations" burned;
      aggregate_terminations_loop date_in day_idx df rest
  end.

Definition _aggregate_terminations (df : DataFrame) (agents : list Agent)
    (day_idx : nat) : option DataFrame :=
  date_in ← iloc_date df day_idx;
  aggregate_terminations_loop date_in day_idx df agents.

(** *** [_release_pledge] *)



(** *** [step]: the network updates of a day

    The part of [step] that follows the agents' decisions
    ([self.schedule.step()]), without user callables; the date and the day
    index advance together. *)
Definition network_step (daily_burnt_fil : Q) (df : DataFrame)
    (agents : list Agent) (current_day : nat)
  : option (DataFrame * list Agent * nat) :=
  let current_date := current_day in
  let day_macro_info := _compute_macro agents current_date in
  df ← _update_power_metrics df day_macro_info current_day;
  df ← _update_minting df current_day;
  df ← _aggregate_terminations df agents current_day;
  '(df, agents) ← _update_sched_expire_pledge df agents current_date true;
  df ← _update_circulating_supply daily_burnt_fil df agents current_day;
  df ← _update_generated_quantities df current_day;
  agents ← _update_agents df agents current_day;
  Some (df, agents, (current_day + 1)%nat).

End Step.

(** ** agents/roi_agent.py: onboarding from the estimated ROI *)

Definition linear (x1 y1 x2 y2 x : Q) : option Q :=
  m ← fdiv (y2 - y1) (x2 - x1);
  let b := (y1 - m * x1)%Q in
  Some (m * x + b)%Q.

Record ROIAgentDynamicOnboard := mkROIAgentDynamicOnboard {
  min_daily_rb_onboard_pib : Q;
  max_daily_rb_onboard_pib : Q;
  min_renewal_rate : Q;
  max_renewal_rate : Q;
  min_roi : Q;
  max_roi : Q
}.

Definition convert_roi_to_onboard (self : ROIAgentDynamicOnboard)
    (estimated_roi : Q) : option (Q * Q) :=
  rb_to_onboard ← linear (min_roi self) (min_daily_rb_onboard_pib self)
                     (max_roi self) (max_daily_rb_onboard_pib self) estimated_roi;
  renew_pct ← linear (min_roi self) (min_renewal_rate self)
                 (max_roi self) (max_renewal_rate self) estimated_roi;
  Some (rb_to_onboard, renew_pct).

(** The clipping of [ROIAgentDynamicOnboard.step]:
    [max(min(rb_to_onboard, max), min)]. *)
Definition clipped_onboard (self : ROIAgentDynamicOnboard) (estimated_roi : Q)
  : option (Q * Q) :=
  '(rb_to_onboard, renewal_rate) ← convert_roi_to_onboard self estimated_roi;
  let rb_to_onboard :=
    py_max (py_min rb_to_onboard (max_daily_rb_onboard_pib self))
      (min_daily_rb_onboard_pib self) in
  let renewal_rate :=
    py_max (py_min renewal_rate (max_renewal_rate self)) (min_renewal_rate self) in
  Some (rb_to_onboard, renewal_rate).

(** ** Vocabulary of the further statements *)


(** No cell of a row before [day] differs between [df] and [df']. *)
Definition past_unchanged (day : nat) (df df' : DataFrame) : Prop :=
  nrows df' = nrows df ∧ ∀ c i, (i < day)%nat → loc df' i c = loc df i c.

(** Every cell of [K] is on row [day] or later. *)
Definition cells_from (day : nat) (K : list (string * nat)) : Prop :=
  Forall (λ k, (day ≤ k.2)%nat) K.


(** ** Concrete ledgers used by the examples

    A network frame of four days, two agents holding 70% and 30% of the
    quality-adjusted power, and stand-ins for the collaborators: the pledge
    is the consensus term [lock_target * circ_supply * added / max(total,
    baseline)], block rewards lock 75% and release 1/180 per day. *)

Definition example_env : Environment := {|
  OnboardRatio := unit;
  Kwargs := unit;
  compute_new_pledge_for_added_power :=
    λ _ prev_circ_supply added total baseline lock _ _,
      (lock * prev_circ_supply * added / py_max total baseline)%Q;
  compute_day_delta_pledge :=
    λ _ prev_circ_supply onboarded renewed total baseline rr sched_release lock _ _,
      (lock * prev_circ_supply * onboarded / py_max total baseline
       + py_max (sched_release * rr)
           (lock * prev_circ_supply * renewed / py_max total baseline)
       - sched_release)%Q;
  compute_day_locked_rewards := λ reward, (0.75 * reward)%Q;
  compute_day_reward_release := λ locked, (locked / 180)%Q;
  pledge_onboard_ratio_callable := tt;
  pledge_onboard_ratio_callable_kwargs_fn := λ _ _ _, tt;
  lock_target := 0.3%Q
|}.

Definition zeros4 : list Q := [0; 0; 0; 0]%Q.

Definition example_net : DataFrame :=
  frame_of 4
    [("total_qa_power_eib", [10; 10; 10; 10]%Q);
     ("total_raw_power_eib", [5; 5; 5; 5]%Q);
     ("network_baseline", [8 * EIB; 8 * EIB; 8 * EIB; 8 * EIB]%Q);
     ("day_network_reward", [100; 100; 100; 100]%Q);
     ("cum_network_reward", [1000; 1100; 1200; 1300]%Q);
     ("circ_supply", [1000; 1000; 1000; 1000]%Q);
     ("scheduled_pledge_release", zeros4);
     ("original_pledge", zeros4);
     ("network_locked", [400; 0; 0; 0]%Q);
     ("network_locked_pledge", [200; 0; 0; 0]%Q);
     ("network_locked_reward", [200; 0; 0; 0]%Q);
     ("network_gas_burn", [30; 0; 0; 0]%Q);
     ("disbursed_reserve", [17; 17; 17; 17]%Q);
     ("total_vest", [500; 510; 520; 530]%Q);
     ("burn_from_terminations", zeros4);
     ("day_onboarded_qap_pib", [3; 3; 3; 3]%Q);
     ("day_pledge_per_QAP", [0.2; 0.2; 0.2; 0.2]%Q)].

Definition example_accounting (scheduled_release : list Q) : DataFrame :=
  frame_of 4
    [("scheduled_pledge_release", scheduled_release);
     ("onboard_pledge_FIL", zeros4);
     ("renew_pledge_FIL", zeros4);
     ("onboard_scheduled_pledge_release_FIL", zeros4);
     ("renew_scheduled_pledge_release_FIL", zeros4);
     ("reward_FIL", zeros4);
     ("full_reward_for_power_FIL", zeros4);
     ("termination_burned_FIL", zeros4)].

(** Onboards 2 PiB for 2 days, renews half of the 2 PiB due: the renewal
    would be released after the last row. *)
Definition example_stats_1 : PowerStats :=
  mkPowerStats 1 2 1 1 2 2 0 0 2 5.

(** Onboards 1 PiB for 7 days (beyond the last row), renews half of 4 PiB
    for one day. *)
Definition example_stats_2 : PowerStats :=
  mkPowerStats 1 1 2 2 4 4 0 0 7 1.

Definition example_agent_1 : Agent :=
  mkAgent 0 (λ _, example_stats_1) (λ _, 7168%Q)
    (example_accounting [0; 50; 0; 0]%Q).

Definition example_agent_2 : Agent :=
  mkAgent 1 (λ _, example_stats_2) (λ _, 3072%Q)
    (example_accounting [0; 80; 0; 0]%Q).

Definition example_agents : list Agent := [example_agent_1; example_agent_2].

(** An agent whose whole raw power, 5 EiB = 5120 PiB, and quality-adjusted
    power, 10 EiB, are scheduled to expire on the same day. *)
Definition example_agent_expiring : Agent :=
  mkAgent 2 (λ _, mkPowerStats 0 0 0 0 5120 10240 0 0 0 0) (λ _, 0%Q)
    (example_accounting zeros4).

(** Supply statistics for the four days of the example frame, and for its
    first three days. *)
Definition example_supply : SupplyStats :=
  mkSupplyStats [0; 1; 2; 3]%nat [400; 410; 420; 430]%Q
    [1000; 1010; 1020; 1030]%Q [30; 31; 32; 33]%Q.


(** A network of 1 EiB of quality-adjusted power and two agents whose live
    power is recorded as 2 EiB and 1 EiB. *)
Definition example_net_drifted : DataFrame :=
  frame_of 1 [("total_qa_power_eib", [1]%Q); ("day_network_reward", [90]%Q)].

Definition example_agents_drifted : list Agent :=
  [mkAgent 0 (λ _, example_stats_1) (λ _, 2048%Q) (example_accounting zeros4);
   mkAgent 1 (λ _, example_stats_2) (λ _, 1024%Q) (example_accounting zeros4)].

(** ** Further example ledgers *)

(** Stand-ins for the minting curves of [mechafil]: a network time
    proportional to the cumulative capped power and a baseline reward
    proportional to the network time. *)
Definition example_curves : MintingCurves := {|
  network_time := λ cum_capped_power, (cum_capped_power / (8 * EIB))%Q;
  cum_baseline_reward := λ network_time, (100 * network_time)%Q
|}.

(** The example frame with the two columns that minting reads besides. *)
Definition example_net_minting : DataFrame :=
  frame_of 4
    [("total_qa_power_eib", [10; 10; 10; 10]%Q);
     ("total_raw_power_eib", [5; 5; 5; 5]%Q);
     ("network_baseline", [8 * EIB; 8 * EIB; 8 * EIB; 8 * EIB]%Q);
     ("day_network_reward", [100; 100; 100; 100]%Q);
     ("cum_network_reward", [1000; 1100; 1200; 1300]%Q);
     ("cum_capped_power", [5 * EIB; 0; 0; 0]%Q);
     ("cum_simple_reward", [900; 1000; 1100; 1200]%Q);
     ("circ_supply", [1000; 1000; 1000; 1000]%Q);
     ("scheduled_pledge_release", zeros4);
     ("original_pledge", zeros4);
     ("network_locked", [400; 0; 0; 0]%Q);
     ("network_locked_pledge", [200; 0; 0; 0]%Q);
     ("network_locked_reward", [200; 0; 0; 0]%Q);
     ("network_gas_burn", [30; 0; 0; 0]%Q);
     ("disbursed_reserve", [17; 17; 17; 17]%Q);
     ("total_vest", [500; 510; 520; 530]%Q);
     ("burn_from_terminations", [0; 4; 0; 0]%Q);
     ("day_onboarded_qap_pib", [3; 3; 3; 3]%Q);
     ("day_pledge_per_QAP", [0.2; 0.2; 0.2; 0.2]%Q)].

(** Two agents whose terminations burn 5 and 7 FIL on day 1. *)
Definition example_agents_burning : list Agent :=
  [mkAgent 0 (λ _, example_stats_1) (λ _, 7168%Q)
     (frame_of 4 [("termination_burned_FIL", [0; 5; 0; 0]%Q)]);
   mkAgent 1 (λ _, example_stats_2) (λ _, 3072%Q)
     (frame_of 4 [("termination_burned_FIL", [0; 7; 0; 0]%Q)])].



(** The agent of [ROIAgentDynamicOnboard] with the defaults of its
    constructor. *)
Definition example_roi_agent : ROIAgentDynamicOnboard :=
  mkROIAgentDynamicOnboard 3 12 0.3 0.8 0.1 0.3.

(** Three agents holding 1, 2 and 3 PiB of quality-adjusted power. *)
Definition example_agents_123 : list Agent :=
  [mkAgent 0 (λ _, example_stats_1) (λ _, 1%Q) (example_accounting zeros4);
   mkAgent 1 (λ _, example_stats_1) (λ _, 2%Q) (example_accounting zeros4);
   mkAgent 2 (λ _, example_stats_1) (λ _, 3%Q) (example_accounting zeros4)].

(** Two agents without any live power. *)
Definition example_agents_idle : list Agent :=
  [mkAgent 0 (λ _, example_stats_1) (λ _, 0%Q) (example_accounting zeros4);
   mkAgent 1 (λ _, example_stats_2) (λ _, 0%Q) (example_accounting zeros4)].

(** * Properties *)

(** ** Numeric builtins *)

Lemma py_max_cases (a b : Q) :
  ((a < b)%Q ∧ py_max a b = b) ∨ ((b <= a)%Q ∧ py_max a b = a).
Proof. unfold py_max. destruct (Qlt_le_dec a b); auto. Qed.

Lemma py_min_cases (a b : Q) :
  ((b < a)%Q ∧ py_min a b = b) ∨ ((a <= b)%Q ∧ py_min a b = a).
Proof. unfold py_min. destruct (Qlt_le_dec b a); auto. Qed.

Lemma py_max_ge_l (a b : Q) : (a <= py_max a b)%Q.
Proof. destruct (py_max_cases a b) as [[? ->]|[? ->]]; lra. Qed.

Lemma py_max_ge_r (a b : Q) : (b <= py_max a b)%Q.
Proof. destruct (py_max_cases a b) as [[? ->]|[? ->]]; lra. Qed.

Lemma py_min_le_l (a b : Q) : (py_min a b <= a)%Q.
Proof. destruct (py_min_cases a b) as [[? ->]|[? ->]]; lra. Qed.

Lemma py_min_le_r (a b : Q) : (py_min a b <= b)%Q.
Proof. destruct (py_min_cases a b) as [[? ->]|[? ->]]; lra. Qed.

Lemma np_clip_bounds (x lo hi : Q) :
  (lo <= hi)%Q → (lo <= np_clip x lo hi)%Q ∧ (np_clip x lo hi <= hi)%Q.
Proof.
  intros Hlh. unfold np_clip.
  pose proof (py_max_ge_r x lo).
  destruct (py_min_cases (py_max x lo) hi) as [[? ->]|[? ->]]; lra.
Qed.

Lemma np_clip_inside (x lo hi : Q) :
  (lo <= x)%Q → (x <= hi)%Q → np_clip x lo hi = x.
Proof.
  intros H1 H2. unfold np_clip.
  destruct (py_max_cases x lo) as [[? ->]|[? ->]]; [lra|].
  destruct (py_min_cases x hi) as [[? ->]|[? ->]]; [lra|done].
Qed.

Lemma py_max_proper (a a' b b' : Q) :
  (a == a')%Q → (b == b')%Q → (py_max a b == py_max a' b')%Q.
Proof.
  intros Ha Hb.
  destruct (py_max_cases a b) as [[? ->]|[? ->]],
           (py_max_cases a' b') as [[? ->]|[? ->]]; lra.
Qed.

Lemma py_min_proper (a a' b b' : Q) :
  (a == a')%Q → (b == b')%Q → (py_min a b == py_min a' b')%Q.
Proof.
  intros Ha Hb.
  destruct (py_min_cases a b) as [[? ->]|[? ->]],
           (py_min_cases a' b') as [[? ->]|[? ->]]; lra.
Qed.

Lemma np_clip_proper (x x' lo hi : Q) :
  (x == x')%Q → (np_clip x lo hi == np_clip x' lo hi)%Q.
Proof.
  intros Hx. unfold np_clip. apply py_min_proper; [|reflexivity].
  apply py_max_proper; [done|reflexivity].
Qed.

Lemma PIB_pos : (0 < PIB)%Q.
Proof. reflexivity. Qed.

Lemma EIB_pos : (0 < EIB)%Q.
Proof. reflexivity. Qed.

Lemma Qltb_true (x y : Q) : Qltb x y = true ↔ (x < y)%Q.
Proof.
  unfold Qltb. rewrite negb_true_iff. split.
  - intros H. apply Qnot_le_lt. intros Hle. apply Qle_bool_iff in Hle. congruence.
  - intros H. destruct (Qle_bool y x) eqn:E; [|done].
    apply Qle_bool_iff in E. lra.
Qed.

Lemma Qltb_false (x y : Q) : Qltb x y = false ↔ (y <= x)%Q.
Proof.
  unfold Qltb. rewrite negb_false_iff. apply Qle_bool_iff.
Qed.

Lemma Qeq_bool_false (x y : Q) : Qeq_bool x y = false ↔ ¬ (x == y)%Q.
Proof.
  split; [apply Qeq_bool_neq|].
  intros H. destruct (Qeq_bool x y) eqn:E; [|done].
  apply Qeq_bool_iff in E. done.
Qed.

Lemma fdiv_Some (x y r : Q) :
  fdiv x y = Some r ↔ ¬ (y == 0)%Q ∧ r = (x / y)%Q.
Proof.
  unfold fdiv. destruct (Qeq_bool y 0) eqn:E.
  - apply Qeq_bool_iff in E. split; [done|]. intros [? _]. done.
  - apply Qeq_bool_false in E. split.
    + intros [= <-]. done.
    + intros [_ ->]. done.
Qed.

Lemma fdiv_is_Some (x y : Q) : ¬ (y == 0)%Q → fdiv x y = Some (x / y)%Q.
Proof. intros H. by apply fdiv_Some. Qed.

(** ** Renewal ratio *)

Lemma raw_renewal_ratio_cases (renewed se r : Q) :
  raw_renewal_ratio renewed se = Some r →
  ((se == 0)%Q ∧ (0 < renewed)%Q ∧ r = 1%Q) ∨
  (((se < 0)%Q ∨ (renewed == 0)%Q) ∧ r = 0%Q) ∨
  ((0 < se)%Q ∧ ¬ (renewed == 0)%Q ∧ r = (renewed / se)%Q).
Proof.
  unfold raw_renewal_ratio.
  destruct (Qeq_bool se 0) eqn:E1, (Qltb 0 renewed) eqn:E2; simpl.
  - intros [= <-]. left. apply Qeq_bool_iff in E1. apply Qltb_true in E2. done.
  - destruct (Qltb se 0) eqn:E3, (Qeq_bool renewed 0) eqn:E4; simpl.
    + intros [= <-]. right; left. apply Qltb_true in E3. auto.
    + intros [= <-]. right; left. apply Qltb_true in E3. auto.
    + intros [= <-]. right; left. apply Qeq_bool_iff in E4. auto.
    + intros Hd. apply fdiv_Some in Hd as [Hne _].
      apply Qeq_bool_iff in E1. done.
  - destruct (Qltb se 0) eqn:E3; simpl.
    + intros [= <-]. right; left. apply Qltb_true in E3. auto.
    + destruct (Qeq_bool renewed 0) eqn:E4; simpl.
      * intros [= <-]. right; left. apply Qeq_bool_iff in E4. auto.
      * intros Hd. apply fdiv_Some in Hd as [Hne ->].
        right; right. apply Qeq_bool_false in E1, E4. apply Qltb_false in E3.
        split; [|done]. destruct (Qlt_le_dec 0 se); [done|].
        exfalso. apply E1. lra.
  - destruct (Qltb se 0) eqn:E3; simpl.
    + intros [= <-]. right; left. apply Qltb_true in E3. auto.
    + destruct (Qeq_bool renewed 0) eqn:E4; simpl.
      * intros [= <-]. right; left. apply Qeq_bool_iff in E4. auto.
      * intros Hd. apply fdiv_Some in Hd as [Hne ->].
        right; right. apply Qeq_bool_false in E1, E4. apply Qltb_false in E3.
        split; [|done]. destruct (Qlt_le_dec 0 se); [done|].
        exfalso. apply E1. lra.
Qed.

Lemma raw_renewal_ratio_defined (renewed se : Q) :
  (0 <= renewed)%Q → is_Some (raw_renewal_ratio renewed se).
Proof.
  intros Hr. unfold raw_renewal_ratio.
  destruct (Qeq_bool se 0) eqn:E1, (Qltb 0 renewed) eqn:E2; simpl; [by eexists| | |].
  - apply Qltb_false in E2. assert (Qeq_bool renewed 0 = true) as ->.
    { apply Qeq_bool_iff. lra. }
    rewrite orb_true_r. by eexists.
  - destruct (Qltb se 0 || Qeq_bool renewed 0); [by eexists|].
    apply Qeq_bool_false in E1. rewrite fdiv_is_Some by done. by eexists.
  - destruct (Qltb se 0 || Qeq_bool renewed 0); [by eexists|].
    apply Qeq_bool_false in E1. rewrite fdiv_is_Some by done. by eexists.
Qed.

Lemma succeeded_Some {A} (o : option A) : succeeded o = true → ∃ x, o = Some x.
Proof. destruct o as [x|]; [by exists x|discriminate]. Qed.

(** ** Frames *)

Lemma set_loc_Some (df df' : DataFrame) i c v :
  set_loc df i c v = Some df' ↔
  (i < nrows df)%nat ∧ df' = mkDataFrame (nrows df) (<[(c, i) := v]> (cells df)).
Proof.
  unfold set_loc. case_guard; simpl; split.
  - intros [= <-]. done.
  - intros [_ ->]. done.
  - done.
  - intros [? _]. lia.
Qed.

Lemma set_loc_is_Some (df : DataFrame) i c v :
  (i < nrows df)%nat →
  set_loc df i c v = Some (mkDataFrame (nrows df) (<[(c, i) := v]> (cells df))).
Proof. intros. by apply set_loc_Some. Qed.

Lemma add_loc_Some (df df' : DataFrame) i c v :
  add_loc df i c v = Some df' ↔
  ∃ old, loc df i c = Some old ∧ (i < nrows df)%nat ∧
         df' = mkDataFrame (nrows df) (<[(c, i) := (old + v)%Q]> (cells df)).
Proof.
  unfold add_loc. destruct (loc df i c) as [old|] eqn:E; simpl.
  - rewrite set_loc_Some. split.
    + intros [? ->]. eauto.
    + intros (? & [= <-] & ? & ->). done.
  - split; [done|]. intros (? & ? & _). done.
Qed.

Lemma add_loc_alter (df df' : DataFrame) i c v :
  add_loc df i c v = Some df' →
  df' = mkDataFrame (nrows df) (alter (λ old, (old + v)%Q) (c, i) (cells df)).
Proof.
  intros (old & Hold & _ & ->)%add_loc_Some. f_equal.
  apply map_eq. intros k. unfold loc in Hold.
  destruct (decide (k = (c, i))) as [->|Hne].
  - rewrite lookup_insert_eq, lookup_alter_eq, Hold. done.
  - rewrite lookup_insert_ne, lookup_alter_ne by done. done.
Qed.

Lemma nrows_set_loc (df df' : DataFrame) i c v :
  set_loc df i c v = Some df' → nrows df' = nrows df.
Proof. intros [_ ->]%set_loc_Some. done. Qed.

Lemma nrows_add_loc (df df' : DataFrame) i c v :
  add_loc df i c v = Some df' → nrows df' = nrows df.
Proof. intros (? & _ & _ & ->)%add_loc_Some. done. Qed.

Lemma loc_set_loc_eq (df df' : DataFrame) i c v :
  set_loc df i c v = Some df' → loc df' i c = Some v.
Proof. intros [_ ->]%set_loc_Some. unfold loc; simpl. apply lookup_insert_eq. Qed.

Lemma loc_set_loc_ne (df df' : DataFrame) i c v j c' :
  set_loc df i c v = Some df' → (c, i) ≠ (c', j) → loc df' j c' = loc df j c'.
Proof.
  intros [_ ->]%set_loc_Some Hne. unfold loc; simpl. by apply lookup_insert_ne.
Qed.

Lemma loc_add_loc_eq (df df' : DataFrame) i c v :
  add_loc df i c v = Some df' →
  ∃ old, loc df i c = Some old ∧ loc df' i c = Some (old + v)%Q.
Proof.
  intros (old & Hold & _ & ->)%add_loc_Some. exists old. split; [done|].
  unfold loc; simpl. apply lookup_insert_eq.
Qed.

Lemma loc_add_loc_ne (df df' : DataFrame) i c v j c' :
  add_loc df i c v = Some df' → (c, i) ≠ (c', j) → loc df' j c' = loc df j c'.
Proof.
  intros (old & _ & _ & ->)%add_loc_Some Hne. unfold loc; simpl.
  by apply lookup_insert_ne.
Qed.

Lemma add_loc_is_Some (df : DataFrame) i c v :
  (i < nrows df)%nat → is_Some (loc df i c) → is_Some (add_loc df i c v).
Proof.
  intros Hi [old Hold]. unfold add_loc. rewrite Hold. simpl.
  rewrite set_loc_is_Some by done. by eexists.
Qed.

Lemma index_of_date_Some (df : DataFrame) d i :
  index_of_date df d = Some i ↔ (d < nrows df)%nat ∧ i = d.
Proof.
  unfold index_of_date. case_guard; simpl; split.
  - intros [= <-]. done.
  - intros [_ ->]. done.
  - done.
  - intros [? _]. lia.
Qed.

Lemma iloc_date_Some (df : DataFrame) d i :
  iloc_date df d = Some i ↔ (d < nrows df)%nat ∧ i = d.
Proof. apply index_of_date_Some. Qed.

Lemma iloc_Some (df : DataFrame) i c v :
  iloc df i c = Some v ↔ (i < nrows df)%nat ∧ loc df i c = Some v.
Proof.
  unfold iloc. case_guard; simpl; split.
  - done.
  - intros [_ ?]. done.
  - done.
  - intros [? _]. lia.
Qed.


Lemma Forall2_impl_Forall {A B} (R : A → Prop) (P Q : A → B → Prop) l l' :
  Forall R l → Forall2 P l l' → (∀ x y, R x → P x y → Q x y) → Forall2 Q l l'.
Proof.
  intros HR HP Himp. revert HR.
  induction HP as [|x y l l' Hxy _ IH]; intros HR; [constructor|].
  apply Forall_cons in HR as [Hx Hl]. constructor; [by apply Himp|by apply IH].
Qed.

Lemma unchanged_outside_refl K df : unchanged_outside K df df.
Proof. split; done. Qed.

Lemma unchanged_outside_trans K1 K2 df1 df2 df3 :
  unchanged_outside K1 df1 df2 → unchanged_outside K2 df2 df3 →
  unchanged_outside (K1 ++ K2) df1 df3.
Proof.
  intros [Hn1 H1] [Hn2 H2]. split; [congruence|].
  intros c i Hni. apply not_elem_of_app in Hni as [? ?].
  rewrite H2, H1; done.
Qed.

Lemma unchanged_outside_weaken K K' df df' :
  K ⊆ K' → unchanged_outside K df df' → unchanged_outside K' df df'.
Proof.
  intros Hsub [Hn H1]. split; [done|]. intros c i Hni. apply H1.
  intros Hin. apply Hni, Hsub, Hin.
Qed.

Lemma unchanged_outside_add_loc df df' i c v :
  add_loc df i c v = Some df' → unchanged_outside [(c, i)] df df'.
Proof.
  intros Hadd. split; [by eapply nrows_add_loc|].
  intros c' j Hni. eapply loc_add_loc_ne; [done|].
  intros Heq. apply Hni. rewrite Heq. apply list_elem_of_here.
Qed.

Lemma unchanged_outside_set_loc df df' i c v :
  set_loc df i c v = Some df' → unchanged_outside [(c, i)] df df'.
Proof.
  intros Hset. split; [by eapply nrows_set_loc|].
  intros c' j Hni. eapply loc_set_loc_ne; [done|].
  intros Heq. apply Hni. rewrite Heq. apply list_elem_of_here.
Qed.

(** Inclusion between lists given by their elements. *)
Ltac list_sub :=
  let k := fresh "k" in
  intros k; simpl;
  repeat (rewrite elem_of_app || rewrite elem_of_cons || rewrite elem_of_nil);
  tauto.

Lemma unchanged_outside_after_set K df d d' i c v :
  set_loc d i c v = Some d' → (c, i) ∈ K →
  unchanged_outside K df d → unchanged_outside K df d'.
Proof.
  intros Hset Hin [Hn Hd]. split; [erewrite nrows_set_loc; done|].
  intros c' j Hni. rewrite <- Hd by done.
  eapply loc_set_loc_ne; [done|]. intros Heq. apply Hni. by rewrite <- Heq.
Qed.

Lemma unchanged_outside_after K K' df d d' :
  unchanged_outside K' d d' → K' ⊆ K →
  unchanged_outside K df d → unchanged_outside K df d'.
Proof.
  intros [Hn' Hd'] Hsub [Hn Hd]. split; [congruence|].
  intros c j Hni. rewrite <- Hd by done. apply Hd'.
  intros Hin. apply Hni, Hsub, Hin.
Qed.

Lemma unchanged_outside_loc K df df' i c :
  unchanged_outside K df df' → (c, i) ∉ K → loc df' i c = loc df i c.
Proof. intros [_ H] Hni. by apply H. Qed.

(** A cell is one of a list of cells. *)
Ltac list_in := repeat first [apply list_elem_of_here | apply list_elem_of_further].

(** Two cells differ: by their column names or by their rows. *)
Ltac cell_ne := solve [congruence | intros [=]; lia | intros [=]].

(** Read a cell of a frame through the writes that produced the frame. *)
Ltac loc_back :=
  repeat match goal with
  | H : set_loc ?d _ _ _ = Some ?d' |- context [loc ?d' _ _] =>
      first [ rewrite (loc_set_loc_eq _ _ _ _ _ H)
            | rewrite (loc_set_loc_ne _ _ _ _ _ _ _ H) by cell_ne ]
  | H : add_loc ?d _ _ _ = Some ?d' |- context [loc ?d' _ _] =>
      rewrite (loc_add_loc_ne _ _ _ _ _ _ _ H) by cell_ne
  end.

Ltac loc_back_in H0 :=
  repeat match type of H0 with
  | context [loc ?d' _ _] =>
    match goal with
    | H : set_loc ?d _ _ _ = Some d' |- _ =>
      first [ rewrite (loc_set_loc_eq _ _ _ _ _ H) in H0
            | rewrite (loc_set_loc_ne _ _ _ _ _ _ _ H) in H0 by cell_ne ]
    | H : add_loc ?d _ _ _ = Some d' |- _ =>
      rewrite (loc_add_loc_ne _ _ _ _ _ _ _ H) in H0 by cell_ne
    end
  end.

Ltac loc_back_all :=
  repeat match goal with
  | H : loc _ _ _ = Some _ |- _ => progress (loc_back_in H)
  end.

(** A step of a run that is shown to succeed: a write to a row of the
    frame, or a read of a cell known to be filled. *)
Ltac some_set :=
  lazymatch goal with
  | |- is_Some (set_loc ?d ?i ?c ?v ≫= _) =>
      let d' := fresh "d" in
      let H := fresh "Hset" in
      let Hn := fresh "Hn" in
      destruct (set_loc d i c v) as [d'|] eqn:H;
      [ pose proof (nrows_set_loc _ _ _ _ _ H) as Hn; simpl
      | exfalso; rewrite set_loc_is_Some in H by lia; discriminate ]
  end.

Ltac some_loc :=
  loc_back;
  repeat match goal with
  | H : loc ?d ?i ?c = Some _ |- context [loc ?d ?i ?c] => rewrite H
  end;
  simpl.

Ltac inv_bind H :=
  repeat match type of H with
  | (_ ≫= _) = Some _ => apply bind_Some in H as (? & ? & H)
  | (let '(_, _) := ?p in _) = Some _ => destruct p
  end.

Section Properties.

Context `{env : !Environment}.

(** ** Deferred pledge release *)

Lemma schedule_release_beyond upd df acc idx col v :
  (nrows df ≤ idx)%nat → schedule_release upd df acc idx col v = Some (df, acc).
Proof. intros Hge. unfold schedule_release. case_decide; [lia|done]. Qed.

Lemma schedule_release_frame upd df acc idx col v df' acc' :
  schedule_release upd df acc idx col v = Some (df', acc') →
  unchanged_outside (network_release_cells upd (nrows df) idx) df df' ∧
  unchanged_outside (release_cells upd (nrows df) idx col) acc acc'.
Proof.
  unfold schedule_release, release_cells, network_release_cells. intros Hrun.
  case_decide; [destruct upd|].
  - inv_bind Hrun. injection Hrun as <- <-. split.
    + by eapply unchanged_outside_add_loc.
    + eapply (unchanged_outside_trans [_] [_]); by eapply unchanged_outside_add_loc.
  - injection Hrun as <- <-. split; [|apply unchanged_outside_refl].
    apply unchanged_outside_refl.
  - injection Hrun as <- <-. split; apply unchanged_outside_refl.
Qed.


Lemma release_cells_sub upd n idx col :
  release_cells upd n idx col ⊆ [(col, idx); ("scheduled_pledge_release", idx)].
Proof.
  unfold release_cells. case_decide; [destruct upd|].
  - done.
  - apply list_subseteq_nil.
  - apply list_subseteq_nil.
Qed.

Lemma release_cells_beyond upd n idx col :
  (n ≤ idx)%nat → release_cells upd n idx col = [].
Proof. intros. unfold release_cells. case_decide; [lia|done]. Qed.

Lemma network_release_cells_beyond upd n idx :
  (n ≤ idx)%nat → network_release_cells upd n idx = [].
Proof. intros. unfold network_release_cells. case_decide; [lia|done]. Qed.

Lemma renew_pledge_not_released upd n idx col :
  col ≠ "renew_pledge_FIL" →
  ∀ day_idx, ("renew_pledge_FIL", day_idx) ∉ release_cells upd n idx col.
Proof.
  intros Hc day_idx Hin. apply release_cells_sub in Hin.
  apply elem_of_cons in Hin as [Heq|Hin]; [congruence|].
  apply elem_of_cons in Hin as [Heq|Hin]; [congruence|].
  by apply elem_of_nil in Hin.
Qed.

(** What one turn of the loop of [_update_sched_expire_pledge] does. *)
Lemma sched_expire_agent_inv date_in day_idx upd tq bp dnr pcs df agent rr df' agent' rr' :
  sched_expire_agent date_in day_idx upd tq bp dnr pcs df agent rr = Some (df', agent', rr') →
  let stats := get_power_at_date agent date_in in
  let acc := accounting_df agent in
  let acc' := accounting_df agent' in
  ∃ orig r old renews,
    loc acc day_idx "scheduled_pledge_release" = Some orig ∧
    agent_rr_at date_in agent = Some r ∧
    rr' = (rr * r)%Q ∧
    loc acc day_idx "renew_pledge_FIL" = Some old ∧
    loc acc' day_idx "renew_pledge_FIL" = Some (old + py_max (orig * r) renews)%Q ∧
    unchanged_outside
      (network_release_cells upd (nrows df) (day_idx + day_onboarded_qa_duration stats)
       ++ network_release_cells upd (nrows df) (day_idx + extended_qa_duration stats)
       ++ [("original_pledge", day_idx)]) df df' ∧
    unchanged_outside
      ([("onboard_pledge_FIL", day_idx)]
       ++ release_cells upd (nrows df) (day_idx + day_onboarded_qa_duration stats)
            "onboard_scheduled_pledge_release_FIL"
       ++ [("renew_pledge_FIL", day_idx)]
       ++ release_cells upd (nrows df) (day_idx + extended_qa_duration stats)
            "renew_scheduled_pledge_release_FIL") acc acc'.
Proof.
  unfold sched_expire_agent. intros Hrun. inv_bind Hrun.
  injection Hrun as <- <- <-. simpl.
  match goal with H : loc _ _ "scheduled_pledge_release" = Some ?o |- _ => exists o end.
  match goal with H : agent_renewal_ratio _ _ = Some ?o |- _ => exists o end.
  match goal with H : schedule_release _ _ _ _ "onboard_scheduled_pledge_release_FIL" _ = _ |- _ =>
    apply schedule_release_frame in H as [Hd Hd0] end.
  match goal with H : schedule_release _ _ _ _ "renew_scheduled_pledge_release_FIL" _ = _ |- _ =>
    apply schedule_release_frame in H as [Hd1 Hd2] end.
  match goal with H : add_loc _ _ "renew_pledge_FIL" _ = _ |- _ =>
    destruct (loc_add_loc_eq _ _ _ _ _ H) as (old & Hold & Hnew);
    pose proof (unchanged_outside_add_loc _ _ _ _ _ H) as Hrenew end.
  match goal with H : add_loc _ _ "onboard_pledge_FIL" _ = _ |- _ =>
    pose proof (unchanged_outside_add_loc _ _ _ _ _ H) as Honb end.
  match goal with H : add_loc _ _ "original_pledge" _ = _ |- _ =>
    pose proof (unchanged_outside_add_loc _ _ _ _ _ H) as Horig end.
  assert (nrows d = nrows df) as Hnd by apply Hd.
  rewrite Hnd in Hd1, Hd2.
  exists old. eexists. split; [done|]. split; [done|]. split; [done|].
  split.
  { rewrite <- Hold. symmetry.
    destruct Hd0 as [_ Hd0]. rewrite Hd0 by (by apply renew_pledge_not_released).
    destruct Honb as [_ Honb]. apply Honb.
    intros Hin. apply elem_of_cons in Hin as [Heq|Hin]; [congruence|].
    by apply elem_of_nil in Hin. }
  split.
  { destruct Hd2 as [_ Hd2]. rewrite Hd2 by (by apply renew_pledge_not_released). done. }
  split.
  { eapply unchanged_outside_trans; [done|].
    eapply unchanged_outside_trans; done. }
  eapply (unchanged_outside_trans [_]); [done|].
  eapply unchanged_outside_trans; [done|].
  eapply (unchanged_outside_trans [_]); done.
Qed.


Lemma sched_expire_loop_inv date_in day_idx upd tq bp dnr pcs agents :
  ∀ df rr df' agents' rr',
  sched_expire_loop date_in day_idx upd tq bp dnr pcs df agents rr
    = Some (df', agents', rr') →
  Forall2 (sched_expire_turn (nrows df) date_in day_idx upd) agents agents' ∧
  (∃ ratios, mapM (agent_rr_at date_in) agents = Some ratios ∧
             rr' = fold_left Qmult ratios rr) ∧
  unchanged_outside (network_cells_written upd (nrows df) date_in day_idx agents) df df'.
Proof.
  induction agents as [|agent rest IH]; intros df rr df' agents' rr' Hrun; simpl in Hrun.
  - injection Hrun as <- <- <-. split; [constructor|]. split.
    + exists []. done.
    + apply unchanged_outside_refl.
  - inv_bind Hrun. injection Hrun as <- <- <-.
    match goal with H : sched_expire_agent _ _ _ _ _ _ _ _ _ _ = _ |- _ =>
      pose proof (sched_expire_agent_inv _ _ _ _ _ _ _ _ _ _ _ _ _ H)
        as (orig & r & old & renews & _ & Hr & -> & _ & _ & Hdf & _);
      rename H into Hturn end.
    match goal with H : sched_expire_loop _ _ _ _ _ _ _ _ _ _ = _ |- _ =>
      apply IH in H as (Hall & (ratios & Hratios & ->) & Hrest) end.
    assert (nrows d = nrows df) as Hnd by apply Hdf.
    rewrite Hnd in Hall, Hrest.
    split; [|split].
    + constructor; [|done]. do 8 eexists. split; [|exact Hturn]. done.
    + exists (r :: ratios). split; [|done].
      simpl. rewrite Hr. simpl. rewrite Hratios. done.
    + simpl. eapply unchanged_outside_trans; done.
Qed.


Lemma update_sched_expire_pledge_inv df agents date_in upd df' agents' :
  _update_sched_expire_pledge df agents date_in upd = Some (df', agents') →
  (date_in < nrows df)%nat ∧
  Forall2 (sched_expire_turn (nrows df) date_in date_in upd) agents agents' ∧
  (∃ ratios, mapM (agent_rr_at date_in) agents = Some ratios ∧
             loc df' date_in "renewal_rate" = Some (fold_left Qmult ratios 1%Q)) ∧
  unchanged_outside
    (network_cells_written upd (nrows df) date_in date_in agents
     ++ [("renewal_rate", date_in)]) df df'.
Proof.
  unfold _update_sched_expire_pledge. intros Hrun.
  inv_bind Hrun.
  match goal with H : index_of_date _ _ = Some _ |- _ =>
    apply index_of_date_Some in H as [Hlt ->] end.
  injection Hrun as <- <-.
  match goal with H : sched_expire_loop _ _ _ _ _ _ _ _ _ _ = _ |- _ =>
    apply sched_expire_loop_inv in H as (Hall & (ratios & Hratios & ->) & Hframe) end.
  split; [done|]. split; [done|]. split.
  - exists ratios. split; [done|]. by eapply loc_set_loc_eq.
  - eapply unchanged_outside_trans; [done|]. by eapply unchanged_outside_set_loc.
Qed.

Lemma agent_renewal_ratio_rules renewed se r :
  agent_renewal_ratio renewed se = Some r → renewal_ratio_rules renewed se r.
Proof.
  unfold agent_renewal_ratio. intros Hr. inv_bind Hr. injection Hr as <-.
  match goal with H : raw_renewal_ratio _ _ = _ |- _ =>
    apply raw_renewal_ratio_cases in H
      as [(Hse & Hren & ->)|[(Hor & ->)|(Hse & Hren & ->)]] end.
  - split; [apply np_clip_bounds; lra|].
    split; [done|]. split; [|intros; lra].
    intros [?|?]; lra.
  - split; [apply np_clip_bounds; lra|].
    split; [intros; destruct Hor; lra|]. split; [done|].
    intros; destruct Hor; [lra|done].
  - split; [apply np_clip_bounds; lra|].
    split; [intros; lra|]. split; [|reflexivity].
    intros [?|?]; [lra|done].
Qed.

(** The ratio is computed on bytes; the rules hold for the ledger's PiB. *)
Lemma agent_rr_at_rules date_in agent r :
  agent_rr_at date_in agent = Some r →
  renewal_ratio_rules (extended_qa_pib (get_power_at_date agent date_in))
    (sched_expire_qa_pib (get_power_at_date agent date_in)) r.
Proof.
  intros Hr. apply agent_renewal_ratio_rules in Hr as (Hb & H1 & H0 & Hdiv).
  pose proof PIB_pos as HP.
  set (ren := extended_qa_pib (get_power_at_date agent date_in)) in *.
  set (se := sched_expire_qa_pib (get_power_at_date agent date_in)) in *.
  split; [done|]. split; [|split].
  - intros Hse Hren. apply H1; [rewrite Hse; lra|].
    apply Qmult_lt_0_compat; done.
  - intros [Hse|Hren]; apply H0.
    + left. nra.
    + right. rewrite Hren. ring.
  - intros Hse Hren. rewrite Hdiv.
    + apply np_clip_proper. field. split; lra.
    + apply Qmult_lt_0_compat; done.
    + intros Hz. apply Hren. apply Qmult_integral in Hz as [Hz|Hz]; [done|lra].
Qed.

Lemma agent_renewal_ratio_defined renewed se :
  (0 <= renewed)%Q → is_Some (agent_renewal_ratio renewed se).
Proof.
  intros Hr. destruct (raw_renewal_ratio_defined renewed se Hr) as [r Hraw].
  unfold agent_renewal_ratio. rewrite Hraw. by eexists.
Qed.


Lemma network_cells_written_beyond upd n date_in day_idx agents :
  Forall (λ agent, onboard_release_beyond n date_in day_idx agent ∧
                   renew_release_beyond n date_in day_idx agent) agents →
  network_cells_written upd n date_in day_idx agents ⊆ [("original_pledge", day_idx)].
Proof.
  unfold network_cells_written.
  induction 1 as [|agent rest [Hon Hre] _ IH]; simpl.
  - apply list_subseteq_nil.
  - unfold onboard_release_beyond in Hon. unfold renew_release_beyond in Hre.
    rewrite !network_release_cells_beyond by done. simpl.
    intros k [->|Hin]%elem_of_cons; [apply list_elem_of_here|by apply IH].
Qed.

(** ** C2: renewal ratio and network-wide renewal rate *)

(** C2.  Each agent's renewal ratio follows the three rules (1 when
    nothing was scheduled to expire but power was renewed, 0 when the
    scheduled-to-expire power is negative or nothing was renewed, otherwise
    renewed over scheduled-to-expire quality-adjusted power), clamped to
    [0,1]; the [renewal_rate] written for the day is the product of the
    agents' ratios. *)
Theorem renewal_rate_is_product df agents date_in upd df' agents' :
  _update_sched_expire_pledge df agents date_in upd = Some (df', agents') →
  ∃ ratios : list Q,
    Forall2 (λ agent r,
        agent_rr_at date_in agent = Some r ∧
        renewal_ratio_rules
          (extended_qa_pib (get_power_at_date agent date_in))
          (sched_expire_qa_pib (get_power_at_date agent date_in)) r)
      agents ratios ∧
    loc df' date_in "renewal_rate" = Some (fold_left Qmult ratios 1%Q).
Proof.
  intros (_ & _ & (ratios & Hratios & Hloc) & _)%update_sched_expire_pledge_inv.
  exists ratios. split; [|done].
  apply mapM_Some_1 in Hratios.
  eapply Forall2_impl; [exact Hratios|].
  intros agent r Hr. split; [done|]. by apply agent_rr_at_rules.
Qed.

(** ** C9: pledge locked by renewals *)

(** C9.  The amount added to an agent's [renew_pledge_FIL] for the day is
    at least the pledge that was scheduled to be released that day times
    the agent's renewal ratio. *)
Theorem renewal_locks_at_least_original_share df agents date_in upd df' agents' :
  _update_sched_expire_pledge df agents date_in upd = Some (df', agents') →
  Forall2 (λ agent agent',
      ∃ original_pledge agent_rr before after : Q,
        loc (accounting_df agent) date_in "scheduled_pledge_release"
          = Some original_pledge ∧
        agent_rr_at date_in agent = Some agent_rr ∧
        loc (accounting_df agent) date_in "renew_pledge_FIL" = Some before ∧
        loc (accounting_df agent') date_in "renew_pledge_FIL" = Some after ∧
        (original_pledge * agent_rr <= after - before)%Q)
    agents agents'.
Proof.
  intros (_ & Hturns & _)%update_sched_expire_pledge_inv.
  eapply Forall2_impl; [exact Hturns|].
  intros agent agent' (tq & bp & dnr & pcs & dfa & dfb & rra & rrb & _ & Hturn).
  apply sched_expire_agent_inv in Hturn
    as (orig & r & old & renews & Horig & Hr & _ & Hold & Hnew & _).
  exists orig, r, old, (old + py_max (orig * r) renews)%Q.
  repeat (split; [done|]).
  pose proof (py_max_ge_l (orig * r) renews). lra.
Qed.

(** ** C3: releases beyond the horizon *)

(** C3.  A deferred pledge release whose day is not a row of the network
    frame is dropped: the frame keeps its rows, the agent's accounting
    table changes only in the cells of the day's own locking and of the
    other, in-range release, and when no release of the day is in range the
    network frame changes only in [original_pledge] and [renewal_rate] of
    that day. *)
Theorem release_beyond_horizon_dropped df agents date_in upd df' agents' :
  _update_sched_expire_pledge df agents date_in upd = Some (df', agents') →
  nrows df' = nrows df ∧
  Forall2 (λ agent agent',
      let stats := get_power_at_date agent date_in in
      (onboard_release_beyond (nrows df) date_in date_in agent →
       unchanged_outside
         ([("onboard_pledge_FIL", date_in); ("renew_pledge_FIL", date_in)]
          ++ release_cells upd (nrows df) (date_in + extended_qa_duration stats)
               "renew_scheduled_pledge_release_FIL")
         (accounting_df agent) (accounting_df agent')) ∧
      (renew_release_beyond (nrows df) date_in date_in agent →
       unchanged_outside
         ([("onboard_pledge_FIL", date_in); ("renew_pledge_FIL", date_in)]
          ++ release_cells upd (nrows df) (date_in + day_onboarded_qa_duration stats)
               "onboard_scheduled_pledge_release_FIL")
         (accounting_df agent) (accounting_df agent')) ∧
      (onboard_release_beyond (nrows df) date_in date_in agent →
       renew_release_beyond (nrows df) date_in date_in agent →
       unchanged_outside
         [("onboard_pledge_FIL", date_in); ("renew_pledge_FIL", date_in)]
         (accounting_df agent) (accounting_df agent')))
    agents agents' ∧
  unchanged_outside
    (network_cells_written upd (nrows df) date_in date_in agents
     ++ [("renewal_rate", date_in)]) df df' ∧
  (Forall (λ agent, onboard_release_beyond (nrows df) date_in date_in agent ∧
                    renew_release_beyond (nrows df) date_in date_in agent) agents →
   unchanged_outside [("original_pledge", date_in); ("renewal_rate", date_in)] df df').
Proof.
  intros (_ & Hturns & _ & Hnet)%update_sched_expire_pledge_inv.
  split; [apply Hnet|]. split; [|split; [done|]].
  - eapply Forall2_impl; [exact Hturns|].
    intros agent agent' (tq & bp & dnr & pcs & dfa & dfb & rra & rrb & Hn & Hturn).
    apply sched_expire_agent_inv in Hturn
      as (orig & r & old & renews & _ & _ & _ & _ & _ & _ & Hacc).
    rewrite Hn in Hacc. simpl.
    unfold onboard_release_beyond, renew_release_beyond.
    split; [|split].
    + intros Hon. rewrite release_cells_beyond in Hacc by done.
      eapply unchanged_outside_weaken; [|exact Hacc]. simpl. list_sub.
    + intros Hre.
      rewrite (release_cells_beyond _ _ (date_in + extended_qa_duration _)) in Hacc by done.
      eapply unchanged_outside_weaken; [|exact Hacc]. simpl. list_sub.
    + intros Hon Hre. rewrite !release_cells_beyond in Hacc by done.
      eapply unchanged_outside_weaken; [|exact Hacc]. simpl. list_sub.
  - intros Hall. eapply unchanged_outside_weaken; [|exact Hnet].
    apply network_cells_written_beyond with (upd := upd) in Hall.
    intros k [Hk|Hk]%elem_of_app.
    + apply Hall in Hk. revert k Hk. list_sub.
    + revert k Hk. list_sub.
Qed.

(** ** C5 and C6: circulating supply and locked collateral *)

Lemma update_circulating_supply_inv daily df agents day_idx df' :
  _update_circulating_supply daily df agents day_idx = Some df' →
  (day_idx < nrows df)%nat ∧
  unchanged_outside
    [("pledge_delta", day_idx); ("reward_delta", day_idx);
     ("day_locked_pledge", day_idx); ("day_renewed_pledge", day_idx);
     ("network_locked_pledge", day_idx); ("network_locked_reward", day_idx);
     ("network_locked", day_idx); ("network_gas_burn", day_idx);
     ("circ_supply", day_idx)] df df' ∧
  (∃ prev_locked prev_pledge prev_reward pledge_delta reward_delta,
    iloc_prev df day_idx "network_locked" = Some prev_locked ∧
    iloc_prev df day_idx "network_locked_pledge" = Some prev_pledge ∧
    iloc_prev df day_idx "network_locked_reward" = Some prev_reward ∧
    loc df' day_idx "network_locked" = Some (prev_locked + pledge_delta + reward_delta)%Q ∧
    loc df' day_idx "network_locked_pledge" = Some (prev_pledge + pledge_delta)%Q ∧
    loc df' day_idx "network_locked_reward" = Some (prev_reward + reward_delta)%Q) ∧
  ∃ disbursed_reserve cum_network_reward total_vest network_locked
      network_gas_burn burn_from_terminations,
    loc df' day_idx "disbursed_reserve" = Some disbursed_reserve ∧
    loc df' day_idx "cum_network_reward" = Some cum_network_reward ∧
    loc df' day_idx "total_vest" = Some total_vest ∧
    loc df' day_idx "network_locked" = Some network_locked ∧
    loc df' day_idx "network_gas_burn" = Some network_gas_burn ∧
    loc df' day_idx "burn_from_terminations" = Some burn_from_terminations ∧
    loc df' day_idx "circ_supply"
      = Some (py_max (disbursed_reserve + cum_network_reward + total_vest
                      - network_locked - network_gas_burn - burn_from_terminations) 0).
Proof.
  unfold _update_circulating_supply. intros Hrun. inv_bind Hrun.
  match goal with H : iloc_date _ _ = Some _ |- _ =>
    apply iloc_date_Some in H as [Hlt ->] end.
  repeat match goal with H : iloc _ _ _ = Some _ |- _ =>
    apply iloc_Some in H as [_ H] end.
  match goal with
  | H : (if Qeq_bool _ _ then _ else Some ?d0) = Some ?d |- _ =>
    assert (Hgas : unchanged_outside [("network_gas_burn", day_idx)] d0 d);
    [ destruct (Qeq_bool _ _);
      [ inv_bind H; by eapply unchanged_outside_set_loc
      | injection H as <-; apply unchanged_outside_refl ]
    | clear H;
      assert (Hother : ∀ c, c ≠ "network_gas_burn" →
                            loc d day_idx c = loc d0 day_idx c) ]
  end.
  { intros c Hc. eapply unchanged_outside_loc; [exact Hgas|].
    intros Hin. apply elem_of_cons in Hin as [Heq|Hin]; [congruence|].
    by apply elem_of_nil in Hin. }
  split; [done|]. split.
  { eapply unchanged_outside_after_set; [eassumption|list_in|].
    eapply unchanged_outside_after; [exact Hgas|list_sub|].
    repeat (eapply unchanged_outside_after_set; [eassumption|list_in|]).
    apply unchanged_outside_refl. }
  split.
  { do 5 eexists. repeat (split; [eassumption|]).
    split; [loc_back; rewrite Hother by done; loc_back; reflexivity|].
    split; [loc_back; rewrite Hother by done; loc_back; reflexivity|].
    loc_back; rewrite Hother by done; loc_back; reflexivity. }
  do 6 eexists.
  repeat (split; [loc_back; eassumption|]).
  loc_back. reflexivity.
Qed.

(** C5.  The circulating supply written for a day is the disbursed
    reserve plus the cumulative network reward plus the vested total, less
    the locked collateral, the gas burn and the termination burn of that
    day, floored at zero; it is never negative. *)
Theorem circ_supply_is_floored_balance daily df agents day_idx df' :
  _update_circulating_supply daily df agents day_idx = Some df' →
  ∃ disbursed_reserve cum_network_reward total_vest network_locked
      network_gas_burn burn_from_terminations circ_supply : Q,
    loc df' day_idx "disbursed_reserve" = Some disbursed_reserve ∧
    loc df' day_idx "cum_network_reward" = Some cum_network_reward ∧
    loc df' day_idx "total_vest" = Some total_vest ∧
    loc df' day_idx "network_locked" = Some network_locked ∧
    loc df' day_idx "network_gas_burn" = Some network_gas_burn ∧
    loc df' day_idx "burn_from_terminations" = Some burn_from_terminations ∧
    loc df' day_idx "circ_supply" = Some circ_supply ∧
    circ_supply
      = py_max (disbursed_reserve + cum_network_reward + total_vest
                - network_locked - network_gas_burn - burn_from_terminations) 0 ∧
    (0 <= circ_supply)%Q.
Proof.
  intros (_ & _ & _ & dr & cnr & tv & nl & gas & bft
          & H1 & H2 & H3 & H4 & H5 & H6 & H7)%update_circulating_supply_inv.
  exists dr, cnr, tv, nl, gas, bft. eexists.
  repeat (split; [eassumption|]). split; [reflexivity|].
  apply py_max_ge_r.
Qed.


End Properties.

(** ** C4: total power *)

Lemma update_power_metrics_inv df macro day_idx df' :
  _update_power_metrics df macro day_idx = Some df' →
  ∃ prev_rbp prev_qap,
    loc_prev df day_idx "total_raw_power_eib" = Some prev_rbp ∧
    loc_prev df day_idx "total_qa_power_eib" = Some prev_qap ∧
    loc df' day_idx "total_raw_power_eib"
      = Some (py_max (day_network_rbp_pib macro / 1024 + prev_rbp) MIN_VALUE) ∧
    loc df' day_idx "total_qa_power_eib"
      = Some (py_max (day_network_qap_pib macro / 1024 + prev_qap) MIN_VALUE) ∧
    nrows df' = nrows df.
Proof.
  unfold _update_power_metrics. intros Hrun. inv_bind Hrun.
  destruct day_idx as [|p]; [done|]. simpl in *.
  loc_back_all.
  repeat match goal with H : Some _ = Some _ |- _ => injection H as <- end.
  do 2 eexists. split; [done|]. split; [done|].
  split; [|split].
  - loc_back. done.
  - loc_back. done.
  - repeat match goal with H : set_loc _ _ _ _ = Some _ |- _ =>
      apply nrows_set_loc in H end. congruence.
Qed.

Lemma update_power_metrics_defined df macro day_idx :
  (0 < day_idx < nrows df)%nat →
  is_Some (loc_prev df day_idx "total_raw_power_eib") →
  is_Some (loc_prev df day_idx "total_qa_power_eib") →
  is_Some (_update_power_metrics df macro day_idx).
Proof.
  intros [Hpos Hlt] [prev_rbp Hrbp] [prev_qap Hqap].
  destruct day_idx as [|p]; [lia|]. simpl in Hrbp, Hqap.
  unfold _update_power_metrics.
  do 10 some_set.
  some_loc. simpl loc_prev. some_loc. some_set.
  some_loc. simpl loc_prev. some_loc.
  rewrite set_loc_is_Some by lia. by eexists.
Qed.

(** C4 (amended).  The total power written for a day, in either class, is
    the power balance (previous total plus onboarded plus renewed less
    scheduled expirations less terminations, the day's PiB converted to EiB)
    raised to the floor [MIN_VALUE]: it is the balance whenever the balance
    is at least [MIN_VALUE], and [MIN_VALUE] otherwise. *)
Theorem total_power_is_floored_balance df agents date_in day_idx df' :
  _update_power_metrics df (_compute_macro agents date_in) day_idx = Some df' →
  ∃ prev_rbp prev_qap total_rbp total_qap : Q,
    loc_prev df day_idx "total_raw_power_eib" = Some prev_rbp ∧
    loc_prev df day_idx "total_qa_power_eib" = Some prev_qap ∧
    loc df' day_idx "total_raw_power_eib" = Some total_rbp ∧
    loc df' day_idx "total_qa_power_eib" = Some total_qap ∧
    let balance_rbp :=
      power_balance prev_rbp
        (accumulate day_onboarded_rb_power_pib agents date_in)
        (accumulate extended_rb_pib agents date_in)
        (accumulate sched_expire_rb_pib agents date_in)
        (accumulate terminated_rb_pib agents date_in) in
    let balance_qap :=
      power_balance prev_qap
        (accumulate day_onboarded_qa_power_pib agents date_in)
        (accumulate extended_qa_pib agents date_in)
        (accumulate sched_expire_qa_pib agents date_in)
        (accumulate terminated_qa_pib agents date_in) in
    (total_rbp == py_max balance_rbp MIN_VALUE)%Q ∧
    (total_qap == py_max balance_qap MIN_VALUE)%Q ∧
    ((MIN_VALUE <= balance_rbp)%Q → (total_rbp == balance_rbp)%Q) ∧
    ((MIN_VALUE <= balance_qap)%Q → (total_qap == balance_qap)%Q) ∧
    ((balance_rbp < MIN_VALUE)%Q → total_rbp = MIN_VALUE) ∧
    ((balance_qap < MIN_VALUE)%Q → total_qap = MIN_VALUE).
Proof.
  intros (prev_rbp & prev_qap & Hp1 & Hp2 & Ht1 & Ht2 & _)%update_power_metrics_inv.
  exists prev_rbp, prev_qap. do 2 eexists.
  split; [done|]. split; [done|]. split; [exact Ht1|]. split; [exact Ht2|].
  simpl. unfold power_balance.
  set (d1 := (_ + _ - _ - _)%Q). set (d2 := (_ + _ - _ - _)%Q).
  assert (E1 : ((0 + d1) / 1024 + prev_rbp == prev_rbp + d1 / 1024)%Q) by (field).
  assert (E2 : ((0 + d2) / 1024 + prev_qap == prev_qap + d2 / 1024)%Q) by (field).
  split; [apply py_max_proper; [done|reflexivity]|].
  split; [apply py_max_proper; [done|reflexivity]|].
  split; [|split; [|split]].
  - intros Hge. destruct (py_max_cases ((0 + d1) / 1024 + prev_rbp) MIN_VALUE)
      as [[? ->]|[? ->]]; lra.
  - intros Hge. destruct (py_max_cases ((0 + d2) / 1024 + prev_qap) MIN_VALUE)
      as [[? ->]|[? ->]]; lra.
  - intros Hlt. destruct (py_max_cases ((0 + d1) / 1024 + prev_rbp) MIN_VALUE)
      as [[? ->]|[? ->]]; [done|lra].
  - intros Hlt. destruct (py_max_cases ((0 + d2) / 1024 + prev_qap) MIN_VALUE)
      as [[? ->]|[? ->]]; [done|lra].
Qed.

(** ** Slices and columns *)

Lemma lookup_foldr_alter (f : Q → Q) (c : string) (rows : list nat)
    (m : gmap (string * nat) Q) (c' : string) (i : nat) :
  NoDup rows →
  foldr (λ j m, alter f (c, j) m) m rows !! (c', i)
  = if decide (c' = c ∧ i ∈ rows) then f <$> m !! (c', i) else m !! (c', i).
Proof.
  induction 1 as [|j rows Hj _ IH]; simpl.
  - case_decide as Hd; [|done]. destruct Hd as [_ Hin]. by apply elem_of_nil in Hin.
  - destruct (decide ((c, j) = (c', i))) as [[= <- <-]|Hne].
    + rewrite lookup_alter_eq, IH.
      rewrite decide_False by (intros [_ ?]; done).
      rewrite decide_True by (split; [done|apply list_elem_of_here]). done.
    + rewrite lookup_alter_ne by done. rewrite IH.
      destruct (decide (c' = c ∧ i ∈ rows)) as [[-> Hin]|Hn].
      * rewrite decide_True by (split; [done|by apply list_elem_of_further]). done.
      * rewrite decide_False; [done|].
        intros [-> [->|Hin]%elem_of_cons]; [done|]. apply Hn. done.
Qed.

Lemma lookup_foldr_insert (v : Q) (c : string) (rows : list nat)
    (m : gmap (string * nat) Q) (c' : string) (i : nat) :
  foldr (λ j m, <[(c, j) := v]> m) m rows !! (c', i)
  = if decide (c' = c ∧ i ∈ rows) then Some v else m !! (c', i).
Proof.
  induction rows as [|j rows IH]; simpl.
  - case_decide as Hd; [|done]. destruct Hd as [_ Hin]. by apply elem_of_nil in Hin.
  - destruct (decide ((c, j) = (c', i))) as [[= <- <-]|Hne].
    + rewrite lookup_insert_eq.
      rewrite decide_True by (split; [done|apply list_elem_of_here]). done.
    + rewrite lookup_insert_ne by done. rewrite IH.
      destruct (decide (c' = c ∧ i ∈ rows)) as [[-> Hin]|Hn].
      * rewrite decide_True by (split; [done|by apply list_elem_of_further]). done.
      * rewrite decide_False; [done|].
        intros [-> [->|Hin]%elem_of_cons]; [done|]. apply Hn. done.
Qed.

Lemma loc_set_column (df : DataFrame) c v i c' :
  loc (set_column df c v) i c'
  = if decide (c' = c ∧ (i < nrows df)%nat) then Some v else loc df i c'.
Proof.
  unfold loc, set_column. cbn [cells nrows]. rewrite lookup_foldr_insert.
  destruct (decide (c' = c ∧ (i < nrows df)%nat)) as [[-> Hi]|Hn].
  - rewrite decide_True; [done|]. split; [done|]. apply elem_of_seq. lia.
  - rewrite decide_False; [done|]. intros [-> Hin]. apply Hn. split; [done|].
    apply elem_of_seq in Hin. lia.
Qed.

Lemma loc_add_slice (df : DataFrame) a b c v i c' :
  loc (add_slice df a b c v) i c'
  = if decide (c' = c ∧ (a ≤ i ≤ b)%nat ∧ (i < nrows df)%nat)
    then (λ old, (old + v)%Q) <$> loc df i c' else loc df i c'.
Proof.
  unfold loc, add_slice. cbn [cells nrows]. rewrite lookup_foldr_alter by apply NoDup_seq.
  destruct (decide (c' = c ∧ (a ≤ i ≤ b)%nat ∧ (i < nrows df)%nat)) as [(-> & Hr & Hi)|Hn].
  - rewrite decide_True; [done|]. split; [done|]. apply elem_of_seq. lia.
  - rewrite decide_False; [done|]. intros [-> Hin]. apply Hn. split; [done|].
    apply elem_of_seq in Hin. lia.
Qed.
(** ** C1: vesting of the distributed reward *)

Lemma update_agent_credits date_in total agent ratio agent' :
  update_agent date_in total agent ratio = Some agent' →
  vesting_credited date_in (total * ratio) (accounting_df agent) (accounting_df agent').
Proof.
  unfold update_agent. intros Hrun. inv_bind Hrun. injection Hrun as <-.
  match goal with H : index_of_date _ _ = Some _ |- _ =>
    apply index_of_date_Some in H as [Hlt ->] end.
  match goal with H : add_loc _ _ "reward_FIL" _ = Some _ |- _ =>
    rename H into Hnow end.
  match goal with H : add_loc _ _ "full_reward_for_power_FIL" _ = Some _ |- _ =>
    rename H into Hfull end.
  pose proof (nrows_add_loc _ _ _ _ _ Hnow) as Hn1.
  pose proof (nrows_add_loc _ _ _ _ _ Hfull) as Hn2. simpl in Hn2.
  destruct (loc_add_loc_eq _ _ _ _ _ Hnow) as (old & Hold & Hnew).
  simpl. split; [done|]. split; [congruence|]. split; [|split].
  - exists old. split; [done|].
    rewrite (loc_add_loc_ne _ _ _ _ _ _ _ Hfull) by cell_ne.
    rewrite loc_add_slice. rewrite decide_False by lia. done.
  - intros i Hi Hin.
    rewrite (loc_add_loc_ne _ _ _ _ _ _ _ Hfull) by cell_ne.
    rewrite loc_add_slice. rewrite decide_True by (split; [done|lia]).
    rewrite (loc_add_loc_ne _ _ _ _ _ _ _ Hnow) by cell_ne. done.
  - intros i Hi.
    rewrite (loc_add_loc_ne _ _ _ _ _ _ _ Hfull) by cell_ne.
    rewrite loc_add_slice. rewrite decide_False by lia.
    rewrite (loc_add_loc_ne _ _ _ _ _ _ _ Hnow) by cell_ne. done.
Qed.
(** ** C7: power shares *)

Lemma fold_left_Qplus_acc (l : list Q) (a : Q) :
  (fold_left Qplus l a == a + fold_left Qplus l 0)%Q.
Proof.
  revert a. induction l as [|x l IH]; intros a; simpl.
  - ring.
  - rewrite (IH (a + x)%Q), (IH (0 + x)%Q). ring.
Qed.

Lemma py_sum_cons (x : Q) (l : list Q) : (py_sum (x :: l) == x + py_sum l)%Q.
Proof. unfold py_sum. simpl. rewrite fold_left_Qplus_acc. ring. Qed.

Lemma py_sum_scaled (k : Q) (l l' : list Q) :
  Forall2 (λ x y, (y == k * x)%Q) l l' → (py_sum l' == k * py_sum l)%Q.
Proof.
  induction 1 as [|x y l l' Hxy _ IH].
  - unfold py_sum. simpl. ring.
  - rewrite !py_sum_cons, IH, Hxy. ring.
Qed.

Lemma py_sum_nonneg (l : list Q) :
  Forall (λ x, (0 <= x)%Q) l → (0 <= py_sum l)%Q.
Proof.
  induction 1 as [|x l Hx _ IH].
  - unfold py_sum. simpl. lra.
  - rewrite py_sum_cons. lra.
Qed.

Lemma py_sum_ge_elem (l : list Q) (x : Q) :
  Forall (λ x, (0 <= x)%Q) l → x ∈ l → (x <= py_sum l)%Q.
Proof.
  induction 1 as [|y l Hy Hl IH]; intros Hin.
  - by apply elem_of_nil in Hin.
  - rewrite py_sum_cons. pose proof (py_sum_nonneg l Hl).
    apply elem_of_cons in Hin as [->|Hin]; [lra|].
    specialize (IH Hin). lra.
Qed.


(** ** Rounding *)

Lemma pow2_pos e : (0 < pow2 e)%Q.
Proof. unfold pow2. apply Qpower_0_lt. reflexivity. Qed.

Lemma pow2_add a b : (pow2 (a + b) == pow2 a * pow2 b)%Q.
Proof. unfold pow2. apply Qpower_plus. discriminate. Qed.

Lemma pow2_succ a : (pow2 (a + 1) == 2 * pow2 a)%Q.
Proof. rewrite pow2_add. unfold pow2 at 2. rewrite Qpower_1_r. ring. Qed.

Lemma pow2_le a b : (a ≤ b)%Z → (pow2 a <= pow2 b)%Q.
Proof. intros H. unfold pow2. apply Qpower_le_compat_l; [done|]. discriminate. Qed.

Lemma pow2_lt_inv a b : (pow2 a < pow2 b)%Q → (a < b)%Z.
Proof. intros H. unfold pow2 in H. eapply Qpower_lt_compat_l_inv; [exact H|reflexivity]. Qed.

Lemma pow2_inject (n : Z) : (0 ≤ n)%Z → (pow2 n == inject_Z (2 ^ n))%Q.
Proof. intros H. unfold pow2. rewrite Zpower_Qpower by done. reflexivity. Qed.

Lemma Qfloor_bounds (x : Q) :
  (inject_Z (Qfloor x) <= x)%Q ∧ (x < inject_Z (Qfloor x) + 1)%Q.
Proof.
  split; [apply Qfloor_le|]. pose proof (Qlt_floor x) as H.
  rewrite inject_Z_plus in H. exact H.
Qed.

Lemma rne_cases (x : Q) :
  let f := Qfloor x in
  (rne x = f ∧ (x - inject_Z f <= 1 # 2)%Q) ∨
  (rne x = (f + 1)%Z ∧ (1 # 2 <= x - inject_Z f)%Q).
Proof.
  intros f. unfold rne. fold f.
  destruct (Qcompare_spec (x - inject_Z f) (1 # 2)) as [He|Hl|Hg].
  - destruct (Z.even f); [left|right]; split; try done; rewrite He; apply Qle_refl.
  - left. split; [done|]. by apply Qlt_le_weak.
  - right. split; [done|]. by apply Qlt_le_weak.
Qed.

Lemma rne_err (x : Q) : (Qabs (inject_Z (rne x) - x) <= 1 # 2)%Q.
Proof.
  destruct (Qfloor_bounds x) as [Hlo Hhi].
  apply Qabs_Qle_condition.
  destruct (rne_cases x) as [[-> H]|[-> H]].
  - revert Hlo Hhi H. generalize (inject_Z (Qfloor x)). intros f ? ? ?. split; lra.
  - rewrite inject_Z_plus. change (inject_Z 1) with 1%Q.
    revert Hlo Hhi H. generalize (inject_Z (Qfloor x)). intros f ? ? ?. split; lra.
Qed.

Lemma rne_inject_Z (z : Z) : rne (inject_Z z) = z.
Proof.
  unfold rne. rewrite Qfloor_Z.
  replace (inject_Z z - inject_Z z ?= 1 # 2)%Q with Lt; [done|].
  symmetry. rewrite <- Qlt_alt. generalize (inject_Z z). intros q. lra.
Qed.

Lemma rne_comp (x y : Q) : (x == y)%Q → rne x = rne y.
Proof.
  intros H. unfold rne. rewrite (Qfloor_comp _ _ H).
  replace (x - inject_Z (Qfloor y) ?= 1 # 2)%Q
    with (y - inject_Z (Qfloor y) ?= 1 # 2)%Q; [done|].
  apply Qcompare_comp; [by rewrite H|reflexivity].
Qed.

Lemma rne_mono (x y : Q) : (x <= y)%Q → (rne x ≤ rne y)%Z.
Proof.
  intros Hxy.
  destruct (Qfloor_bounds x) as [Hxl Hxh], (Qfloor_bounds y) as [Hyl Hyh].
  pose proof (Qfloor_resp_le _ _ Hxy) as Hf.
  destruct (Z.eq_dec (Qfloor x) (Qfloor y)) as [Heq|Hne].
  - unfold rne. rewrite Heq.
    revert Hxl Hxh Hyl Hyh. rewrite Heq. generalize (inject_Z (Qfloor y)).
    intros f Hxl Hxh Hyl Hyh.
    destruct (Qcompare_spec (x - f) (1 # 2)) as [He|Hl|Hg];
      destruct (Qcompare_spec (y - f) (1 # 2)) as [He'|Hl'|Hg'];
      try destruct (Z.even (Qfloor y)); try lia; lra.
  - assert (Hlt : (Qfloor x + 1 ≤ Qfloor y)%Z) by lia.
    destruct (rne_cases x) as [[-> _]|[-> _]], (rne_cases y) as [[-> _]|[-> _]]; lia.
Qed.

Lemma Zlog2_pow2 (n : Z) :
  (0 < n)%Z →
  (pow2 (Z.log2 n) <= inject_Z n)%Q ∧ (inject_Z n < 2 * pow2 (Z.log2 n))%Q.
Proof.
  intros Hn. destruct (Z.log2_spec n Hn) as [Hlo Hhi].
  pose proof (Z.log2_nonneg n) as Hnn.
  rewrite <- pow2_succ, !pow2_inject by lia. split.
  - rewrite <- Zle_Qle. exact Hlo.
  - rewrite <- Zlt_Qlt. exact Hhi.
Qed.

Lemma ilog2_spec (x : Q) :
  (0 < x)%Q → (pow2 (ilog2 x) <= x)%Q ∧ (x < pow2 (ilog2 x + 1))%Q.
Proof.
  intros Hx. unfold ilog2.
  set (k := (Z.log2 (Qnum x) - Z.log2 (Z.pos (Qden x)))%Z).
  assert (Hnum : (0 < Qnum x)%Z).
  { destruct x as [n d]. unfold Qlt in Hx. simpl in *. lia. }
  destruct (Zlog2_pow2 _ Hnum) as [Ha1 Ha2].
  destruct (Zlog2_pow2 (Z.pos (Qden x)) eq_refl) as [Hb1 Hb2].
  assert (HK : (pow2 k * pow2 (Z.log2 (Z.pos (Qden x)))
                == pow2 (Z.log2 (Qnum x)))%Q).
  { rewrite <- pow2_add. unfold k. apply Qpower_comp; [reflexivity|lia]. }
  assert (Hxd : (x * inject_Z (Z.pos (Qden x)) == inject_Z (Qnum x))%Q).
  { destruct x as [n d]. simpl. rewrite (Qmake_Qdiv n d). field.
    intros H. discriminate H. }
  pose proof (pow2_pos k) as HKpos.
  pose proof (pow2_pos (Z.log2 (Z.pos (Qden x)))) as HBpos.
  revert Ha1 Ha2 Hb1 Hb2 HK Hxd HKpos HBpos.
  generalize (pow2 (Z.log2 (Qnum x))) (pow2 (Z.log2 (Z.pos (Qden x))))
             (inject_Z (Qnum x)) (inject_Z (Z.pos (Qden x))).
  intros A B N D Ha1 Ha2 Hb1 Hb2 HK Hxd HKpos HBpos.
  assert (Hhi : (x < 2 * pow2 k)%Q).
  { destruct (Qlt_le_dec x (2 * pow2 k)) as [|Hge]; [done|]. exfalso.
    assert ((x - 2 * pow2 k) * D >= 0)%Q by (apply Qmult_le_0_compat; lra).
    assert (pow2 k * (D - B) >= 0)%Q by (apply Qmult_le_0_compat; lra).
    lra. }
  assert (Hlo : (pow2 k < 2 * x)%Q).
  { destruct (Qlt_le_dec (pow2 k) (2 * x)) as [|Hge]; [done|]. exfalso.
    assert ((pow2 k - 2 * x) * D >= 0)%Q by (apply Qmult_le_0_compat; lra).
    assert (0 < pow2 k * (2 * B - D))%Q by (apply Qmult_lt_0_compat; lra).
    lra. }
  destruct (Qle_bool (pow2 k) x) eqn:Hb.
  - apply Qle_bool_iff in Hb. rewrite pow2_succ. split; [done|done].
  - assert (Hlt : (x < pow2 k)%Q).
    { destruct (Qlt_le_dec x (pow2 k)) as [|Hge]; [done|].
      apply Qle_bool_iff in Hge. congruence. }
    replace (k - 1 + 1)%Z with k by lia.
    assert (Hk : (pow2 k == 2 * pow2 (k - 1))%Q).
    { rewrite <- pow2_succ. apply Qpower_comp; [reflexivity|lia]. }
    split; [lra|done].
Qed.

Lemma ilog2_unique (x : Q) (e : Z) :
  (pow2 e <= x)%Q → (x < pow2 (e + 1))%Q → ilog2 x = e.
Proof.
  intros Hlo Hhi.
  assert (Hx : (0 < x)%Q) by (pose proof (pow2_pos e); lra).
  destruct (ilog2_spec x Hx) as [Hlo' Hhi'].
  assert (H1 : (e < ilog2 x + 1)%Z) by (apply pow2_lt_inv; lra).
  assert (H2 : (ilog2 x < e + 1)%Z) by (apply pow2_lt_inv; lra).
  lia.
Qed.

Lemma ilog2_comp (x y : Q) : (0 < x)%Q → (x == y)%Q → ilog2 x = ilog2 y.
Proof.
  intros Hx Hxy. symmetry. destruct (ilog2_spec x Hx) as [Hlo Hhi].
  apply ilog2_unique; lra.
Qed.

Lemma ilog2_mono (x y : Q) : (0 < x)%Q → (x <= y)%Q → (ilog2 x ≤ ilog2 y)%Z.
Proof.
  intros Hx Hxy. destruct (ilog2_spec x Hx) as [Hlo Hhi].
  destruct (ilog2_spec y) as [Hlo' Hhi']; [lra|].
  assert (H : (ilog2 x < ilog2 y + 1)%Z) by (apply pow2_lt_inv; lra). lia.
Qed.

Lemma pow2_52 : (pow2 52 == inject_Z (2 ^ 52))%Q.
Proof. by apply pow2_inject. Qed.

Lemma pow2_53 : (pow2 53 == inject_Z (2 ^ 53))%Q.
Proof. by apply pow2_inject. Qed.

(** The scaled value of a positive rational lies between [2^52] and
    [2^53]. *)
Lemma scaled_bounds (x : Q) :
  (0 < x)%Q →
  let h := pow2 (ilog2 x - 52) in
  (0 < h)%Q ∧ (x / h * h == x)%Q ∧
  (pow2 (ilog2 x) == inject_Z (2 ^ 52) * h)%Q ∧
  (inject_Z (2 ^ 52) <= x / h)%Q ∧ (x / h < inject_Z (2 ^ 53))%Q.
Proof.
  intros Hx h. pose proof (pow2_pos (ilog2 x - 52)) as Hh. fold h in Hh.
  destruct (ilog2_spec x Hx) as [Hlo Hhi].
  assert (H52 : (pow2 (ilog2 x) == inject_Z (2 ^ 52) * h)%Q).
  { rewrite <- pow2_52. unfold h. rewrite <- pow2_add.
    apply Qpower_comp; [reflexivity|lia]. }
  assert (H53 : (pow2 (ilog2 x + 1) == inject_Z (2 ^ 53) * h)%Q).
  { rewrite <- pow2_53. unfold h. rewrite <- pow2_add.
    apply Qpower_comp; [reflexivity|lia]. }
  split; [done|]. split; [field; lra|]. split; [done|]. split.
  - apply Qle_shift_div_l; [done|]. lra.
  - apply Qlt_shift_div_r; [done|]. lra.
Qed.

Lemma rne_scaled_bounds (s : Q) :
  (inject_Z (2 ^ 52) <= s)%Q → (s < inject_Z (2 ^ 53))%Q →
  (2 ^ 52 ≤ rne s ≤ 2 ^ 53)%Z.
Proof.
  intros Hlo Hhi. split.
  - rewrite <- (rne_inject_Z (2 ^ 52)). by apply rne_mono.
  - rewrite <- (rne_inject_Z (2 ^ 53)). apply rne_mono. lra.
Qed.

Lemma round_pos_bounds (x : Q) :
  (0 < x)%Q →
  (pow2 (ilog2 x) <= round_pos x)%Q ∧ (round_pos x <= pow2 (ilog2 x + 1))%Q.
Proof.
  intros Hx. destruct (scaled_bounds x Hx) as (Hh & _ & H52 & Hlo & Hhi).
  destruct (rne_scaled_bounds _ Hlo Hhi) as [Hm1 Hm2].
  unfold round_pos. rewrite pow2_succ, H52.
  rewrite Zle_Qle in Hm1, Hm2.
  change (inject_Z (2 ^ 53)) with (2 * inject_Z (2 ^ 52))%Q in Hm2.
  clear H52 Hlo Hhi.
  set (h := pow2 (ilog2 x - 52)) in *.
  set (m := inject_Z (rne (x / h))) in *. clearbody m.
  set (c := inject_Z (2 ^ 52)) in *. clearbody c.
  split.
  - assert (0 <= (m - c) * h)%Q by (apply Qmult_le_0_compat; lra). lra.
  - assert (0 <= (2 * c - m) * h)%Q by (apply Qmult_le_0_compat; lra). lra.
Qed.

Lemma round_pos_pos (x : Q) : (0 < x)%Q → (0 < round_pos x)%Q.
Proof.
  intros Hx. destruct (round_pos_bounds x Hx) as [Hlo _].
  pose proof (pow2_pos (ilog2 x)). lra.
Qed.

Lemma round_pos_err (x : Q) :
  (0 < x)%Q → (Qabs (round_pos x - x) <= unit_roundoff * x)%Q.
Proof.
  intros Hx. destruct (scaled_bounds x Hx) as (Hh & Hsc & _ & Hlo & _).
  pose proof (rne_err (x / pow2 (ilog2 x - 52))) as Herr.
  apply Qabs_Qle_condition in Herr as [He1 He2].
  unfold round_pos. apply Qabs_Qle_condition.
  set (h := pow2 (ilog2 x - 52)) in *.
  set (m := inject_Z (rne (x / h))) in *. clearbody m.
  set (s := (x / h)%Q) in *. clearbody s.
  assert (Hu : (unit_roundoff * x == (unit_roundoff * s) * h)%Q)
    by (rewrite <- Hsc; ring).
  assert (Hus : (1 # 2 <= unit_roundoff * s)%Q).
  { assert (Hc : (unit_roundoff * inject_Z (2 ^ 52) == 1 # 2)%Q) by reflexivity.
    rewrite <- Hc. apply Qmult_le_l; [reflexivity|done]. }
  assert (Hm : (m * h - x == (m - s) * h)%Q) by (rewrite <- Hsc; ring).
  rewrite Hu, Hm. clear Hu Hm Hsc.
  revert Hus. generalize (unit_roundoff * s)%Q. intros w Hus. split.
  - assert (0 <= (m - s + w) * h)%Q by (apply Qmult_le_0_compat; lra). lra.
  - assert (0 <= (w - (m - s)) * h)%Q by (apply Qmult_le_0_compat; lra). lra.
Qed.

Lemma round_pos_comp (x y : Q) :
  (0 < x)%Q → (x == y)%Q → (round_pos x == round_pos y)%Q.
Proof.
  intros Hx Hxy. unfold round_pos. rewrite (ilog2_comp x y Hx Hxy).
  rewrite (rne_comp (x / pow2 (ilog2 y - 52)) (y / pow2 (ilog2 y - 52)));
    [reflexivity|]. by rewrite Hxy.
Qed.

Lemma round_pos_mono (x y : Q) :
  (0 < x)%Q → (x <= y)%Q → (round_pos x <= round_pos y)%Q.
Proof.
  intros Hx Hxy. assert (Hy : (0 < y)%Q) by lra.
  pose proof (ilog2_mono x y Hx Hxy) as Hl.
  destruct (Z.eq_dec (ilog2 x) (ilog2 y)) as [Heq|Hne].
  - unfold round_pos. rewrite Heq.
    pose proof (pow2_pos (ilog2 y - 52)) as Hh.
    apply Qmult_le_compat_r; [|lra].
    rewrite <- Zle_Qle. apply rne_mono.
    apply Qmult_le_compat_r; [done|]. apply Qlt_le_weak, Qinv_lt_0_compat, Hh.
  - destruct (round_pos_bounds x Hx) as [_ Hhi].
    destruct (round_pos_bounds y Hy) as [Hlo _].
    assert (Hp : (pow2 (ilog2 x + 1) <= pow2 (ilog2 y))%Q) by (apply pow2_le; lia).
    lra.
Qed.

(** A number of 53 significant bits is its own rounding. *)
Lemma round_pos_exact (m e : Z) :
  (2 ^ 52 ≤ m < 2 ^ 53)%Z →
  (round_pos (inject_Z m * pow2 e) == inject_Z m * pow2 e)%Q.
Proof.
  intros [Hm1 Hm2]. pose proof (pow2_pos e) as Hh.
  rewrite Zle_Qle in Hm1. rewrite Zlt_Qlt in Hm2.
  assert (Hl : ilog2 (inject_Z m * pow2 e) = (e + 52)%Z).
  { apply ilog2_unique.
    - rewrite pow2_add, pow2_52. rewrite (Qmult_comm (pow2 e)).
      apply Qmult_le_compat_r; [done|lra].
    - replace (e + 52 + 1)%Z with (e + 53)%Z by lia.
      rewrite pow2_add, pow2_53. rewrite (Qmult_comm (pow2 e)).
      apply Qmult_lt_compat_r; [done|done]. }
  unfold round_pos. rewrite Hl. replace (e + 52 - 52)%Z with e by lia.
  rewrite (rne_comp _ (inject_Z m)); [by rewrite rne_inject_Z|].
  field. lra.
Qed.

Lemma round_pos_idem (x : Q) :
  (0 < x)%Q → (round_pos (round_pos x) == round_pos x)%Q.
Proof.
  intros Hx. destruct (scaled_bounds x Hx) as (Hh & _ & _ & Hlo & Hhi).
  destruct (rne_scaled_bounds _ Hlo Hhi) as [Hm1 Hm2].
  unfold round_pos at 2 3.
  set (m := rne (x / pow2 (ilog2 x - 52))) in *.
  set (e := (ilog2 x - 52)%Z) in *.
  destruct (Z.eq_dec m (2 ^ 53)%Z) as [Heq|Hne].
  - assert (Hr : (inject_Z m * pow2 e == inject_Z (2 ^ 52) * pow2 (e + 1))%Q).
    { rewrite Heq, pow2_succ.
      change (inject_Z (2 ^ 53)) with (2 * inject_Z (2 ^ 52))%Q. ring. }
    pose proof (pow2_pos (e + 1)).
    assert (Hpos : (0 < inject_Z m * pow2 e)%Q).
    { rewrite Hr. apply Qmult_lt_0_compat; [reflexivity|done]. }
    rewrite (round_pos_comp _ _ Hpos Hr), Hr. apply round_pos_exact. lia.
  - apply round_pos_exact. lia.
Qed.

Lemma fl_pos (x : Q) : (0 < x)%Q → fl x = round_pos x.
Proof.
  intros Hx. unfold fl.
  destruct (Qcompare_spec x 0) as [H|H|H]; [lra|lra|done].
Qed.

Lemma fl_zero (x : Q) : (x == 0)%Q → fl x = 0%Q.
Proof.
  intros Hx. unfold fl.
  destruct (Qcompare_spec x 0) as [H|H|H]; [done|lra|lra].
Qed.

Lemma fl_comp (x y : Q) : (0 <= x)%Q → (x == y)%Q → (fl x == fl y)%Q.
Proof.
  intros Hx Hxy. destruct (Qlt_le_dec 0 x) as [Hpos|Hle].
  - rewrite !fl_pos by lra. by apply round_pos_comp.
  - rewrite !fl_zero by lra. reflexivity.
Qed.

Lemma fl_pos_pos (x : Q) : (0 < x)%Q → (0 < fl x)%Q.
Proof. intros Hx. rewrite fl_pos by done. by apply round_pos_pos. Qed.

Lemma fl_nonneg (x : Q) : (0 <= x)%Q → (0 <= fl x)%Q.
Proof.
  intros Hx. destruct (Qlt_le_dec 0 x) as [Hpos|Hle].
  - apply Qlt_le_weak. by apply fl_pos_pos.
  - rewrite fl_zero by lra. apply Qle_refl.
Qed.

(** The rounding of a non-negative number is off by at most a relative
    [2^-53]. *)
Lemma fl_bounds (x : Q) :
  (0 <= x)%Q →
  ((1 - unit_roundoff) * x <= fl x)%Q ∧ (fl x <= (1 + unit_roundoff) * x)%Q.
Proof.
  intros Hx. destruct (Qlt_le_dec 0 x) as [Hpos|Hle].
  - rewrite fl_pos by done. pose proof (round_pos_err x Hpos) as He.
    apply Qabs_Qle_condition in He as [He1 He2]. split; lra.
  - rewrite fl_zero by lra. assert (x == 0)%Q as -> by lra. split; lra.
Qed.

Lemma fl_mono (x y : Q) : (0 <= x)%Q → (x <= y)%Q → (fl x <= fl y)%Q.
Proof.
  intros Hx Hxy. destruct (Qlt_le_dec 0 x) as [Hpos|Hle].
  - rewrite !fl_pos by lra. by apply round_pos_mono.
  - rewrite (fl_zero x) by lra. apply fl_nonneg. lra.
Qed.

Lemma fl_idem (x : Q) : (0 <= x)%Q → (fl (fl x) == fl x)%Q.
Proof.
  intros Hx. destruct (Qlt_le_dec 0 x) as [Hpos|Hle].
  - rewrite (fl_pos (fl x)) by (by apply fl_pos_pos).
    rewrite fl_pos by done. by apply round_pos_idem.
  - rewrite (fl_zero x) by lra. reflexivity.
Qed.

Lemma fl_one : (fl 1 == 1)%Q.
Proof. reflexivity. Qed.

(** A float64: a non-negative number that is its own rounding. *)
Lemma fl_ge_float (c x : Q) :
  (0 <= c)%Q → (fl c == c)%Q → (c <= x)%Q → (c <= fl x)%Q.
Proof. intros Hc Hfl Hcx. rewrite <- Hfl. by apply fl_mono. Qed.

Lemma fl_le_float (c x : Q) :
  (0 <= x)%Q → (fl c == c)%Q → (x <= c)%Q → (fl x <= c)%Q.
Proof. intros Hx Hfl Hcx. rewrite <- Hfl. by apply fl_mono. Qed.

Lemma Qdiv_nonneg (x y : Q) : (0 <= x)%Q → (0 < y)%Q → (0 <= x / y)%Q.
Proof. intros Hx Hy. apply Qle_shift_div_l; [done|]. lra. Qed.

Lemma Qdiv_le_1 (x y : Q) : (x <= y)%Q → (0 < y)%Q → (x / y <= 1)%Q.
Proof. intros Hx Hy. apply Qle_shift_div_r; [done|]. lra. Qed.

(** ** Relative error *)

Lemma unit_roundoff_bounds : (0 < unit_roundoff)%Q ∧ (unit_roundoff < 1)%Q.
Proof. split; reflexivity. Qed.

Lemma within_fl (x : Q) :
  (0 <= x)%Q → within (1 - unit_roundoff) (1 + unit_roundoff) (fl x) x.
Proof. apply fl_bounds. Qed.

Lemma within_trans (l1 h1 l2 h2 x y z : Q) :
  (0 <= l1)%Q → (0 <= h1)%Q →
  within l1 h1 x y → within l2 h2 y z → within (l1 * l2) (h1 * h2) x z.
Proof.
  intros Hl1 Hh1 [Hxl Hxh] [Hyl Hyh]. split.
  - assert (0 <= l1 * (y - l2 * z))%Q by (apply Qmult_le_0_compat; lra). lra.
  - assert (0 <= h1 * (h2 * z - y))%Q by (apply Qmult_le_0_compat; lra). lra.
Qed.

Lemma within_weaken (l h l' h' x y : Q) :
  (0 <= y)%Q → (l' <= l)%Q → (h <= h')%Q → within l h x y → within l' h' x y.
Proof.
  intros Hy Hl Hh [Hxl Hxh]. split.
  - assert (0 <= (l - l') * y)%Q by (apply Qmult_le_0_compat; lra). lra.
  - assert (0 <= (h' - h) * y)%Q by (apply Qmult_le_0_compat; lra). lra.
Qed.

Lemma within_div (l1 h1 l2 h2 x x' y y' : Q) :
  (0 <= l1)%Q → (0 < l2)%Q → (0 <= x')%Q → (0 < y')%Q →
  within l1 h1 x x' → within l2 h2 y y' →
  within (l1 / h2) (h1 / l2) (x / y) (x' / y').
Proof.
  intros Hl1 Hl2 Hx' Hy' [Hxl Hxh] [Hyl Hyh].
  assert (Hly : (0 < l2 * y')%Q) by (apply Qmult_lt_0_compat; lra).
  assert (Hy : (0 < y)%Q) by lra.
  assert (Hh2 : (0 < h2)%Q).
  { destruct (Qlt_le_dec 0 h2) as [|Hle]; [done|]. exfalso.
    assert (0 <= (- h2) * y')%Q by (apply Qmult_le_0_compat; lra). lra. }
  assert (Hlx : (0 <= l1 * x')%Q) by (apply Qmult_le_0_compat; lra).
  assert (Hc : (0 < h2 * y' * y)%Q) by (repeat apply Qmult_lt_0_compat; lra).
  assert (Hd : (0 < l2 * y' * y)%Q) by (repeat apply Qmult_lt_0_compat; lra).
  split.
  - apply (Qmult_le_r _ _ _ Hc).
    assert (E1 : (l1 / h2 * (x' / y') * (h2 * y' * y) == l1 * x' * y)%Q)
      by (field; split; lra).
    assert (E2 : (x / y * (h2 * y' * y) == x * (h2 * y'))%Q) by (field; lra).
    rewrite E1, E2.
    assert (0 <= (x - l1 * x') * y)%Q by (apply Qmult_le_0_compat; lra).
    assert (0 <= x * (h2 * y' - y))%Q by (apply Qmult_le_0_compat; lra).
    lra.
  - apply (Qmult_le_r _ _ _ Hd).
    assert (E1 : (h1 / l2 * (x' / y') * (l2 * y' * y) == h1 * x' * y)%Q)
      by (field; split; lra).
    assert (E2 : (x / y * (l2 * y' * y) == x * (l2 * y'))%Q) by (field; lra).
    rewrite E1, E2.
    assert (0 <= x * (y - l2 * y'))%Q by (apply Qmult_le_0_compat; lra).
    assert (0 <= (h1 * x' - x) * y)%Q by (apply Qmult_le_0_compat; lra).
    lra.
Qed.

Lemma within_py_sum (l h : Q) (xs ys : list Q) :
  Forall2 (within l h) xs ys → within l h (py_sum xs) (py_sum ys).
Proof.
  induction 1 as [|x y xs ys [Hxl Hxh] _ [IHl IHh]].
  - unfold within, py_sum. simpl. split; lra.
  - unfold within. rewrite !py_sum_cons. split; lra.
Qed.

(** An amount within a factor close to 1 of a part [q] of the whole is
    within the tolerance of [q]. *)
Lemma within_close (l h eps x q : Q) :
  (0 <= eps)%Q → (0 <= q)%Q → (q <= 1)%Q → (1 - eps <= l)%Q → (h <= 1 + eps)%Q →
  within l h x q → (Qabs (x - q) <= eps)%Q.
Proof.
  intros He Hq0 Hq1 Hl Hh [Hxl Hxh]. apply Qabs_Qle_condition.
  assert (0 <= (l - (1 - eps)) * q)%Q by (apply Qmult_le_0_compat; lra).
  assert (0 <= (1 + eps - h) * q)%Q by (apply Qmult_le_0_compat; lra).
  assert (0 <= eps * (1 - q))%Q by (apply Qmult_le_0_compat; lra).
  split; lra.
Qed.

(** ** The rounded sum *)

(** The rounded sum of non-negative float64 values is a float64 no smaller
    than its start and than each of its terms. *)
Lemma fold_fl_float (l : list Q) :
  ∀ a, (0 <= a)%Q → (fl a == a)%Q →
       Forall (λ c, (0 <= c)%Q ∧ (fl c == c)%Q) l →
       let F := fold_left (λ a b, fl (a + b)%Q) l a in
       (0 <= F)%Q ∧ (fl F == F)%Q ∧ (a <= F)%Q ∧ Forall (λ c, (c <= F)%Q) l.
Proof.
  induction l as [|c l IH]; intros a Ha Hfa Hl; simpl.
  - repeat split; [done|done|lra|constructor].
  - apply Forall_cons in Hl as [[Hc Hfc] Hl].
    assert (Hac : (0 <= a + c)%Q) by lra.
    destruct (IH (fl (a + c)%Q)) as (HF0 & HFfl & HaF & HlF);
      [by apply fl_nonneg|by apply fl_idem|done|].
    assert (Ha' : (a <= fl (a + c))%Q) by (apply fl_ge_float; [done|done|lra]).
    assert (Hc' : (c <= fl (a + c))%Q) by (apply fl_ge_float; [done|done|lra]).
    repeat split; [done|done|lra|]. constructor; [lra|done].
Qed.

(** Each of the [k] additions loses or gains at most a relative [2^-53]. *)
Lemma fold_fl_within (l : list Q) :
  ∀ a, (0 <= a)%Q → Forall (λ c, (0 <= c)%Q) l →
       let w := (inject_Z (Z.of_nat (length l)) * unit_roundoff)%Q in
       (w <= 1 # 2)%Q →
       within (1 - w) (1 + 2 * w) (fold_left (λ a b, fl (a + b)%Q) l a)
         (a + py_sum l).
Proof.
  pose proof unit_roundoff_bounds as [Hu0 Hu1].
  induction l as [|c l IH]; intros a Ha Hl w Hw.
  - assert (Hw0 : (w == 0)%Q) by (unfold w; simpl; ring).
    unfold within, py_sum. rewrite Hw0. simpl. split; lra.
  - apply Forall_cons in Hl as [Hc Hl].
    set (w' := (inject_Z (Z.of_nat (length l)) * unit_roundoff)%Q).
    assert (Hww : (w == w' + unit_roundoff)%Q).
    { unfold w, w'. cbn [length]. rewrite Nat2Z.inj_succ, <- Z.add_1_r.
      rewrite inject_Z_plus. change (inject_Z 1) with 1%Q. ring. }
    assert (Hw'0 : (0 <= w')%Q).
    { unfold w'. apply Qmult_le_0_compat; [|lra].
      change 0%Q with (inject_Z 0). rewrite <- Zle_Qle. lia. }
    pose proof (py_sum_nonneg l Hl) as Hs.
    destruct (fl_bounds (a + c)%Q) as [Hb1 Hb2]; [lra|].
    destruct (IH (fl (a + c)%Q)) as [I1 I2];
      [apply fl_nonneg; lra|done|fold w'; lra|]. fold w' in I1, I2.
    cbn [fold_left]. unfold within. rewrite py_sum_cons.
    set (F := fold_left (λ a b, fl (a + b)%Q) l (fl (a + c)%Q)) in *.
    clearbody F. set (a' := fl (a + c)%Q) in *. clearbody a'.
    set (C := py_sum l) in *. clearbody C.
    assert (Hw'1 : (w' + unit_roundoff <= 1 # 2)%Q) by lra.
    rewrite Hww. clearbody w'. clear Hww Hw IH.
    assert (P1 : (0 <= (1 - w') * (a' + C - (1 - unit_roundoff) * (a + c + C)))%Q).
    { apply Qmult_le_0_compat; [lra|].
      assert (0 <= unit_roundoff * C)%Q by (apply Qmult_le_0_compat; lra). lra. }
    assert (P2 : (0 <= w' * unit_roundoff * (a + c + C))%Q).
    { repeat apply Qmult_le_0_compat; lra. }
    assert (P3 : (0 <= (1 + 2 * w') * ((1 + unit_roundoff) * (a + c + C) - (a' + C)))%Q).
    { apply Qmult_le_0_compat; [lra|].
      assert (0 <= unit_roundoff * C)%Q by (apply Qmult_le_0_compat; lra). lra. }
    assert (P4 : (0 <= unit_roundoff * (1 - 2 * w') * (a + c + C))%Q).
    { repeat apply Qmult_le_0_compat; lra. }
    split; lra.
Qed.

Lemma float_sum_float (l : list Q) :
  Forall (λ c, (0 <= c)%Q ∧ (fl c == c)%Q) l →
  (0 <= float_sum l)%Q ∧ Forall (λ c, (c <= float_sum l)%Q) l.
Proof.
  intros Hl. destruct (fold_fl_float l 0%Q) as (H0 & _ & _ & Hall);
    [lra|reflexivity|done|]. done.
Qed.

Lemma float_sum_within (l : list Q) :
  Forall (λ c, (0 <= c)%Q) l → (Z.of_nat (length l) ≤ 1000000)%Z →
  within (1 - 1000000 * unit_roundoff) (1 + 2 * (1000000 * unit_roundoff))
    (float_sum l) (py_sum l).
Proof.
  intros Hl Hlen. pose proof unit_roundoff_bounds as [Hu0 Hu1].
  assert (Hn : (inject_Z (Z.of_nat (length l)) <= 1000000)%Q).
  { change 1000000%Q with (inject_Z 1000000). rewrite <- Zle_Qle. lia. }
  assert (Hn0 : (0 <= inject_Z (Z.of_nat (length l)))%Q).
  { change 0%Q with (inject_Z 0). rewrite <- Zle_Qle. lia. }
  pose proof (fold_fl_within l 0%Q (Qle_refl 0) Hl) as Hin. cbv zeta in Hin.
  set (n := inject_Z (Z.of_nat (length l))) in *. clearbody n.
  assert (Hw : (n * unit_roundoff <= 1000000 * unit_roundoff)%Q).
  { apply Qmult_le_compat_r; lra. }
  assert (Hw0 : (0 <= n * unit_roundoff)%Q) by (apply Qmult_le_0_compat; lra).
  assert (Hsmall : (1000000 * unit_roundoff <= 1 # 2)%Q) by (vm_compute; discriminate).
  destruct Hin as [Hin1 Hin2]; [lra|].
  unfold float_sum.
  assert (Hsum : (0 + py_sum l == py_sum l)%Q) by ring.
  rewrite Hsum in Hin1, Hin2.
  eapply within_weaken; [by apply py_sum_nonneg| | |split; [exact Hin1|exact Hin2]]; lra.
Qed.

(** ** The shares as numbers *)

Lemma within_comp (l h x x' y y' : Q) :
  (x == x')%Q → (y == y')%Q → within l h x y → within l h x' y'.
Proof. intros Hx Hy [H1 H2]. unfold within. rewrite <- Hx, <- Hy. done. Qed.

Lemma agent_power_proportion_finite date_in t agent :
  ¬ (t == 0)%Q →
  agent_power_proportion date_in (Finite t) agent
  = Finite (capped_proportion date_in t agent).
Proof.
  intros Ht. unfold agent_power_proportion, capped_proportion, np_divide, min_one.
  destruct (Qeq_bool t 0) eqn:Hb; [|done].
  apply Qeq_bool_iff in Hb. done.
Qed.

Lemma np_sum_finite (l : list Q) : np_sum (Finite <$> l) = Finite (float_sum l).
Proof.
  unfold np_sum, float_sum. generalize 0%Q.
  induction l as [|c l IH]; intros a; [done|]. simpl. apply IH.
Qed.

Lemma np_divide_finite (S : Q) (cs : list Q) :
  ¬ (S == 0)%Q →
  (λ p, np_divide p (Finite S)) <$> (Finite <$> cs)
  = Finite <$> ((λ c, fl (c / S)) <$> cs).
Proof.
  intros HS. rewrite <- !list_fmap_compose. apply list_fmap_ext.
  intros i c _. simpl. destruct (Qeq_bool S 0) eqn:Hb; [|done].
  apply Qeq_bool_iff in Hb. done.
Qed.

(** The capped proportion of a non-negative power is a float64 between 0
    and 1, and positive if the power is. *)
Lemma capped_proportion_float date_in t agent :
  (0 < t)%Q → (0 <= get_active_qa_power_at_date agent date_in)%Q →
  let c := capped_proportion date_in t agent in
  (0 <= c)%Q ∧ (c <= 1)%Q ∧ (fl c == c)%Q ∧
  ((0 < get_active_qa_power_at_date agent date_in)%Q → (0 < c)%Q).
Proof.
  intros Ht Hp. unfold capped_proportion. pose proof PIB_pos as HPIB.
  set (a := (get_active_qa_power_at_date agent date_in * PIB)%Q).
  assert (Ha : (0 <= a)%Q) by (apply Qmult_le_0_compat; lra).
  pose proof (fl_nonneg a Ha) as Hfa.
  assert (Hq : (0 <= fl a / t)%Q) by (by apply Qdiv_nonneg).
  pose proof (fl_nonneg _ Hq) as Hx.
  assert (Hpos : (0 < get_active_qa_power_at_date agent date_in)%Q →
                 (0 < fl (fl a / t))%Q).
  { intros Hp'. apply fl_pos_pos. apply Qlt_shift_div_l; [done|].
    assert (0 < fl a)%Q; [|lra]. apply fl_pos_pos.
    apply Qmult_lt_0_compat; lra. }
  cbv zeta. destruct (Qlt_le_dec 1 (fl (fl a / t))) as [Hgt|Hle].
  - split; [lra|]. split; [lra|]. split; [apply fl_one|lra].
  - split; [done|]. split; [done|]. split; [by apply fl_idem|done].
Qed.

(** Below the cap, the capped proportion is the exact proportion up to
    three roundings. *)
Lemma capped_proportion_within date_in tau agent :
  (0 < tau)%Q → (0 <= get_active_qa_power_at_date agent date_in)%Q →
  (get_active_qa_power_at_date agent date_in * PIB <= tau)%Q →
  within ((1 - unit_roundoff) * ((1 - unit_roundoff) / (1 + unit_roundoff)))
         ((1 + unit_roundoff) * ((1 + unit_roundoff) / (1 - unit_roundoff)))
         (capped_proportion date_in (fl tau) agent)
         (get_active_qa_power_at_date agent date_in * PIB / tau).
Proof.
  intros Ht Hp Hcap. pose proof PIB_pos as HPIB.
  pose proof unit_roundoff_bounds as [Hu0 Hu1].
  unfold capped_proportion.
  set (a := (get_active_qa_power_at_date agent date_in * PIB)%Q) in *.
  assert (Ha : (0 <= a)%Q) by (apply Qmult_le_0_compat; lra).
  assert (Hq : within ((1 - unit_roundoff) / (1 + unit_roundoff))
                      ((1 + unit_roundoff) / (1 - unit_roundoff))
                      (fl a / fl tau) (a / tau)).
  { apply within_div; [lra|lra|done|done|by apply within_fl|apply within_fl; lra]. }
  assert (Hr0 : (0 <= a / tau)%Q) by (by apply Qdiv_nonneg).
  assert (Hr1 : (a / tau <= 1)%Q) by (by apply Qdiv_le_1).
  assert (Hq0 : (0 <= fl a / fl tau)%Q).
  { apply Qdiv_nonneg; [by apply fl_nonneg|by apply fl_pos_pos]. }
  assert (Hl1 : (0 <= 1 - unit_roundoff)%Q) by lra.
  assert (Hh1 : (0 <= 1 + unit_roundoff)%Q) by lra.
  pose proof (within_trans _ _ _ _ _ _ _ Hl1 Hh1 (within_fl _ Hq0) Hq)
    as [Hx1 Hx2].
  destruct (Qlt_le_dec 1 (fl (fl a / fl tau))) as [Hgt|Hle]; [|by split].
  split; [|lra].
  assert (Hlo : ((1 - unit_roundoff) * ((1 - unit_roundoff) / (1 + unit_roundoff))
                 <= 1)%Q) by (vm_compute; discriminate).
  assert (0 <= (1 - (1 - unit_roundoff) * ((1 - unit_roundoff) / (1 + unit_roundoff)))
               * (a / tau))%Q by (apply Qmult_le_0_compat; lra).
  lra.
Qed.

Lemma get_agent_power_proportion_finite df agents day_idx total_qa_power_eib :
  iloc df day_idx "total_qa_power_eib" = Some total_qa_power_eib →
  let t := fl (total_qa_power_eib * EIB) in
  let capped := capped_proportion day_idx t <$> agents in
  let shares := (λ c, fl (c / float_sum capped)) <$> capped in
  ¬ (t == 0)%Q → ¬ (float_sum capped == 0)%Q →
  _get_agent_power_proportion df agents day_idx
  = Some (Finite <$> shares,
          fold_left (λ (m : gmap nat float64) iv, <[iv.1 := iv.2]> m)
            (zip (unique_id <$> agents) (Finite <$> shares)) ∅).
Proof.
  intros HT t capped shares Ht HS.
  pose proof HT as [Hlt _]%iloc_Some.
  unfold _get_agent_power_proportion.
  rewrite (proj2 (iloc_date_Some df day_idx day_idx)) by done. simpl.
  rewrite HT. simpl. fold t.
  assert (Hprops : agent_power_proportion day_idx (Finite t) <$> agents
                   = Finite <$> capped).
  { unfold capped. rewrite <- list_fmap_compose. apply list_fmap_ext.
    intros i agent _. by apply agent_power_proportion_finite. }
  rewrite Hprops, np_sum_finite, np_divide_finite by done. done.
Qed.

Lemma shares_in_unit (S : Q) (cs : list Q) :
  (0 < S)%Q → Forall (λ c, (0 <= c)%Q ∧ (c <= S)%Q) cs →
  Forall (λ share, (0 <= share)%Q ∧ (share <= 1)%Q) ((λ c, fl (c / S)) <$> cs).
Proof.
  intros HS Hcs. apply Forall_fmap. eapply Forall_impl; [exact Hcs|].
  intros c [Hc0 HcS]. simpl.
  assert (H0 : (0 <= c / S)%Q) by (by apply Qdiv_nonneg).
  assert (H1 : (c / S <= 1)%Q) by (by apply Qdiv_le_1).
  split; [by apply fl_nonneg|]. apply fl_le_float; [done|apply fl_one|done].
Qed.

Lemma shares_within_quotients (S : Q) (cs : list Q) :
  (0 < S)%Q → Forall (λ c, (0 <= c)%Q) cs →
  Forall2 (within (1 - unit_roundoff) (1 + unit_roundoff))
    ((λ c, fl (c / S)) <$> cs) ((λ c, (c / S)%Q) <$> cs).
Proof.
  intros HS Hcs. apply Forall2_fmap, Forall_Forall2_diag.
  eapply Forall_impl; [exact Hcs|]. intros c Hc. simpl.
  apply within_fl. by apply Qdiv_nonneg.
Qed.

Lemma py_sum_quotients (S : Q) (cs : list Q) :
  (py_sum ((λ c, (c / S)%Q) <$> cs) == py_sum cs / S)%Q.
Proof.
  assert (H : (py_sum ((λ c, (c / S)%Q) <$> cs) == / S * py_sum cs)%Q).
  { apply py_sum_scaled. apply Forall2_fmap_r, Forall_Forall2_diag, Forall_forall.
    intros c _. simpl. unfold Qdiv. ring. }
  rewrite H. unfold Qdiv. ring.
Qed.

(** The shares sum to 1 within the tolerance when the rounded sum of the
    capped proportions is within [10^6] roundings of their sum. *)
Lemma shares_sum_close (S : Q) (cs : list Q) :
  (0 < S)%Q → Forall (λ c, (0 <= c)%Q) cs →
  within (1 - 1000000 * unit_roundoff) (1 + 2 * (1000000 * unit_roundoff))
    S (py_sum cs) →
  (Qabs (py_sum ((λ c, fl (c / S)) <$> cs) - 1) <= share_tolerance)%Q.
Proof.
  intros HS Hcs HSC. pose proof unit_roundoff_bounds as [Hu0 Hu1].
  assert (Hsmall : (1000000 * unit_roundoff <= 1 # 2)%Q) by (vm_compute; discriminate).
  pose proof (py_sum_nonneg cs Hcs) as HC0.
  assert (HC : (0 < py_sum cs)%Q).
  { destruct HSC as [_ Hhi]. destruct (Qlt_le_dec 0 (py_sum cs)) as [|Hle]; [done|].
    exfalso. assert (py_sum cs == 0)%Q as Hz by lra. rewrite Hz in Hhi. lra. }
  pose proof (within_py_sum _ _ _ _ (shares_within_quotients S cs HS Hcs)) as Hsum.
  apply (within_comp _ _ _ _ _ _ (Qeq_refl _) (py_sum_quotients S cs)) in Hsum.
  assert (Hone : within 1 1 (py_sum cs) (py_sum cs)) by (split; lra).
  assert (Hl0 : (0 <= 1)%Q) by lra.
  assert (Hl2 : (0 < 1 - 1000000 * unit_roundoff)%Q) by lra.
  pose proof (within_div _ _ _ _ _ _ _ _ Hl0 Hl2 HC0 HC Hone HSC) as Hquot.
  assert (Hl1 : (0 <= 1 - unit_roundoff)%Q) by lra.
  assert (Hh1 : (0 <= 1 + unit_roundoff)%Q) by lra.
  pose proof (within_trans _ _ _ _ _ _ _ Hl1 Hh1 Hsum Hquot) as Hall.
  assert (Hcc : (py_sum cs / py_sum cs == 1)%Q) by (field; lra).
  apply (within_comp _ _ _ _ _ _ (Qeq_refl _) Hcc) in Hall.
  eapply within_close; [| | | | |exact Hall]; vm_compute; discriminate.
Qed.

Lemma active_qa_total_bounds date_in agents :
  Forall (λ agent, (0 <= get_active_qa_power_at_date agent date_in)%Q) agents →
  (0 <= active_qa_total date_in agents)%Q ∧
  Forall (λ agent, (get_active_qa_power_at_date agent date_in
                    <= active_qa_total date_in agents)%Q) agents.
Proof.
  intros Hp. unfold active_qa_total.
  assert (Hall : Forall (λ x, (0 <= x)%Q)
                   (map (λ agent, get_active_qa_power_at_date agent date_in) agents)).
  { by apply Forall_fmap. }
  split; [by apply py_sum_nonneg|]. apply Forall_forall. intros agent Hin.
  apply py_sum_ge_elem; [done|].
  by apply (list_elem_of_fmap_2 (λ agent, get_active_qa_power_at_date agent date_in)).
Qed.

(** When no power exceeds the network total, a share is the agent's part of
    the whole power within the tolerance. *)
Lemma shares_close_to_exact date_in tau agents :
  (0 < tau)%Q →
  Forall (λ agent, (0 <= get_active_qa_power_at_date agent date_in)%Q) agents →
  Exists (λ agent, (0 < get_active_qa_power_at_date agent date_in)%Q) agents →
  Forall (λ agent, (get_active_qa_power_at_date agent date_in * PIB <= tau)%Q) agents →
  (Z.of_nat (length agents) ≤ 1000000)%Z →
  let capped := capped_proportion date_in (fl tau) <$> agents in
  (0 < float_sum capped)%Q →
  Forall (λ agent,
      (Qabs (fl (capped_proportion date_in (fl tau) agent / float_sum capped)
             - get_active_qa_power_at_date agent date_in
               / active_qa_total date_in agents) <= share_tolerance)%Q) agents.
Proof.
  intros Htau Hp Hex Hcap Hlen capped HS.
  pose proof PIB_pos as HPIB. pose proof unit_roundoff_bounds as [Hu0 Hu1].
  set (rlo := ((1 - unit_roundoff) * ((1 - unit_roundoff) / (1 + unit_roundoff)))%Q).
  set (rhi := ((1 + unit_roundoff) * ((1 + unit_roundoff) / (1 - unit_roundoff)))%Q).
  set (W := (1000000 * unit_roundoff)%Q).
  assert (Hrlo : (0 < rlo)%Q) by (vm_compute; reflexivity).
  assert (HW : (0 < 1 - W)%Q) by (vm_compute; reflexivity).
  assert (HW2 : (0 <= 1 + 2 * W)%Q) by (vm_compute; discriminate).
  destruct (active_qa_total_bounds date_in agents Hp) as [HP0 HPge].
  set (P := active_qa_total date_in agents) in *.
  assert (HP : (0 < P)%Q).
  { apply Exists_exists in Hex as (agent & Hin & Hpos).
    pose proof (proj1 (Forall_forall _ _) HPge agent Hin). simpl in *. lra. }
  set (rs := (λ agent, (get_active_qa_power_at_date agent date_in * PIB / tau)%Q)
               <$> agents).
  assert (Hcr : Forall2 (within rlo rhi) capped rs).
  { unfold capped, rs. apply Forall2_fmap, Forall_Forall2_diag, Forall_forall.
    intros agent Hin. apply capped_proportion_within; [done| |].
    - by apply (proj1 (Forall_forall _ _) Hp).
    - by apply (proj1 (Forall_forall _ _) Hcap). }
  pose proof (within_py_sum _ _ _ _ Hcr) as HCR.
  assert (HR : (py_sum rs == PIB / tau * P)%Q).
  { unfold rs, P, active_qa_total. apply py_sum_scaled.
    apply Forall2_fmap, Forall_Forall2_diag, Forall_forall.
    intros agent _. simpl. field. lra. }
  assert (Hk : (0 < PIB / tau)%Q) by (apply Qlt_shift_div_l; lra).
  assert (HRpos : (0 < py_sum rs)%Q).
  { rewrite HR. by apply Qmult_lt_0_compat. }
  assert (Hc0 : Forall (λ c, (0 <= c)%Q) capped).
  { unfold capped. apply Forall_fmap. eapply Forall_impl; [exact Hp|].
    intros agent Hpa. simpl.
    apply (capped_proportion_float date_in (fl tau) agent); [|done].
    by apply fl_pos_pos. }
  assert (HSC : within (1 - W) (1 + 2 * W) (float_sum capped) (py_sum capped)).
  { apply float_sum_within; [done|]. unfold capped. by rewrite length_fmap. }
  pose proof (within_trans _ _ _ _ _ _ _ (Qlt_le_weak _ _ HW) HW2 HSC HCR) as HSR.
  assert (Hden : (0 < (1 - W) * rlo)%Q) by (by apply Qmult_lt_0_compat).
  apply Forall_forall. intros agent Hin.
  pose proof (proj1 (Forall_forall _ _) Hp agent Hin) as Hpa.
  pose proof (proj1 (Forall_forall _ _) Hcap agent Hin) as Hca.
  pose proof (proj1 (Forall_forall _ _) HPge agent Hin) as Hle.
  simpl in Hpa, Hca, Hle.
  set (p := get_active_qa_power_at_date agent date_in) in *.
  assert (Hr0 : (0 <= p * PIB / tau)%Q).
  { apply Qdiv_nonneg; [|done]. apply Qmult_le_0_compat; lra. }
  pose proof (capped_proportion_within date_in tau agent Htau Hpa Hca) as Hc.
  fold p rlo rhi in Hc.
  pose proof (within_div _ _ _ _ _ _ _ _ (Qlt_le_weak _ _ Hrlo) Hden Hr0 HRpos Hc HSR)
    as Hq.
  assert (Hq0 : (0 <= capped_proportion date_in (fl tau) agent / float_sum capped)%Q).
  { apply Qdiv_nonneg; [|done].
    by apply (proj1 (Forall_forall _ _) Hc0), list_elem_of_fmap_2. }
  assert (Hl1 : (0 <= 1 - unit_roundoff)%Q) by lra.
  assert (Hh1 : (0 <= 1 + unit_roundoff)%Q) by lra.
  pose proof (within_trans _ _ _ _ _ _ _ Hl1 Hh1 (within_fl _ Hq0) Hq) as Hs.
  assert (Hpart : (p * PIB / tau / py_sum rs == p / P)%Q).
  { rewrite HR. field. repeat split; lra. }
  apply (within_comp _ _ _ _ _ _ (Qeq_refl _) Hpart) in Hs.
  eapply within_close; [| | | | |exact Hs].
  - vm_compute. discriminate.
  - by apply Qdiv_nonneg.
  - by apply Qdiv_le_1.
  - vm_compute. discriminate.
  - vm_compute. discriminate.
Qed.

(** C7 (amended).  On a day whose recorded network power is positive, with
    non-negative agent powers of which one is positive and at most [10^6]
    agents, [_get_agent_power_proportion] returns numbers: the share of an
    agent is its capped proportion [min(power / network total, 1.0)] divided
    by the rounded sum of the capped proportions, every operation rounding
    to float64.  Every share is in [0,1]; the shares sum to 1 within [1e-9],
    not exactly; and when no agent's power exceeds the recorded network
    total a share is the agent's power over the sum of all agents' power
    within [1e-9]. *)
Theorem power_shares_normalized df agents day_idx total_qa_power_eib :
  iloc df day_idx "total_qa_power_eib" = Some total_qa_power_eib →
  (0 < total_qa_power_eib)%Q →
  Forall (λ agent, (0 <= get_active_qa_power_at_date agent day_idx)%Q) agents →
  Exists (λ agent, (0 < get_active_qa_power_at_date agent day_idx)%Q) agents →
  (Z.of_nat (length agents) ≤ 1000000)%Z →
  ∃ shares dict,
    _get_agent_power_proportion df agents day_idx = Some (Finite <$> shares, dict) ∧
    (let capped :=
       capped_proportion day_idx (fl (total_qa_power_eib * EIB)) <$> agents in
     shares = (λ c, fl (c / float_sum capped)) <$> capped) ∧
    Forall (λ share, (0 <= share)%Q ∧ (share <= 1)%Q) shares ∧
    (Qabs (py_sum shares - 1) <= share_tolerance)%Q ∧
    (Forall (λ agent,
        (get_active_qa_power_at_date agent day_idx * PIB
         <= total_qa_power_eib * EIB)%Q) agents →
     Forall2 (λ agent share,
        (Qabs (share - get_active_qa_power_at_date agent day_idx
                       / active_qa_total day_idx agents) <= share_tolerance)%Q)
       agents shares).
Proof.
  intros HT HTpos Hp Hex Hlen. pose proof EIB_pos as HEIB.
  set (tau := (total_qa_power_eib * EIB)%Q).
  assert (Htau : (0 < tau)%Q) by (by apply Qmult_lt_0_compat).
  pose proof (fl_pos_pos tau Htau) as Ht.
  set (capped := capped_proportion day_idx (fl tau) <$> agents).
  assert (Hfloat : Forall (λ c, (0 <= c)%Q ∧ (fl c == c)%Q) capped).
  { unfold capped. apply Forall_fmap. eapply Forall_impl; [exact Hp|].
    intros agent Hpa. simpl.
    destruct (capped_proportion_float day_idx (fl tau) agent Ht Hpa)
      as (H0 & _ & Hfl & _). done. }
  destruct (float_sum_float capped Hfloat) as [HS0 HSge].
  assert (HS : (0 < float_sum capped)%Q).
  { apply Exists_exists in Hex as (agent & Hin & Hpos).
    pose proof (proj1 (Forall_forall _ _) Hp agent Hin) as Hpa. simpl in Hpa.
    destruct (capped_proportion_float day_idx (fl tau) agent Ht Hpa)
      as (_ & _ & _ & Hcpos).
    assert (Hle : (capped_proportion day_idx (fl tau) agent <= float_sum capped)%Q).
    { apply (proj1 (Forall_forall _ _) HSge). by apply list_elem_of_fmap_2. }
    specialize (Hcpos Hpos). lra. }
  assert (Hc0 : Forall (λ c, (0 <= c)%Q) capped).
  { eapply Forall_impl; [exact Hfloat|]. by intros c [? _]. }
  eexists _, _. split.
  { apply (get_agent_power_proportion_finite _ _ _ _ HT).
    - exact (Qnot_eq_sym _ _ (Qlt_not_eq _ _ Ht)).
    - exact (Qnot_eq_sym _ _ (Qlt_not_eq _ _ HS)). }
  split; [done|]. fold tau capped. split.
  - apply shares_in_unit; [done|].
    apply Forall_forall. intros c Hin. split.
    + by apply (proj1 (Forall_forall _ _) Hc0).
    + by apply (proj1 (Forall_forall _ _) HSge).
  - split.
    + apply shares_sum_close; [done|done|].
      apply float_sum_within; [done|]. unfold capped. by rewrite length_fmap.
    + intros Hcap. unfold capped at 2. rewrite <- list_fmap_compose.
      apply Forall2_fmap_r, Forall_Forall2_diag.
      by apply shares_close_to_exact.
Qed.
(** C1 (amended).  Crediting an agent the reward [R = total * ratio] on a
    day of its ledger always returns: a quarter of [R] is added to
    [reward_FIL] on that day and a 180th of the rest on each of the next 180
    days that are rows of the ledger; installments that fall after the last
    row are dropped, the ledger is not extended and nothing is raised. *)
Theorem vesting_credit_truncated_silently date_in total agent ratio :
  (date_in < nrows (accounting_df agent))%nat →
  is_Some (loc (accounting_df agent) date_in "reward_FIL") →
  is_Some (loc (accounting_df agent) date_in "full_reward_for_power_FIL") →
  ∃ agent',
    update_agent date_in total agent ratio = Some agent' ∧
    vesting_credited date_in (total * ratio)
      (accounting_df agent) (accounting_df agent').
Proof.
  intros Hlt [old Hold] [full Hfull].
  assert (Hrun : is_Some (update_agent date_in total agent ratio)).
  { unfold update_agent, index_of_date. rewrite option_guard_True by done. simpl.
    unfold add_loc at 2. rewrite Hold. simpl.
    rewrite set_loc_is_Some by done. simpl.
    unfold add_loc. rewrite loc_add_slice.
    rewrite decide_False by (intros (? & _); done).
    unfold loc at 1. cbn [cells]. rewrite lookup_insert_ne by cell_ne.
    unfold loc in Hfull. rewrite Hfull. simpl.
    rewrite set_loc_is_Some by done. by eexists. }
  destruct Hrun as [agent' Hrun]. exists agent'. split; [done|].
  by apply update_agent_credits.
Qed.


Lemma get_agent_power_proportion_length df agents day_idx vec dict :
  _get_agent_power_proportion df agents day_idx = Some (vec, dict) →
  length vec = length agents.
Proof.
  unfold _get_agent_power_proportion. intros Hrun. inv_bind Hrun.
  injection Hrun as <- <-. by rewrite !length_fmap.
Qed.

Lemma Forall2_finite_zip {A B} (f : A → Q → option B) (xs : list A) :
  ∀ (vec : list float64) (ys : list B),
  length vec = length xs →
  Forall2 (λ av y, (finite av.2 ≫= f av.1) = Some y) (zip xs vec) ys →
  ∃ ratios, vec = Finite <$> ratios ∧
            Forall2 (λ ar y, f ar.1 ar.2 = Some y) (zip xs ratios) ys.
Proof.
  induction xs as [|x xs IH]; intros vec ys Hlen Hall.
  - destruct vec; [|done]. simpl in Hall. apply Forall2_nil_inv_l in Hall as ->.
    exists []. split; [done|constructor].
  - destruct vec as [|v vec]; [done|]. simpl in Hall, Hlen.
    apply Forall2_cons_inv_l in Hall as (y & ys' & Hy & Hall & ->).
    apply IH in Hall as (ratios & -> & Hall); [|lia].
    simpl in Hy. destruct v as [q| | |]; try done. simpl in Hy.
    exists (q :: ratios). split; [done|]. by constructor.
Qed.

Lemma update_agents_inv df agents day_idx agents' :
  _update_agents df agents day_idx = Some agents' →
  ∃ total_day_rewards ratios dict,
    iloc df day_idx "day_network_reward" = Some total_day_rewards ∧
    _get_agent_power_proportion df agents day_idx = Some (Finite <$> ratios, dict) ∧
    length ratios = length agents ∧
    Forall2 (λ ar agent',
        update_agent day_idx total_day_rewards ar.1 ar.2 = Some agent')
      (zip agents ratios) agents'.
Proof.
  unfold _update_agents. intros Hrun. inv_bind Hrun.
  match goal with H : iloc_date _ _ = Some _ |- _ =>
    apply iloc_date_Some in H as [Hlt ->] end.
  match goal with H : _get_agent_power_proportion _ _ _ = Some _ |- _ =>
    pose proof (get_agent_power_proportion_length _ _ _ _ _ H) as Hlen;
    rename H into Hprop end.
  apply mapM_Some_1 in Hrun.
  apply Forall2_finite_zip in Hrun as (ratios & -> & Hall); [|done].
  eexists _, ratios, _. split; [eassumption|]. split; [exact Hprop|].
  split; [by rewrite length_fmap in Hlen|done].
Qed.
Section EstimateAndBootstrap.

Context `{env : !Environment}.

(** ** C8: pledge estimate for no added power *)

(** C8.  For a date with a previous row in the network frame, the pledge
    estimate for zero added quality-adjusted power is the previous day's
    [day_pledge_per_QAP] times [0 / SECTOR_SIZE], whatever the pledge formula
    of the collaborators computes. *)
Theorem zero_power_pledge_estimate df date_in qa_power_pib prev_rate :
  (qa_power_pib == 0)%Q →
  (date_in < nrows df)%nat →
  is_Some (loc_prev df date_in "circ_supply") →
  is_Some (loc_prev df date_in "total_qa_power_eib") →
  is_Some (loc_prev df date_in "network_baseline") →
  is_Some (loc_prev df date_in "day_network_reward") →
  loc_prev df date_in "day_pledge_per_QAP" = Some prev_rate →
  ∃ estimate,
    estimate_pledge_for_qa_power df date_in qa_power_pib = Some estimate ∧
    estimate = (prev_rate * (qa_power_pib / SECTOR_SIZE))%Q ∧
    (estimate == prev_rate * 0)%Q.
Proof.
  intros Hz Hlt [cs Hcs] [tq Htq] [nb Hnb] [dr Hdr] Hrate.
  eexists. split; [|split; [reflexivity|]].
  - unfold estimate_pledge_for_qa_power, index_of_date.
    rewrite option_guard_True by done. simpl.
    rewrite Hcs, Htq, Hnb, Hdr. simpl.
    rewrite (Qeq_eq_bool _ _ Hz). rewrite Hrate. simpl. reflexivity.
  - rewrite Hz. unfold Qdiv. ring.
Qed.

(** ** C10: rewards after construction *)

Lemma same_ledger_rows_refl agent : same_ledger_rows agent agent.
Proof. by split. Qed.

Lemma same_ledger_rows_trans a b c :
  same_ledger_rows a b → same_ledger_rows b c → same_ledger_rows a c.
Proof. intros [? ?] [? ?]. split; congruence. Qed.

Lemma Forall2_same_ledger_rows_refl agents : Forall2 same_ledger_rows agents agents.
Proof. apply Forall_Forall2_diag, Forall_forall. intros. apply same_ledger_rows_refl. Qed.

Lemma Forall2_same_ledger_rows_trans l1 :
  ∀ l2 l3, Forall2 same_ledger_rows l1 l2 → Forall2 same_ledger_rows l2 l3 →
           Forall2 same_ledger_rows l1 l3.
Proof.
  induction l1 as [|a l1 IH]; intros l2 l3 H12 H23.
  - apply Forall2_nil_inv_l in H12 as ->. apply Forall2_nil_inv_l in H23 as ->.
    constructor.
  - apply Forall2_cons_inv_l in H12 as (b & l2' & Hab & H12 & ->).
    apply Forall2_cons_inv_l in H23 as (c & l3' & Hbc & H23 & ->).
    constructor; [by eapply same_ledger_rows_trans|by eapply IH].
Qed.

Lemma sched_expire_agent_same_rows date_in day_idx upd tq bp dnr pcs df agent rr
    df' agent' rr' :
  sched_expire_agent date_in day_idx upd tq bp dnr pcs df agent rr
    = Some (df', agent', rr') →
  same_ledger_rows agent agent'.
Proof.
  intros Hrun. split.
  - unfold sched_expire_agent in Hrun. inv_bind Hrun. by injection Hrun as <- <- <-.
  - apply sched_expire_agent_inv in Hrun
      as (orig & r & old & renews & _ & _ & _ & _ & _ & _ & [Hn _]). exact Hn.
Qed.

Lemma update_agent_same_rows date_in total agent ratio agent' :
  update_agent date_in total agent ratio = Some agent' →
  same_ledger_rows agent agent'.
Proof.
  intros Hrun. split.
  - unfold update_agent in Hrun. inv_bind Hrun. by injection Hrun as <-.
  - apply update_agent_credits in Hrun as (_ & Hn & _). exact Hn.
Qed.

Lemma update_agents_same_rows df agents day_idx agents' :
  _update_agents df agents day_idx = Some agents' →
  Forall2 same_ledger_rows agents agents'.
Proof.
  intros (total & ratios & dict & _ & _ & Hlen & Hupd)%update_agents_inv.
  revert ratios agents' Hlen Hupd.
  induction agents as [|a agents IH]; intros ratios agents' Hlen Hupd.
  - simpl in Hupd. apply Forall2_nil_inv_l in Hupd as ->. constructor.
  - destruct ratios as [|r ratios]; [done|]. simpl in Hupd, Hlen.
    apply Forall2_cons_inv_l in Hupd as (a' & rest & Ha & Hrest & ->).
    constructor; [by eapply update_agent_same_rows|].
    eapply IH; [|exact Hrest]. lia.
Qed.

Lemma update_sched_expire_pledge_same_rows df agents date_in upd df' agents' :
  _update_sched_expire_pledge df agents date_in upd = Some (df', agents') →
  Forall2 same_ledger_rows agents agents'.
Proof.
  intros (_ & Hturns & _)%update_sched_expire_pledge_inv.
  eapply Forall2_impl; [exact Hturns|].
  intros a a' (tq & bp & dnr & pcs & dfa & dfb & rra & rrb & _ & Hturn).
  by eapply sched_expire_agent_same_rows.
Qed.

Lemma bootstrap_day_same_rows daily df agents day df' agents' :
  bootstrap_day daily (df, agents) day = Some (df', agents') →
  Forall2 same_ledger_rows agents agents'.
Proof.
  unfold bootstrap_day. intros Hrun. inv_bind Hrun. injection Hrun as <- <-.
  eapply Forall2_same_ledger_rows_trans.
  - by eapply update_sched_expire_pledge_same_rows.
  - by eapply update_agents_same_rows.
Qed.

Lemma bootstrap_loop_same_rows daily days :
  ∀ df agents df' agents',
  bootstrap_loop daily (df, agents) days = Some (df', agents') →
  Forall2 same_ledger_rows agents agents'.
Proof.
  induction days as [|day days IH]; intros df agents df' agents' Hrun;
    cbn [bootstrap_loop] in Hrun.
  - injection Hrun as <- <-. apply Forall2_same_ledger_rows_refl.
  - inv_bind Hrun.
    match goal with H : bootstrap_day _ _ _ = Some ?st |- _ =>
      destruct st as [df1 agents1]; apply bootstrap_day_same_rows in H end.
    eapply Forall2_same_ledger_rows_trans; [eassumption|by eapply IH].
Qed.

Lemma fast_forward_supply_same_rows cs_from_start historical_gas supply_df
    final_idx df agents df' agents' daily_burnt_fil :
  _fast_forward_supply cs_from_start historical_gas supply_df final_idx df agents
    = Some (df', agents', daily_burnt_fil) →
  Forall2 same_ledger_rows agents agents'.
Proof.
  unfold _fast_forward_supply. intros Hrun. destruct cs_from_start.
  - inv_bind Hrun. injection Hrun as <- <- <-.
    match goal with H : bootstrap_loop _ _ _ = Some _ |- _ =>
      by apply bootstrap_loop_same_rows in H end.
  - inv_bind Hrun. injection Hrun as <- <- <-. apply Forall2_same_ledger_rows_refl.
Qed.

(** Zeroing the rewards keeps the agents and the rows of their ledgers,
    writes 0.0 on every row of [reward_FIL] and touches no other column. *)
Lemma zero_agent_rewards_zero agents :
  Forall2 (λ agent agent',
      same_ledger_rows agent agent' ∧
      (∀ i, (i < nrows (accounting_df agent))%nat →
            loc (accounting_df agent') i "reward_FIL" = Some 0.0%Q) ∧
      (∀ c i, c ≠ "reward_FIL" →
              loc (accounting_df agent') i c = loc (accounting_df agent) i c))
    agents (_zero_agent_rewards agents).
Proof.
  unfold _zero_agent_rewards. apply Forall2_fmap_r, Forall_Forall2_diag, Forall_forall.
  intros agent _. split; [by split|]. split.
  - intros i Hi. simpl. rewrite loc_set_column. rewrite decide_True; done.
  - intros c i Hc. simpl. rewrite loc_set_column. rewrite decide_False; [done|].
    intros [? _]. done.
Qed.

(** C10.  When the bootstrap of the constructor returns, the agents are
    those it was given, each with the rows of its ledger, and every row of
    every agent's [reward_FIL] holds 0.0, whatever the bootstrap credited;
    the other columns are as the bootstrap left them. *)
Theorem rewards_zero_after_bootstrap cs_from_start historical_gas supply_df
    final_idx df agents df' agents' daily_burnt_fil :
  init_bootstrap cs_from_start historical_gas supply_df final_idx df agents
    = Some (df', agents', daily_burnt_fil) →
  Forall2 (λ agent agent',
      unique_id agent' = unique_id agent ∧
      nrows (accounting_df agent') = nrows (accounting_df agent) ∧
      ∀ i, (i < nrows (accounting_df agent))%nat →
           loc (accounting_df agent') i "reward_FIL" = Some 0.0%Q)
    agents agents' ∧
  ∃ bootstrapped,
    _fast_forward_supply cs_from_start historical_gas supply_df final_idx df agents
      = Some (df', bootstrapped, daily_burnt_fil) ∧
    Forall2 (λ agent agent',
        ∀ c i, c ≠ "reward_FIL" →
               loc (accounting_df agent') i c = loc (accounting_df agent) i c)
      bootstrapped agents'.
Proof.
  unfold init_bootstrap. intros Hrun. inv_bind Hrun. injection Hrun as <- <- <-.
  match goal with H : _fast_forward_supply _ _ _ _ _ _ = Some (_, ?bs, _) |- _ =>
    rename H into Hff; rename bs into bootstrapped end.
  pose proof (fast_forward_supply_same_rows _ _ _ _ _ _ _ _ _ Hff) as Hsame.
  pose proof (zero_agent_rewards_zero bootstrapped) as Hzero.
  split.
  - revert Hsame Hzero. generalize (_zero_agent_rewards bootstrapped).
    generalize bootstrapped. clear. induction agents as [|a agents IH]; intros l1 l2 H12 H23.
    + apply Forall2_nil_inv_l in H12 as ->. apply Forall2_nil_inv_l in H23 as ->.
      constructor.
    + apply Forall2_cons_inv_l in H12 as (b & l1' & [Hid Hn] & H12 & ->).
      apply Forall2_cons_inv_l in H23 as (c & l2' & ([Hid' Hn'] & Hz & _) & H23 & ->).
      constructor; [|by eapply IH].
      split; [congruence|]. split; [congruence|].
      intros i Hi. apply Hz. lia.
  - eexists. split; [exact Hff|].
    eapply Forall2_impl; [exact Hzero|]. by intros a a' (_ & _ & Hother).
Qed.

End EstimateAndBootstrap.
(** * Further properties of the daily update *)

(** Follow a chain of writes back to the frame they started from. *)
Ltac frame_chain :=
  repeat (eapply unchanged_outside_after_set; [eassumption|list_in|]);
  apply unchanged_outside_refl.

Lemma unchanged_outside_past day K df df' :
  unchanged_outside K df df' → cells_from day K → past_unchanged day df df'.
Proof.
  intros [Hn H] HK. split; [done|]. intros c i Hi. apply H.
  intros Hin. apply (proj1 (Forall_forall _ _) HK) in Hin. simpl in Hin. lia.
Qed.

Lemma past_unchanged_refl day df : past_unchanged day df df.
Proof. split; done. Qed.

Lemma past_unchanged_trans day df1 df2 df3 :
  past_unchanged day df1 df2 → past_unchanged day df2 df3 →
  past_unchanged day df1 df3.
Proof.
  intros [Hn1 H1] [Hn2 H2]. split; [congruence|].
  intros c i Hi. rewrite H2, H1; done.
Qed.

(** The cells of one row. *)
Ltac cells_on_row := repeat (apply Forall_cons; split; [simpl; lia|]); constructor.

Lemma update_power_metrics_frame df macro day_idx df' :
  _update_power_metrics df macro day_idx = Some df' →
  unchanged_outside
    [("day_onboarded_rbp_pib", day_idx); ("day_onboarded_qap_pib", day_idx);
     ("day_renewed_rbp_pib", day_idx); ("day_renewed_qap_pib", day_idx);
     ("day_sched_expire_rbp_pib", day_idx); ("day_sched_expire_qap_pib", day_idx);
     ("day_terminated_rbp_pib", day_idx); ("day_terminated_qap_pib", day_idx);
     ("day_network_rbp_pib", day_idx); ("day_network_qap_pib", day_idx);
     ("total_raw_power_eib", day_idx); ("total_qa_power_eib", day_idx)] df df'.
Proof.
  unfold _update_power_metrics. intros Hrun. inv_bind Hrun. frame_chain.
Qed.

Lemma update_generated_quantities_frame df day_idx df' :
  _update_generated_quantities df day_idx = Some df' →
  unchanged_outside
    [("day_pledge_per_QAP", day_idx); ("day_rewards_per_sector", day_idx)] df df'.
Proof.
  unfold _update_generated_quantities. intros Hrun. inv_bind Hrun. frame_chain.
Qed.

Section StepProperties.

Context `{env : !Environment} `{curves : !MintingCurves}.

Lemma update_minting_frame df day_idx df' :
  _update_minting df day_idx = Some df' →
  unchanged_outside
    [("capped_power", day_idx); ("cum_capped_power", day_idx);
     ("network_time", day_idx); ("cum_baseline_reward", day_idx);
     ("cum_network_reward", day_idx); ("day_network_reward", day_idx);
     ("day_simple_reward", day_idx)] df df'.
Proof.
  unfold _update_minting. intros Hrun. inv_bind Hrun. frame_chain.
Qed.

Lemma aggregate_terminations_loop_inv date_in day_idx agents :
  ∀ df df',
  aggregate_terminations_loop date_in day_idx df agents = Some df' →
  unchanged_outside [("burn_from_terminations", day_idx)] df df' ∧
  ∃ burns,
    Forall2 (λ agent b,
        loc (accounting_df agent) date_in "termination_burned_FIL" = Some b)
      agents burns ∧
    (agents ≠ [] →
     ∃ old new, loc df day_idx "burn_from_terminations" = Some old ∧
                loc df' day_idx "burn_from_terminations" = Some new ∧
                (new == old + py_sum burns)%Q).
Proof.
  induction agents as [|agent rest IH]; intros df df' Hrun; simpl in Hrun.
  - injection Hrun as <-. split; [apply unchanged_outside_refl|].
    exists []. split; [constructor|done].
  - inv_bind Hrun.
    match goal with H : index_of_date _ _ = Some _ |- _ =>
      apply index_of_date_Some in H as [Hlt ->] end.
    match goal with H : add_loc _ _ _ _ = Some _ |- _ => rename H into Hadd end.
    pose proof (IH _ _ Hrun) as (Hframe & burns & Hburns & Hsum).
    split.
    { eapply unchanged_outside_after; [exact Hframe|done|].
      by eapply unchanged_outside_add_loc. }
    eexists (_ :: burns). split; [constructor; [eassumption|exact Hburns]|].
    intros _. destruct (loc_add_loc_eq _ _ _ _ _ Hadd) as (old & Hold & Hnew).
    exists old. destruct rest as [|agent2 rest].
    + apply Forall2_nil_inv_l in Hburns as ->.
      destruct Hframe as [_ Hframe]. simpl in Hrun. injection Hrun as <-.
      eexists. split; [done|]. split; [exact Hnew|].
      rewrite py_sum_cons. unfold py_sum. simpl. ring.
    + destruct Hsum as (old2 & new & Hold2 & Hnew2 & Heq); [done|].
      rewrite Hnew in Hold2. injection Hold2 as <-.
      exists new. split; [done|]. split; [done|].
      rewrite Heq, !py_sum_cons. ring.
Qed.

Lemma aggregate_terminations_frame df agents day_idx df' :
  _aggregate_terminations df agents day_idx = Some df' →
  unchanged_outside [("burn_from_terminations", day_idx)] df df'.
Proof.
  unfold _aggregate_terminations. intros Hrun. inv_bind Hrun.
  by apply aggregate_terminations_loop_inv in Hrun as [? _].
Qed.

Lemma network_release_cells_from upd n day_idx d :
  cells_from day_idx (network_release_cells upd n (day_idx + d)).
Proof.
  unfold network_release_cells, cells_from.
  case_decide; [destruct upd|]; repeat constructor. simpl. lia.
Qed.

Lemma release_cells_from upd n day_idx d col :
  cells_from day_idx (release_cells upd n (day_idx + d) col).
Proof.
  unfold release_cells, cells_from.
  case_decide; [destruct upd|]; repeat constructor; simpl; lia.
Qed.

Lemma network_cells_written_from upd n date_in day_idx agents :
  cells_from day_idx (network_cells_written upd n date_in day_idx agents).
Proof.
  unfold network_cells_written, cells_from.
  induction agents as [|agent rest IH]; simpl; [constructor|].
  repeat (apply Forall_app; split); try apply network_release_cells_from; [|done].
  repeat constructor.
Qed.

Lemma sched_expire_turn_past n date_in day_idx upd agent agent' :
  sched_expire_turn n date_in day_idx upd agent agent' →
  past_unchanged day_idx (accounting_df agent) (accounting_df agent').
Proof.
  intros (tq & bp & dnr & pcs & dfa & dfb & rra & rrb & _ & Hturn).
  apply sched_expire_agent_inv in Hturn
    as (orig & r & old & renews & _ & _ & _ & _ & _ & _ & Hacc).
  eapply unchanged_outside_past; [exact Hacc|].
  unfold cells_from.
  repeat (apply Forall_app; split); try apply release_cells_from;
    repeat constructor.
Qed.

Lemma update_agent_past date_in total agent ratio agent' :
  update_agent date_in total agent ratio = Some agent' →
  past_unchanged date_in (accounting_df agent) (accounting_df agent').
Proof.
  unfold update_agent. intros Hrun. inv_bind Hrun. injection Hrun as <-.
  match goal with H : index_of_date _ _ = Some _ |- _ =>
    apply index_of_date_Some in H as [Hlt ->] end.
  match goal with H : add_loc _ _ "reward_FIL" _ = Some _ |- _ =>
    rename H into Hnow end.
  match goal with H : add_loc _ _ "full_reward_for_power_FIL" _ = Some _ |- _ =>
    rename H into Hfull end.
  pose proof (nrows_add_loc _ _ _ _ _ Hnow) as Hn1.
  pose proof (nrows_add_loc _ _ _ _ _ Hfull) as Hn2. simpl in Hn2.
  split; [simpl; congruence|]. intros c i Hi. simpl.
  rewrite (loc_add_loc_ne _ _ _ _ _ _ _ Hfull) by cell_ne.
  rewrite loc_add_slice. rewrite decide_False by lia.
  rewrite (loc_add_loc_ne _ _ _ _ _ _ _ Hnow) by cell_ne. done.
Qed.

Lemma turns_then_updates_past n day upd total agents mid ratios final :
  Forall2 (sched_expire_turn n day day upd) agents mid →
  Forall2 (λ ar b, update_agent day total ar.1 ar.2 = Some b) (zip mid ratios) final →
  length ratios = length mid →
  Forall2 (λ agent agent',
      past_unchanged day (accounting_df agent) (accounting_df agent'))
    agents final.
Proof.
  intros Hturns. revert ratios final.
  induction Hturns as [|a b l l' Hab _ IH]; intros ratios final Hupd Hlen.
  - destruct ratios; [|done]. simpl in Hupd.
    apply Forall2_nil_inv_l in Hupd as ->. constructor.
  - destruct ratios as [|r ratios]; [done|]. simpl in Hupd, Hlen.
    apply Forall2_cons_inv_l in Hupd as (b' & rest & Hb & Hrest & ->).
    constructor.
    + eapply past_unchanged_trans; [by eapply sched_expire_turn_past|].
      by eapply update_agent_past.
    + eapply IH; [exact Hrest|lia].
Qed.

(** X1.  The network updates of a day leave every earlier row of the
    network frame and of every agent's accounting table as it was, add no
    row, keep the agents in place and advance the day by one. *)
Theorem network_step_keeps_the_past daily df agents current_day df' agents' next :
  network_step daily df agents current_day = Some (df', agents', next) →
  next = (current_day + 1)%nat ∧
  past_unchanged current_day df df' ∧
  Forall2 (λ agent agent',
      past_unchanged current_day (accounting_df agent) (accounting_df agent'))
    agents agents'.
Proof.
  unfold network_step. intros Hrun. inv_bind Hrun. injection Hrun as <- <- <-.
  split; [done|].
  match goal with H : _update_power_metrics _ _ _ = Some _ |- _ =>
    apply update_power_metrics_frame in H; rename H into F1 end.
  match goal with H : _update_minting _ _ = Some _ |- _ =>
    apply update_minting_frame in H; rename H into F2 end.
  match goal with H : _aggregate_terminations _ _ _ = Some _ |- _ =>
    apply aggregate_terminations_frame in H; rename H into F3 end.
  match goal with H : _update_sched_expire_pledge _ _ _ _ = Some _ |- _ =>
    apply update_sched_expire_pledge_inv in H as (_ & Hturns & _ & F4) end.
  match goal with H : _update_circulating_supply _ _ _ _ = Some _ |- _ =>
    apply update_circulating_supply_inv in H as (_ & F5 & _) end.
  match goal with H : _update_generated_quantities _ _ = Some _ |- _ =>
    apply update_generated_quantities_frame in H; rename H into F6 end.
  match goal with H : _update_agents _ _ _ = Some _ |- _ =>
    apply update_agents_inv in H as (total & ratios & dict & _ & _ & Hlen & Hupd) end.
  split.
  - eapply past_unchanged_trans;
      [eapply unchanged_outside_past; [exact F1|cells_on_row]|].
    eapply past_unchanged_trans;
      [eapply unchanged_outside_past; [exact F2|cells_on_row]|].
    eapply past_unchanged_trans;
      [eapply unchanged_outside_past; [exact F3|cells_on_row]|].
    eapply past_unchanged_trans;
      [eapply unchanged_outside_past; [exact F4|]|].
    { apply Forall_app. split; [apply network_cells_written_from|cells_on_row]. }
    eapply past_unchanged_trans;
      [eapply unchanged_outside_past; [exact F5|cells_on_row]|].
    eapply unchanged_outside_past; [exact F6|cells_on_row].
  - eapply turns_then_updates_past; [exact Hturns|exact Hupd|done].
Qed.

End StepProperties.
(** ** Edge of the ledger, minting, burns and derived quantities *)

Lemma update_power_metrics_first_row df macro :
  _update_power_metrics df macro 0 = None.
Proof.
  destruct (_update_power_metrics df macro 0) as [df'|] eqn:Hrun; [|done].
  apply update_power_metrics_inv in Hrun as (? & ? & Hprev & _). done.
Qed.



(** X3.  Zeroing the rewards touches no other column of any agent's
    accounting table, adds no row, keeps the agents in place and, done
    twice, gives what it gives once. *)
Theorem zero_agent_rewards_only_rewards agents :
  Forall2 (λ agent agent',
      unique_id agent' = unique_id agent ∧
      nrows (accounting_df agent') = nrows (accounting_df agent) ∧
      ∀ c i, c ≠ "reward_FIL" →
             loc (accounting_df agent') i c = loc (accounting_df agent) i c)
    agents (_zero_agent_rewards agents) ∧
  Forall2 (λ once twice,
      ∀ c i, loc (accounting_df twice) i c = loc (accounting_df once) i c)
    (_zero_agent_rewards agents) (_zero_agent_rewards (_zero_agent_rewards agents)).
Proof.
  unfold _zero_agent_rewards. split.
  - apply Forall2_fmap_r, Forall_Forall2_diag, Forall_forall.
    intros agent _. simpl. split; [done|]. split; [done|].
    intros c i Hc. rewrite loc_set_column.
    rewrite decide_False; [done|]. intros [? _]. done.
  - rewrite <- list_fmap_compose.
    apply Forall2_fmap, Forall_Forall2_diag, Forall_forall.
    intros agent _ c i. simpl. rewrite !loc_set_column. simpl.
    case_decide; done.
Qed.

(** ** agents/roi_agent.py *)



(** X5.  The onboarding and the renewal rate that
    [ROIAgentDynamicOnboard.step] asks for are always within the agent's
    configured minimum and maximum, whatever the estimated ROI. *)
Theorem clipped_onboard_within_bounds self estimated_roi rb_to_onboard renewal_rate :
  (min_daily_rb_onboard_pib self <= max_daily_rb_onboard_pib self)%Q →
  (min_renewal_rate self <= max_renewal_rate self)%Q →
  clipped_onboard self estimated_roi = Some (rb_to_onboard, renewal_rate) →
  (min_daily_rb_onboard_pib self <= rb_to_onboard)%Q ∧
  (rb_to_onboard <= max_daily_rb_onboard_pib self)%Q ∧
  (min_renewal_rate self <= renewal_rate)%Q ∧
  (renewal_rate <= max_renewal_rate self)%Q.
Proof.
  intros Hrb Hrr Hrun. unfold clipped_onboard in Hrun. inv_bind Hrun.
  injection Hrun as <- <-.
  repeat split.
  - apply py_max_ge_r.
  - match goal with |- (py_max (py_min ?a ?b) ?c <= _)%Q =>
      pose proof (py_min_le_r a b);
      destruct (py_max_cases (py_min a b) c) as [[? ->]|[? ->]]; lra end.
  - apply py_max_ge_r.
  - match goal with |- (py_max (py_min ?a ?b) ?c <= _)%Q =>
      pose proof (py_min_le_r a b);
      destruct (py_max_cases (py_min a b) c) as [[? ->]|[? ->]]; lra end.
Qed.
(** ** Order of the agents *)





Section StepEdges.

Context `{env : !Environment} `{curves : !MintingCurves}.

(** ** The first row *)

(** X7.  Nothing can be simulated on the first row of the network frame:
    the pledge schedule update, the pledge estimate and the network updates
    of a day all raise there, for want of a previous row (label [-1]). *)
Theorem first_row_raises df agents :
  (∀ upd, _update_sched_expire_pledge df agents 0 upd = None) ∧
  (∀ qa_power_pib, estimate_pledge_for_qa_power df 0 qa_power_pib = None) ∧
  (∀ daily, network_step daily df agents 0 = None).
Proof.
  split; [|split].
  - intros upd. unfold _update_sched_expire_pledge.
    destruct (index_of_date df 0) as [i|] eqn:Hi; [|done].
    apply index_of_date_Some in Hi as [_ ->]. simpl.
    destruct (loc df 0 "total_qa_power_eib"); [|done]. simpl.
    destruct (loc df 0 "network_baseline"); [|done]. simpl.
    destruct (loc df 0 "day_network_reward"); done.
  - intros qa. unfold estimate_pledge_for_qa_power.
    destruct (index_of_date df 0) as [i|] eqn:Hi; [|done].
    apply index_of_date_Some in Hi as [_ ->]. done.
  - intros daily. unfold network_step.
    rewrite update_power_metrics_first_row. done.
Qed.

(** ** Minting *)

(** X8.  The capped power written by [_update_minting] is the smaller of
    the raw power in bytes and the baseline, the cumulative capped power
    grows by it, and the day's network reward is the increase of the
    cumulative network reward over the previous row. *)
Theorem minting_caps_power df day_idx df' :
  _update_minting df day_idx = Some df' →
  ∃ baseline total_raw prev_cum capped cum_reward prev_cum_reward,
    loc df day_idx "network_baseline" = Some baseline ∧
    loc df day_idx "total_raw_power_eib" = Some total_raw ∧
    loc_prev df day_idx "cum_capped_power" = Some prev_cum ∧
    loc df' day_idx "capped_power" = Some capped ∧
    (capped <= baseline)%Q ∧ (capped <= EIB * total_raw)%Q ∧
    (capped = baseline ∨ capped = (EIB * total_raw)%Q) ∧
    loc df' day_idx "cum_capped_power" = Some (capped + prev_cum)%Q ∧
    loc df' day_idx "cum_network_reward" = Some cum_reward ∧
    loc_prev df' day_idx "cum_network_reward" = Some prev_cum_reward ∧
    loc df' day_idx "day_network_reward" = Some (cum_reward - prev_cum_reward)%Q.
Proof.
  unfold _update_minting. intros Hrun. inv_bind Hrun.
  destruct day_idx as [|p]; [done|]. simpl in *.
  loc_back_all.
  exists x, x0, x1. do 3 eexists.
  split; [done|]. split; [done|]. split; [done|].
  split; [loc_back; reflexivity|].
  split; [apply py_min_le_r|]. split; [apply py_min_le_l|].
  split; [destruct (py_min_cases (EIB * x0) x) as [[_ ->]|[_ ->]]; auto|].
  split; [loc_back; reflexivity|].
  split; [loc_back; reflexivity|].
  split; [loc_back; eassumption|].
  loc_back. reflexivity.
Qed.

(** ** Termination burns *)

(** X9.  [_aggregate_terminations] adds to the day's
    [burn_from_terminations] the termination burns of all agents for that
    date and changes no other cell of the network frame. *)
Theorem terminations_are_added df agents day_idx df' :
  _aggregate_terminations df agents day_idx = Some df' →
  agents ≠ [] →
  unchanged_outside [("burn_from_terminations", day_idx)] df df' ∧
  ∃ burns old new,
    Forall2 (λ agent b,
        loc (accounting_df agent) day_idx "termination_burned_FIL" = Some b)
      agents burns ∧
    loc df day_idx "burn_from_terminations" = Some old ∧
    loc df' day_idx "burn_from_terminations" = Some new ∧
    (new == old + py_sum burns)%Q.
Proof.
  unfold _aggregate_terminations. intros Hrun Hne. inv_bind Hrun.
  match goal with H : iloc_date _ _ = Some _ |- _ =>
    apply iloc_date_Some in H as [Hlt ->] end.
  apply aggregate_terminations_loop_inv in Hrun as (Hframe & burns & Hburns & Hsum).
  split; [done|]. destruct (Hsum Hne) as (old & new & Hold & Hnew & Heq).
  exists burns, old, new. done.
Qed.

(** ** The bootstrap mode of the pledge schedule *)

(** X10.  With [update_filecoin_df=False], the mode of the bootstrap, the
    pledge schedule update registers no release at all: the network frame
    changes only in [original_pledge] and [renewal_rate] of the day, and an
    agent's accounting table only in [onboard_pledge_FIL] and
    [renew_pledge_FIL] of the day. *)
Theorem bootstrap_mode_schedules_nothing df agents date_in df' agents' :
  _update_sched_expire_pledge df agents date_in false = Some (df', agents') →
  unchanged_outside [("original_pledge", date_in); ("renewal_rate", date_in)] df df' ∧
  Forall2 (λ agent agent',
      unchanged_outside
        [("onboard_pledge_FIL", date_in); ("renew_pledge_FIL", date_in)]
        (accounting_df agent) (accounting_df agent'))
    agents agents'.
Proof.
  intros (_ & Hturns & _ & Hnet)%update_sched_expire_pledge_inv. split.
  - eapply unchanged_outside_weaken; [|exact Hnet].
    intros k [Hk|Hk]%elem_of_app; [|revert k Hk; list_sub].
    assert (k = ("original_pledge", date_in)) as ->; [|list_in].
    clear -Hk. unfold network_cells_written in Hk.
    induction agents as [|a l IH]; simpl in Hk; [by apply elem_of_nil in Hk|].
    unfold network_release_cells in Hk at 1 2.
    repeat case_decide; simpl in Hk;
      apply elem_of_cons in Hk as [->|Hk]; auto.
  - eapply Forall2_impl; [exact Hturns|].
    intros agent agent' (tq & bp & dnr & pcs & dfa & dfb & rra & rrb & Hn & Hturn).
    apply sched_expire_agent_inv in Hturn
      as (orig & r & old & renews & _ & _ & _ & _ & _ & _ & Hacc).
    eapply unchanged_outside_weaken; [|exact Hacc].
    unfold release_cells. repeat case_decide; list_sub.
Qed.

End StepEdges.
(** ** Sums over a column *)








(** ** [_release_pledge] *)


(** ** Conservation of the distributed reward *)

(** ** Attribution of the day's reward *)



Section Supply.

Context `{env : !Environment}.

(** ** Pledge totals and gas burn of the supply update *)




End Supply.
(** ** The bootstrap of the locked collateral *)

Section Bootstrap.

Context `{env : !Environment}.






End Bootstrap.

(** * The properties on the example ledgers *)

(** On day 1 both agents renew half of what is due: the recorded rate is
    1/4, the product, where the mean would be 1/2. *)
Lemma renewal_rate_is_product_witness :
  ∃ df' agents' ratios,
    @_update_sched_expire_pledge example_env example_net example_agents 1 true
      = Some (df', agents') ∧
    Forall2 (λ agent r, @agent_rr_at 1 agent = Some r) example_agents ratios ∧
    loc df' 1 "renewal_rate" = Some (fold_left Qmult ratios 1%Q) ∧
    (fold_left Qmult ratios 1 == 1 # 4)%Q ∧
    (mean ratios = Some (py_sum ratios / 2)%Q ∧ py_sum ratios / 2 == 1 # 2)%Q.
Proof.
  destruct (succeeded_Some (@_update_sched_expire_pledge example_env example_net example_agents 1 true)) as [[df' agents'] Hrun];
    [vm_compute; reflexivity|].
  destruct (@renewal_rate_is_product example_env _ _ _ _ _ _ Hrun)
    as (ratios & Hall & Hloc).
  exists df', agents', ratios. split; [exact Hrun|].
  split; [eapply Forall2_impl; [exact Hall|]; by intros ? ? [? _]|].
  split; [done|].
  apply Forall2_cons_inv_l in Hall as (r1 & rest & [Hr1 _] & Hall & ->).
  apply Forall2_cons_inv_l in Hall as (r2 & rest' & [Hr2 _] & Hall & ->).
  apply Forall2_nil_inv_l in Hall as ->.
  vm_compute in Hr1, Hr2. injection Hr1 as <-. injection Hr2 as <-.
  split; [reflexivity|]. split; reflexivity.
Defined.

(** On day 1 the first agent has 50 FIL due and renews half of its power:
    at least 25 FIL are locked for the renewal. *)
Lemma renewal_locks_at_least_original_share_witness :
  ∃ df' agents',
    @_update_sched_expire_pledge example_env example_net example_agents 1 true
      = Some (df', agents') ∧
    Forall2 (λ agent agent',
        ∃ original_pledge agent_rr before after : Q,
          loc (accounting_df agent) 1 "scheduled_pledge_release" = Some original_pledge ∧
          agent_rr_at 1 agent = Some agent_rr ∧
          loc (accounting_df agent) 1 "renew_pledge_FIL" = Some before ∧
          loc (accounting_df agent') 1 "renew_pledge_FIL" = Some after ∧
          (original_pledge * agent_rr <= after - before)%Q)
      example_agents agents'.
Proof.
  destruct (succeeded_Some (@_update_sched_expire_pledge example_env example_net example_agents 1 true)) as [[df' agents'] Hrun];
    [vm_compute; reflexivity|].
  exists df', agents'. split; [exact Hrun|].
  exact (@renewal_locks_at_least_original_share example_env _ _ _ _ _ _ Hrun).
Defined.

(** On day 3, the last row, every release of the day falls after the frame:
    nothing but the day's own cells changes. *)
Lemma release_beyond_horizon_dropped_witness :
  ∃ df' agents',
    @_update_sched_expire_pledge example_env example_net example_agents 3 true
      = Some (df', agents') ∧
    nrows df' = 4%nat ∧
    Forall2 (λ agent agent',
        unchanged_outside
          [("onboard_pledge_FIL", 3%nat); ("renew_pledge_FIL", 3%nat)]
          (accounting_df agent) (accounting_df agent'))
      example_agents agents' ∧
    unchanged_outside [("original_pledge", 3%nat); ("renewal_rate", 3%nat)]
      example_net df'.
Proof.
  destruct (succeeded_Some (@_update_sched_expire_pledge example_env example_net example_agents 3 true)) as [[df' agents'] Hrun];
    [vm_compute; reflexivity|].
  destruct (@release_beyond_horizon_dropped example_env _ _ _ _ _ _ Hrun)
    as (Hn & Hall & _ & Hnet).
  exists df', agents'. split; [exact Hrun|]. split; [done|]. split.
  - assert (Hbeyond : Forall (λ agent,
        onboard_release_beyond (nrows example_net) 3 3 agent ∧
        renew_release_beyond (nrows example_net) 3 3 agent) example_agents).
    { unfold example_agents.
      repeat (apply Forall_cons; split;
              [split; unfold onboard_release_beyond, renew_release_beyond;
               simpl; lia|]).
      constructor. }
    eapply Forall2_impl_Forall; [exact Hbeyond|exact Hall|].
    intros a a' [Hon Hre] (_ & _ & Hboth). by apply Hboth.
  - apply Hnet. unfold example_agents.
    repeat (apply Forall_cons; split;
            [split; unfold onboard_release_beyond, renew_release_beyond;
             simpl; lia|]).
    constructor.
Defined.

(** C4, as stated, fails.  With 5 EiB of raw power on day 0 and all 5120 PiB
    scheduled to expire on day 1, the balance is 0 but the total written for
    day 1 is the floor 1e-6. *)
Lemma total_power_balance_broken_by_floor :
  ¬ (∀ df agents date_in day_idx df' prev total,
       _update_power_metrics df (_compute_macro agents date_in) day_idx = Some df' →
       loc_prev df day_idx "total_raw_power_eib" = Some prev →
       loc df' day_idx "total_raw_power_eib" = Some total →
       (total ==
        power_balance prev
          (accumulate day_onboarded_rb_power_pib agents date_in)
          (accumulate extended_rb_pib agents date_in)
          (accumulate sched_expire_rb_pib agents date_in)
          (accumulate terminated_rb_pib agents date_in))%Q).
Proof.
  intros Hclaim.
  destruct (succeeded_Some (_update_power_metrics example_net
              (_compute_macro [example_agent_expiring] 1) 1)) as [df' Hrun];
    [vm_compute; reflexivity|].
  pose proof (Hclaim example_net [example_agent_expiring] 1%nat 1%nat df'
                5%Q MIN_VALUE Hrun eq_refl) as Hbad.
  assert (Hloc : loc df' 1 "total_raw_power_eib" = Some MIN_VALUE).
  { apply update_power_metrics_inv in Hrun
      as (prev_rbp & prev_qap & Hp1 & _ & Ht1 & _).
    rewrite Ht1. vm_compute in Hp1. injection Hp1 as <-. reflexivity. }
  specialize (Hbad Hloc). vm_compute in Hbad. discriminate.
Qed.

(** On day 1 of the example ledgers the two agents onboard 2 PiB and renew
    3 PiB of raw power while 6 PiB are due: the balance is above the floor
    and is what is written. *)
Lemma total_power_is_floored_balance_witness :
  ∃ df' total_rbp total_qap,
    _update_power_metrics example_net (_compute_macro example_agents 1) 1 = Some df' ∧
    loc df' 1 "total_raw_power_eib" = Some total_rbp ∧
    loc df' 1 "total_qa_power_eib" = Some total_qap ∧
    (total_rbp == power_balance 5 2 3 6 0)%Q ∧
    (total_qap == power_balance 10 3 3 6 0)%Q.
Proof.
  destruct (succeeded_Some
              (_update_power_metrics example_net (_compute_macro example_agents 1) 1))
    as [df' Hrun]; [vm_compute; reflexivity|].
  destruct (total_power_is_floored_balance _ _ _ _ _ Hrun)
    as (prev_rbp & prev_qap & total_rbp & total_qap & Hp1 & Hp2 & Ht1 & Ht2
        & _ & _ & Hb1 & Hb2 & _).
  vm_compute in Hp1, Hp2. injection Hp1 as <-. injection Hp2 as <-.
  exists df', total_rbp, total_qap.
  split; [exact Hrun|]. split; [exact Ht1|]. split; [exact Ht2|]. split.
  - rewrite Hb1; [reflexivity|]. vm_compute. discriminate.
  - rewrite Hb2; [reflexivity|]. vm_compute. discriminate.
Defined.

(** C1, as stated, fails: on day 1 of a four-day ledger only two of the 180
    installments fit, yet the credit returns a ledger and flags nothing. *)
Lemma vesting_truncation_not_flagged :
  ¬ (∀ date_in total agent ratio,
       (nrows (accounting_df agent) ≤ date_in + 180)%nat →
       update_agent date_in total agent ratio = None).
Proof.
  intros Hclaim.
  assert (Hcut : (nrows (accounting_df example_agent_1) ≤ 1 + 180)%nat)
    by (vm_compute; lia).
  pose proof (Hclaim 1%nat 100%Q example_agent_1 0.7%Q Hcut) as Hnone.
  assert (Hsome : succeeded (update_agent 1 100 example_agent_1 0.7) = true)
    by (vm_compute; reflexivity).
  rewrite Hnone in Hsome. discriminate.
Qed.

(** The scenario of the two agents with shares 0.7 and 0.3 and a reward of
    100: the first agent is credited 17.5 at once. *)
Lemma vesting_credit_truncated_silently_witness :
  ∃ agent' now,
    update_agent 1 100 example_agent_1 0.7 = Some agent' ∧
    vesting_credited 1 (100 * 0.7) (accounting_df example_agent_1)
      (accounting_df agent') ∧
    loc (accounting_df agent') 1 "reward_FIL" = Some now ∧
    (now == 17.5)%Q.
Proof.
  destruct (vesting_credit_truncated_silently 1 100 example_agent_1 0.7)
    as (agent' & Hrun & Hcredit).
  - vm_compute. lia.
  - vm_compute. by eexists.
  - vm_compute. by eexists.
  - pose proof Hcredit as (Hlt & Hn & (old & Hold & Hnew) & Hrest).
    exists agent'. eexists. split; [exact Hrun|].
    split; [exact Hcredit|]. split; [exact Hnew|].
    vm_compute in Hold. injection Hold as <-. reflexivity.
Defined.

(** On day 1 of the example ledgers the supply balance is positive and is
    what is written. *)
Lemma circ_supply_is_floored_balance_witness :
  ∃ df' circ_supply,
    @_update_circulating_supply example_env 1 example_net example_agents 1 = Some df' ∧
    loc df' 1 "circ_supply" = Some circ_supply ∧
    (0 <= circ_supply)%Q.
Proof.
  destruct (succeeded_Some
              (@_update_circulating_supply example_env 1 example_net example_agents 1))
    as [df' Hrun]; [vm_compute; reflexivity|].
  destruct (@circ_supply_is_floored_balance example_env _ _ _ _ _ Hrun)
    as (dr & cnr & tv & nl & gas & bft & cs & _ & _ & _ & _ & _ & _ & Hcs & _ & Hpos).
  exists df', cs. split; [exact Hrun|]. split; [exact Hcs|exact Hpos].
Defined.



(** C7, as stated, fails, in three ways.  With a recorded network total of
    1 EiB and two agents holding 2 EiB and 1 EiB, both proportions are
    capped at 1 and the shares are 1/2 each, far from 2/3 and 1/3.  With
    agents holding 1, 2 and 3 PiB the shares sum to less than 1, summed
    exactly or as float64 values.  With agents holding no power at all the
    shares are NaN. *)
Lemma power_share_differs_when_capped :
  ¬ (∀ df agents day_idx vec dict,
       _get_agent_power_proportion df agents day_idx = Some (vec, dict) →
       Forall2 (λ agent share,
           ∃ s, share = Finite s ∧
                (Qabs (s - get_active_qa_power_at_date agent day_idx
                           / active_qa_total day_idx agents)
                 <= share_tolerance)%Q) agents vec) ∧
  ¬ (∀ df agents day_idx shares dict,
       _get_agent_power_proportion df agents day_idx
         = Some (Finite <$> shares, dict) →
       (py_sum shares == 1)%Q ∨ (float_sum shares == 1)%Q) ∧
  ¬ (∀ df agents day_idx vec dict,
       _get_agent_power_proportion df agents day_idx = Some (vec, dict) →
       Forall (λ share, ∃ s, share = Finite s ∧ (0 <= s)%Q ∧ (s <= 1)%Q) vec).
Proof.
  split; [|split].
  - intros Hclaim.
    destruct (succeeded_Some
                (_get_agent_power_proportion example_net_drifted
                   example_agents_drifted 0))
      as [[vec dict] Hrun]; [vm_compute; reflexivity|].
    assert (Hobs :
      (fst <$> _get_agent_power_proportion example_net_drifted
                 example_agents_drifted 0)
      = Some [Finite (4503599627370496 # 9007199254740992);
              Finite (4503599627370496 # 9007199254740992)])
      by (vm_compute; reflexivity).
    rewrite Hrun in Hobs. simpl in Hobs. injection Hobs as ->.
    specialize (Hclaim _ _ _ _ _ Hrun). clear Hrun.
    apply Forall2_cons_1 in Hclaim as [(s & Hs & Hfirst) _].
    injection Hs as <-. vm_compute in Hfirst. exact (Hfirst eq_refl).
  - intros Hclaim.
    destruct (succeeded_Some
                (_get_agent_power_proportion example_net example_agents_123 1))
      as [[vec dict] Hrun]; [vm_compute; reflexivity|].
    assert (Hobs :
      (fst <$> _get_agent_power_proportion example_net example_agents_123 1)
      = Some (Finite <$> [6004799503160661 # 36028797018963968;
                          6004799503160661 # 18014398509481984;
                          9007199254740990 # 18014398509481984]%Q))
      by (vm_compute; reflexivity).
    rewrite Hrun in Hobs. simpl in Hobs. injection Hobs as ->.
    destruct (Hclaim _ _ _
                [6004799503160661 # 36028797018963968;
                 6004799503160661 # 18014398509481984;
                 9007199254740990 # 18014398509481984]%Q _ Hrun) as [Hsum|Hsum];
      clear Hrun Hclaim; vm_compute in Hsum; discriminate Hsum.
  - intros Hclaim.
    destruct (succeeded_Some
                (_get_agent_power_proportion example_net example_agents_idle 1))
      as [[vec dict] Hrun]; [vm_compute; reflexivity|].
    assert (Hobs :
      (fst <$> _get_agent_power_proportion example_net example_agents_idle 1)
      = Some [NaN; NaN]) by (vm_compute; reflexivity).
    rewrite Hrun in Hobs. simpl in Hobs. injection Hobs as ->.
    specialize (Hclaim _ _ _ _ _ Hrun). clear Hrun.
    apply Forall_cons in Hclaim as [(s & Hs & _) _]. discriminate Hs.
Qed.

(** On the example ledgers the agents hold 7 EiB and 3 EiB of the 10 EiB
    recorded: the shares are 0.7 and 0.3 within the tolerance. *)
Lemma power_shares_normalized_witness :
  ∃ shares dict,
    _get_agent_power_proportion example_net example_agents 1
      = Some (Finite <$> shares, dict) ∧
    Forall (λ share, (0 <= share)%Q ∧ (share <= 1)%Q) shares ∧
    (Qabs (py_sum shares - 1) <= share_tolerance)%Q ∧
    Forall2 (λ share expected, (Qabs (share - expected) <= share_tolerance)%Q)
      shares [0.7; 0.3]%Q.
Proof.
  destruct (power_shares_normalized example_net example_agents 1 10)
    as (shares & dict & Hrun & _ & Hunit & Hsum & Hexact).
  - vm_compute. reflexivity.
  - reflexivity.
  - unfold example_agents.
    repeat (apply Forall_cons; split; [vm_compute; discriminate|]). constructor.
  - unfold example_agents. apply Exists_cons_hd. reflexivity.
  - vm_compute. discriminate.
  - exists shares, dict. split; [exact Hrun|]. split; [exact Hunit|].
    split; [exact Hsum|].
    assert (Hcap : Forall (λ agent,
        (get_active_qa_power_at_date agent 1 * PIB <= 10 * EIB)%Q) example_agents).
    { unfold example_agents.
      repeat (apply Forall_cons; split; [vm_compute; discriminate|]). constructor. }
    specialize (Hexact Hcap). unfold example_agents in Hexact.
    apply Forall2_cons_inv_l in Hexact as (s1 & rest & H1 & Hexact & ->).
    apply Forall2_cons_inv_l in Hexact as (s2 & rest' & H2 & Hexact & ->).
    apply Forall2_nil_inv_l in Hexact as ->.
    assert (E1 : (get_active_qa_power_at_date example_agent_1 1
                  / active_qa_total 1 [example_agent_1; example_agent_2]
                  == 0.7)%Q) by (vm_compute; reflexivity).
    assert (E2 : (get_active_qa_power_at_date example_agent_2 1
                  / active_qa_total 1 [example_agent_1; example_agent_2]
                  == 0.3)%Q) by (vm_compute; reflexivity).
    rewrite E1 in H1. rewrite E2 in H2.
    constructor; [exact H1|]. constructor; [exact H2|]. constructor.
Defined.

(** The estimate for no added power on day 1 of the example frame. *)
Lemma zero_power_pledge_estimate_witness :
  ∃ estimate,
    @estimate_pledge_for_qa_power example_env example_net 1 0 = Some estimate ∧
    estimate = (0.2 * (0 / SECTOR_SIZE))%Q ∧
    (estimate == 0.2 * 0)%Q.
Proof.
  apply (@zero_power_pledge_estimate example_env example_net 1%nat 0%Q 0.2%Q).
  - reflexivity.
  - vm_compute. lia.
  - vm_compute. by eexists.
  - vm_compute. by eexists.
  - vm_compute. by eexists.
  - vm_compute. by eexists.
  - vm_compute. reflexivity.
Defined.

(** The bootstrap over the example ledgers credits the first agent a reward
    on day 1; after the constructor has zeroed the rewards both agents are
    there with their four rows, each holding 0.0. *)
Lemma rewards_zero_after_bootstrap_witness :
  ∃ df' agents' daily bootstrapped,
    @init_bootstrap example_env true true example_supply 3 example_net example_agents
      = Some (df', agents', daily) ∧
    Forall2 (λ agent agent',
        unique_id agent' = unique_id agent ∧
        nrows (accounting_df agent') = 4%nat ∧
        ∀ i, (i < 4)%nat →
             loc (accounting_df agent') i "reward_FIL" = Some 0.0%Q)
      example_agents agents' ∧
    @_fast_forward_supply example_env true true example_supply 3
      example_net example_agents = Some (df', bootstrapped, daily) ∧
    ∃ credited,
      (head bootstrapped ≫= λ agent, loc (accounting_df agent) 1 "reward_FIL")
        = Some credited ∧
      (17 < credited)%Q.
Proof.
  assert (Hrows : Forall (λ agent, nrows (accounting_df agent) = 4%nat)
                    example_agents).
  { unfold example_agents. repeat (apply Forall_cons; split; [reflexivity|]).
    constructor. }
  assert (Hobs :
    Qltb 17 (default 0%Q
      (@_fast_forward_supply example_env true true example_supply 3
         example_net example_agents
       ≫= λ r, head r.1.2 ≫= λ agent, loc (accounting_df agent) 1 "reward_FIL"))
    = true) by (vm_compute; reflexivity).
  destruct (succeeded_Some
              (@init_bootstrap example_env true true example_supply 3
                 example_net example_agents))
    as [[[df' agents'] daily] Hrun]; [vm_compute; reflexivity|].
  destruct (@rewards_zero_after_bootstrap example_env _ _ _ _ _ _ _ _ _ Hrun)
    as (Hzero & bootstrapped & Hff & _).
  rewrite Hff in Hobs. cbn [mbind option_bind fst snd] in Hobs.
  exists df', agents', daily, bootstrapped.
  split; [exact Hrun|]. split.
  { clear Hrun Hff Hobs.
    eapply Forall2_impl_Forall; [exact Hrows|exact Hzero|].
    intros a a' Ha (Hid & Hn & Hz). rewrite Ha in Hn, Hz.
    split; [exact Hid|]. split; [exact Hn|exact Hz]. }
  split; [exact Hff|]. clear Hrun Hff Hzero.
  destruct (head bootstrapped ≫= λ agent, loc (accounting_df agent) 1 "reward_FIL")
    as [credited|]; [|discriminate Hobs].
  exists credited. split; [reflexivity|]. apply Qltb_true. exact Hobs.
Defined.

(** * The further properties on the example ledgers *)

(** Day 1 of the example ledgers, run through all the network updates: row 0
    of the frame and of both accounting tables is as before. *)
Lemma network_step_keeps_the_past_witness :
  ∃ df' agents',
    @network_step example_env example_curves 1 example_net_minting example_agents 1
      = Some (df', agents', 2%nat) ∧
    past_unchanged 1 example_net_minting df' ∧
    Forall2 (λ agent agent',
        past_unchanged 1 (accounting_df agent) (accounting_df agent'))
      example_agents agents'.
Proof.
  destruct (succeeded_Some
              (@network_step example_env example_curves 1 example_net_minting
                 example_agents 1))
    as [[[df' agents'] next] Hrun]; [vm_compute; reflexivity|].
  destruct (@network_step_keeps_the_past example_env example_curves _ _ _ _ _ _ _ Hrun)
    as (Hnext & Hdf & Hag).
  subst next. exists df', agents'. split; [exact Hrun|]. split; [exact Hdf|exact Hag].
Defined.



(** An estimated ROI of 0.5, above the agent's maximum of 0.3: the line
    gives more than the maximum and the request is clipped. *)
Lemma clipped_onboard_within_bounds_witness :
  ∃ rb_to_onboard renewal_rate,
    clipped_onboard example_roi_agent 0.5 = Some (rb_to_onboard, renewal_rate) ∧
    (3 <= rb_to_onboard)%Q ∧ (rb_to_onboard <= 12)%Q ∧
    (0.3 <= renewal_rate)%Q ∧ (renewal_rate <= 0.8)%Q.
Proof.
  destruct (succeeded_Some (clipped_onboard example_roi_agent 0.5))
    as [[rb rr] Hrun]; [vm_compute; reflexivity|].
  exists rb, rr. split; [exact Hrun|].
  apply (clipped_onboard_within_bounds example_roi_agent 0.5 rb rr).
  - vm_compute. discriminate.
  - vm_compute. discriminate.
  - exact Hrun.
Defined.


(** Day 1 of the example frame: 5 EiB of raw power under a baseline of
    8 EiB. *)
Lemma minting_caps_power_witness :
  ∃ df' capped reward,
    @_update_minting example_curves example_net_minting 1 = Some df' ∧
    loc df' 1 "capped_power" = Some capped ∧
    (capped <= 8 * EIB)%Q ∧ (capped <= EIB * 5)%Q ∧
    loc df' 1 "cum_capped_power" = Some (capped + 5 * EIB)%Q ∧
    loc df' 1 "day_network_reward" = Some reward.
Proof.
  destruct (succeeded_Some (@_update_minting example_curves example_net_minting 1))
    as [df' Hrun]; [vm_compute; reflexivity|].
  destruct (@minting_caps_power example_curves _ _ _ Hrun)
    as (baseline & raw & prev & capped & cum & prev_cum
        & Hb & Hraw & Hprev & Hc & Hle1 & Hle2 & _ & Hcum & _ & _ & Hday).
  vm_compute in Hb, Hraw, Hprev.
  injection Hb as <-. injection Hraw as <-. injection Hprev as <-.
  exists df', capped. eexists. split; [exact Hrun|]. split; [exact Hc|].
  split; [exact Hle1|]. split; [exact Hle2|]. split; [exact Hcum|exact Hday].
Defined.

(** Day 1 holds 4 FIL of burn and the two agents burn 5 and 7 more. *)
Lemma terminations_are_added_witness :
  ∃ df' new,
    _aggregate_terminations example_net_minting example_agents_burning 1 = Some df' ∧
    unchanged_outside [("burn_from_terminations", 1%nat)] example_net_minting df' ∧
    loc df' 1 "burn_from_terminations" = Some new ∧
    (new == 4 + (5 + 7))%Q.
Proof.
  destruct (succeeded_Some
              (_aggregate_terminations example_net_minting example_agents_burning 1))
    as [df' Hrun]; [vm_compute; reflexivity|].
  destruct (terminations_are_added _ _ _ _ Hrun)
    as (Hframe & burns & old & new & Hburns & Hold & Hnew & Hsum); [done|].
  exists df', new. split; [exact Hrun|]. split; [exact Hframe|].
  split; [exact Hnew|].
  unfold example_agents_burning in Hburns.
  apply Forall2_cons_inv_l in Hburns as (b1 & rest & Hb1 & Hburns & ->).
  apply Forall2_cons_inv_l in Hburns as (b2 & rest' & Hb2 & Hburns & ->).
  apply Forall2_nil_inv_l in Hburns as ->.
  vm_compute in Hb1, Hb2, Hold.
  injection Hb1 as <-. injection Hb2 as <-. injection Hold as <-.
  etransitivity; [exact Hsum|]. vm_compute. reflexivity.
Defined.

(** Day 1 of the example ledgers in the mode of the bootstrap. *)
Lemma bootstrap_mode_schedules_nothing_witness :
  ∃ df' agents',
    @_update_sched_expire_pledge example_env example_net example_agents 1 false
      = Some (df', agents') ∧
    unchanged_outside [("original_pledge", 1%nat); ("renewal_rate", 1%nat)]
      example_net df' ∧
    Forall2 (λ agent agent',
        unchanged_outside
          [("onboard_pledge_FIL", 1%nat); ("renew_pledge_FIL", 1%nat)]
          (accounting_df agent) (accounting_df agent'))
      example_agents agents'.
Proof.
  destruct (succeeded_Some
              (@_update_sched_expire_pledge example_env example_net example_agents
                 1 false))
    as [[df' agents'] Hrun]; [vm_compute; reflexivity|].
  exists df', agents'. split; [exact Hrun|].
  exact (@bootstrap_mode_schedules_nothing example_env _ _ _ _ _ Hrun).
Defined.






